(** * Inventory rendering of the Ansible provider utilities

    A shallow embedding of [providerutils/utils.go] together with the parts of
    Go's standard library it calls ([unicode/utf8], [strconv], [sort],
    [strings], [os], [path/filepath]), and the properties established on it:
    of the rendered inventory, of the expansion of the raw entries, and of
    the listing and the removal of the inventory files.

    Conventions.
    - A Go [string] is a sequence of bytes: it is embedded as [string], whose
      characters are exactly the 256 byte values.  Byte-level library code
      ([utf8], [strconv]) works on the list of byte values, as numbers in [Z].
    - A Go [map] is a [gmap], a set [map[string]struct{}] a [gset], and a
      slice a [list].  Go leaves the iteration order of a map unspecified; the
      provider sorts keys before printing, so the rendered text never depends
      on it.
    - [interface{}] values coming from Terraform are the inductive [Value]. *)

From stdpp Require Import gmap strings list fin_maps sorting.
From Stdlib Require Import ZArith Ascii DecimalString DecimalZ Lia.

#[local] Set Warnings "-register-all".
#[local] Open Scope Z_scope.

(** ** Bytes and strings *)

(** The numeric value of a character literal. *)
Definition ord (c : ascii) : Z := Z.of_N (N_of_ascii c).

(** Go's conversion [byte(x)]: truncation to eight bits. *)
Definition byte (x : Z) : Z := x mod 256.

(** Go's conversion [uint32(x)] of a 32-bit signed value. *)
Definition uint32 (x : Z) : Z := x mod 2 ^ 32.

(** Go's conversion to [int32] (a [rune]): wrap-around into the signed range. *)
Definition int32 (x : Z) : Z := (x + 2 ^ 31) mod 2 ^ 32 - 2 ^ 31.

Definition isByte (b : Z) : Prop := 0 <= b < 256.

Fixpoint bytes_of_string (s : string) : list Z :=
  match s with
  | EmptyString => []
  | String c s' => ord c :: bytes_of_string s'
  end.

Fixpoint string_of_bytes (l : list Z) : string :=
  match l with
  | [] => EmptyString
  | b :: l' => String (ascii_of_N (Z.to_N (byte b))) (string_of_bytes l')
  end.

(** The line feed and the double quote, which a string literal cannot hold. *)
Definition LF : string := String "010" EmptyString.
Definition DQ : string := String "034" EmptyString.

(** ** unicode/utf8 *)

Module utf8.

Definition RuneError : Z := 0xFFFD.
Definition RuneSelf : Z := 0x80.
Definition MaxRune : Z := 0x10FFFF.
Definition surrogateMin : Z := 0xD800.
Definition surrogateMax : Z := 0xDFFF.

Definition tx : Z := 0x80.
Definition t2 : Z := 0xC0.
Definition t3 : Z := 0xE0.
Definition t4 : Z := 0xF0.

Definition maskx : Z := 0x3F.
Definition mask2 : Z := 0x1F.
Definition mask3 : Z := 0x0F.
Definition mask4 : Z := 0x07.

Definition rune1Max : Z := 2 ^ 7 - 1.
Definition rune2Max : Z := 2 ^ 11 - 1.
Definition rune3Max : Z := 2 ^ 16 - 1.

Definition locb : Z := 0x80.
Definition hicb : Z := 0xBF.

(** Information about the first byte of an encoding: the low bits hold the
    size, the high nibble the index into [acceptRanges]. *)
Definition xx : Z := 0xF1.
Definition as_ : Z := 0xF0.
Definition s1 : Z := 0x02.
Definition s2 : Z := 0x13.
Definition s3 : Z := 0x03.
Definition s4 : Z := 0x23.
Definition s5 : Z := 0x34.
Definition s6 : Z := 0x04.
Definition s7 : Z := 0x44.

(** The table [first[256]], written by the ranges of its rows. *)
Definition first (b : Z) : Z :=
  if b <? 0x80 then as_
  else if b <? 0xC2 then xx
  else if b <? 0xE0 then s1
  else if b =? 0xE0 then s2
  else if b <? 0xED then s3
  else if b =? 0xED then s4
  else if b <? 0xF0 then s3
  else if b =? 0xF0 then s5
  else if b <? 0xF4 then s6
  else if b =? 0xF4 then s7
  else xx.

Record acceptRange := { lo : Z; hi : Z }.

Definition acceptRanges (i : Z) : acceptRange :=
  if i =? 0 then {| lo := locb; hi := hicb |}
  else if i =? 1 then {| lo := 0xA0; hi := hicb |}
  else if i =? 2 then {| lo := locb; hi := 0x9F |}
  else if i =? 3 then {| lo := 0x90; hi := hicb |}
  else if i =? 4 then {| lo := locb; hi := 0x8F |}
  else {| lo := 0; hi := 0 |}.

Definition ValidRune (r : Z) : bool :=
  if (0 <=? r) && (r <? surrogateMin) then true
  else if (surrogateMax <? r) && (r <=? MaxRune) then true
  else false.

(** [DecodeRuneInString]: the first rune of [s] and its width in bytes;
    [(RuneError, 1)] when the encoding is invalid, [(RuneError, 0)] when [s]
    is empty. *)
Definition DecodeRuneInString (s : list Z) : Z * nat :=
  let n := length s in
  match s with
  | [] => (RuneError, 0%nat)
  | s0 :: _ =>
      let x := first s0 in
      if as_ <=? x then
        let mask := Z.shiftr (int32 (Z.shiftl x 31)) 31 in
        (Z.lor (Z.land s0 (Z.lnot mask)) (Z.land RuneError mask), 1%nat)
      else
        let sz := Z.to_nat (Z.land x 7) in
        let accept := acceptRanges (Z.shiftr x 4) in
        if (n <? sz)%nat then (RuneError, 1%nat)
        else
          let b1 := s !!! 1%nat in
          if (b1 <? lo accept) || (hi accept <? b1) then (RuneError, 1%nat)
          else if (sz <=? 2)%nat then
            (Z.lor (Z.shiftl (Z.land s0 mask2) 6) (Z.land b1 maskx), 2%nat)
          else
            let b2 := s !!! 2%nat in
            if (b2 <? locb) || (hicb <? b2) then (RuneError, 1%nat)
            else if (sz <=? 3)%nat then
              (Z.lor (Z.lor (Z.shiftl (Z.land s0 mask3) 12)
                            (Z.shiftl (Z.land b1 maskx) 6))
                     (Z.land b2 maskx), 3%nat)
            else
              let b3 := s !!! 3%nat in
              if (b3 <? locb) || (hicb <? b3) then (RuneError, 1%nat)
              else
                (Z.lor (Z.lor (Z.lor (Z.shiftl (Z.land s0 mask4) 18)
                                     (Z.shiftl (Z.land b1 maskx) 12))
                              (Z.shiftl (Z.land b2 maskx) 6))
                       (Z.land b3 maskx), 4%nat)
  end.

Definition appendRuneNonASCII (p : list Z) (r : Z) : list Z :=
  let i := uint32 r in
  let three (r : Z) :=
    p ++ [Z.lor t3 (byte (Z.shiftr r 12));
          Z.lor tx (Z.land (byte (Z.shiftr r 6)) maskx);
          Z.lor tx (Z.land (byte r) maskx)] in
  if i <=? rune2Max then
    p ++ [Z.lor t2 (byte (Z.shiftr r 6)); Z.lor tx (Z.land (byte r) maskx)]
  else if (MaxRune <? i) || ((surrogateMin <=? i) && (i <=? surrogateMax)) then
    three RuneError
  else if i <=? rune3Max then
    three r
  else
    p ++ [Z.lor t4 (byte (Z.shiftr r 18));
          Z.lor tx (Z.land (byte (Z.shiftr r 12)) maskx);
          Z.lor tx (Z.land (byte (Z.shiftr r 6)) maskx);
          Z.lor tx (Z.land (byte r) maskx)].

Definition AppendRune (p : list Z) (r : Z) : list Z :=
  if uint32 r <=? rune1Max then p ++ [byte r] else appendRuneNonASCII p r.

(** [ValidString]: the loop over the byte index [i], with the remaining
    suffix [s[i:]] as its state. *)
Fixpoint ValidString_loop (fuel : nat) (s : list Z) : bool :=
  match fuel, s with
  | _, [] => true
  | O, _ :: _ => false
  | S fuel', si :: tl =>
      if si <? RuneSelf then ValidString_loop fuel' tl
      else
        let x := first si in
        if x =? xx then false
        else
          let size := Z.to_nat (Z.land x 7) in
          if (length s <? size)%nat then false
          else
            let accept := acceptRanges (Z.shiftr x 4) in
            let c1 := s !!! 1%nat in
            if (c1 <? lo accept) || (hi accept <? c1) then false
            else if (size =? 2)%nat then ValidString_loop fuel' (drop size s)
            else
              let c2 := s !!! 2%nat in
              if (c2 <? locb) || (hicb <? c2) then false
              else if (size =? 3)%nat then ValidString_loop fuel' (drop size s)
              else
                let c3 := s !!! 3%nat in
                if (c3 <? locb) || (hicb <? c3) then false
                else ValidString_loop fuel' (drop size s)
  end.

Definition ValidString (s : list Z) : bool := ValidString_loop (length s) s.

End utf8.

(** ** strconv *)

Module strconv.

Definition lowerhex (i : Z) : Z :=
  nth (Z.to_nat i) (bytes_of_string "0123456789abcdef") 0.

(** [index(s, c)]: the position of the first [c] in [s], or [-1]. *)
Fixpoint index (s : list Z) (c : Z) : Z :=
  match s with
  | [] => -1
  | b :: s' =>
      if b =? c then 0
      else let i := index s' c in if i <? 0 then -1 else i + 1
  end.

Definition contains (s : list Z) (c : Z) : bool := negb (index s c =? -1).

Definition unhex (b : Z) : Z * bool :=
  let c := b in
  if (ord "0" <=? c) && (c <=? ord "9") then (c - ord "0", true)
  else if (ord "a" <=? c) && (c <=? ord "f") then (c - ord "a" + 10, true)
  else if (ord "A" <=? c) && (c <=? ord "F") then (c - ord "A" + 10, true)
  else (0, false).

Section Tables.

(** The result of the binary searches of [IsPrint] in the tables
    [isPrint16], [isNotPrint16], [isPrint32] and [isNotPrint32], which
    decide the runes above Latin-1.  The tables are data of the Unicode
    version Go is built with; the development holds for any content. *)
Variable isPrintWide : Z -> bool.

Definition IsPrint (r : Z) : bool :=
  if r <=? 0xFF then
    if (0x20 <=? r) && (r <=? 0x7E) then true
    else if (0xA1 <=? r) && (r <=? 0xFF) then negb (r =? 0xAD)
    else false
  else isPrintWide r.

(** [appendEscapedRune(buf, r, quote, ASCIIonly, graphicOnly)] with both
    flags [false], as [Quote] passes them. *)
Definition appendEscapedRune (buf : list Z) (r : Z) (quote : Z) : list Z :=
  if (r =? quote) || (r =? ord "\") then buf ++ [ord "\"; byte r]
  else if IsPrint r then utf8.AppendRune buf r
  else if r =? 7 then buf ++ [ord "\"; ord "a"]
  else if r =? 8 then buf ++ [ord "\"; ord "b"]
  else if r =? 12 then buf ++ [ord "\"; ord "f"]
  else if r =? 10 then buf ++ [ord "\"; ord "n"]
  else if r =? 13 then buf ++ [ord "\"; ord "r"]
  else if r =? 9 then buf ++ [ord "\"; ord "t"]
  else if r =? 11 then buf ++ [ord "\"; ord "v"]
  else
    let hex4 (r : Z) :=
      buf ++ [ord "\"; ord "u"]
          ++ map (fun s => lowerhex (Z.land (Z.shiftr r s) 0xF)) [12; 8; 4; 0] in
    if (r <? ord " ") || (r =? 0x7F) then
      buf ++ [ord "\"; ord "x";
              lowerhex (Z.shiftr (byte r) 4); lowerhex (Z.land (byte r) 0xF)]
    else if negb (utf8.ValidRune r) then hex4 0xFFFD
    else if r <? 0x10000 then hex4 r
    else
      buf ++ [ord "\"; ord "U"]
          ++ map (fun s => lowerhex (Z.land (Z.shiftr r s) 0xF))
                 [28; 24; 20; 16; 12; 8; 4; 0].

(** The loop of [appendQuotedWith]: [s] is the part of the string not yet
    consumed; every iteration consumes [width >= 1] bytes. *)
Fixpoint appendQuoted_loop (fuel : nat) (buf s : list Z) (quote : Z) : list Z :=
  match fuel, s with
  | S fuel', s0 :: _ =>
      let '(r, width) :=
        if utf8.RuneSelf <=? s0 then utf8.DecodeRuneInString s else (s0, 1%nat) in
      if (width =? 1)%nat && (r =? utf8.RuneError) then
        appendQuoted_loop fuel'
          (buf ++ [ord "\"; ord "x";
                   lowerhex (Z.shiftr s0 4); lowerhex (Z.land s0 0xF)])
          (drop width s) quote
      else
        appendQuoted_loop fuel' (appendEscapedRune buf r quote) (drop width s) quote
  | _, _ => buf
  end.

Definition appendQuotedWith (buf s : list Z) (quote : Z) : list Z :=
  appendQuoted_loop (length s) (buf ++ [quote]) s quote ++ [quote].

(** [Quote(s)] is [quoteWith] with the double quote as delimiter and both
    flags [false]. *)
Definition Quote (s : string) : string :=
  string_of_bytes (appendQuotedWith [] (bytes_of_string s) (ord "034")).

End Tables.

(** [UnquoteChar(s, quote)]: the value of the first character or escape
    sequence of [s], whether it needs a multi-byte encoding, and the rest of
    [s]; [None] stands for [ErrSyntax]. *)
Definition UnquoteChar (s : list Z) (quote : Z) : option (Z * bool * list Z) :=
  match s with
  | [] => None
  | c :: s1 =>
      if (c =? quote) && ((quote =? ord "'") || (quote =? ord "034")) then None
      else if utf8.RuneSelf <=? c then
        let '(r, size) := utf8.DecodeRuneInString s in Some (r, true, drop size s)
      else if negb (c =? ord "\") then Some (c, false, s1)
      else
        match s1 with
        | [] => None
        | c :: s =>
            if c =? ord "a" then Some (7, false, s)
            else if c =? ord "b" then Some (8, false, s)
            else if c =? ord "f" then Some (12, false, s)
            else if c =? ord "n" then Some (10, false, s)
            else if c =? ord "r" then Some (13, false, s)
            else if c =? ord "t" then Some (9, false, s)
            else if c =? ord "v" then Some (11, false, s)
            else if (c =? ord "x") || (c =? ord "u") || (c =? ord "U") then
              let n := if c =? ord "x" then 2%nat
                       else if c =? ord "u" then 4%nat else 8%nat in
              if (length s <? n)%nat then None
              else
                match
                  foldl (fun acc b =>
                           match acc with
                           | None => None
                           | Some v =>
                               let '(x, ok) := unhex b in
                               if ok then Some (int32 (Z.lor (Z.shiftl v 4) x)) else None
                           end) (Some 0) (take n s)
                with
                | None => None
                | Some v =>
                    let s := drop n s in
                    if c =? ord "x" then Some (v, false, s)
                    else if negb (utf8.ValidRune v) then None
                    else Some (v, true, s)
                end
            else if (ord "0" <=? c) && (c <=? ord "7") then
              let v := c - ord "0" in
              if (length s <? 2)%nat then None
              else
                match
                  foldl (fun acc b =>
                           match acc with
                           | None => None
                           | Some v =>
                               let x := b - ord "0" in
                               if (x <? 0) || (7 <? x) then None
                               else Some (Z.lor (Z.shiftl v 3) x)
                           end) (Some v) (take 2 s)
                with
                | None => None
                | Some v => if 255 <? v then None else Some (v, false, drop 2 s)
                end
            else if c =? ord "\" then Some (ord "\", false, s)
            else if (c =? ord "'") || (c =? ord "034") then
              if negb (c =? quote) then None else Some (c, false, s)
            else None
        end
  end.

(** The loop of [unquote] over a quoted string with escape sequences; it
    returns the bytes decoded so far and the input left at its exit. *)
Fixpoint unquote_loop (fuel : nat) (quote : Z) (buf in_ : list Z)
  : option (list Z * list Z) :=
  match fuel, in_ with
  | O, _ => None
  | S _, [] => Some (buf, in_)
  | S fuel', c :: _ =>
      if c =? quote then Some (buf, in_)
      else
        match UnquoteChar in_ quote with
        | None => None
        | Some (r, multibyte, rem) =>
            if c =? 10 then None
            else
              let buf :=
                if (r <? utf8.RuneSelf) || negb multibyte then buf ++ [byte r]
                else utf8.AppendRune buf r in
              if quote =? ord "'" then Some (buf, rem)
              else unquote_loop fuel' quote buf rem
        end
  end.

(** [unquote(in, true)]: the unquoted prefix and the remainder of [in];
    [None] stands for [ErrSyntax]. *)
Definition unquote (in_ : list Z) : option (list Z * list Z) :=
  if (length in_ <? 2)%nat then None
  else
    let quote := in_ !!! 0%nat in
    let end_ := index (drop 1 in_) quote in
    if end_ <? 0 then None
    else
      let end_ := Z.to_nat (end_ + 2) in
      if quote =? ord "`" then
        Some (filter (fun b => b ≠ 13) (take (end_ - 2) (drop 1 in_)), drop end_ in_)
      else if (quote =? ord "034") || (quote =? ord "'") then
        let fast :=
          if negb (contains (take end_ in_) (ord "\"))
             && negb (contains (take end_ in_) 10) then
            let body := take (end_ - 2) (drop 1 in_) in
            if quote =? ord "034" then utf8.ValidString body
            else
              let '(r, n) := utf8.DecodeRuneInString body in
              (1 + n + 1 =? end_)%nat
              && (negb (r =? utf8.RuneError) || negb (n =? 1)%nat)
          else false in
        if fast then Some (take (end_ - 2) (drop 1 in_), drop end_ in_)
        else
          match unquote_loop (length in_) quote [] (drop 1 in_) with
          | None => None
          | Some (buf, rest) =>
              match rest with
              | c :: rest' => if c =? quote then Some (buf, rest') else None
              | [] => None
              end
          end
      else None.

(** [Unquote(s)]: the string that the quoted literal [s] denotes. *)
Definition Unquote (s : string) : option string :=
  match unquote (bytes_of_string s) with
  | Some (out, []) => Some (string_of_bytes out)
  | _ => None
  end.

(** [Itoa(i) = FormatInt(int64(i), 10)]: the decimal digits of [i], with a
    minus sign when it is negative. *)
Definition Itoa (i : Z) : string := NilZero.string_of_int (Z.to_int i).

End strconv.

(** ** sort *)

Module sort.

(** [sort.Strings]: the slice in increasing order, strings compared byte by
    byte.  The order is total and antisymmetric, so the result is the same
    for every sorting algorithm. *)
Definition Strings (l : list string) : list string := merge_sort String.le l.

End sort.

(** ** terraform-plugin-sdk diag *)

Module diag.

Inductive SeverityLevel := Error | Warning.

(** A diagnostic; the provider fills in the severity and the summary only. *)
Record Diagnostic := { Severity : SeverityLevel; Summary : string }.

Definition Diagnostics := list Diagnostic.

End diag.

(** ** Go runtime: results and panics, and the effects of a call *)

Inductive Outcome (A : Type) :=
| Returned (a : A)
| Panicked (msg : string).
Arguments Returned {A} a.
Arguments Panicked {A} msg.

(** ** strings *)

Module strings.


(** [strings.HasPrefix(s, prefix)]: [s] is at least as long as [prefix] and
    its first bytes are those of [prefix]. *)
Definition HasPrefix (s prefix : string) : bool :=
  (String.length prefix <=? String.length s)%nat
  && bool_decide (String.substring 0 (String.length prefix) s = prefix).

(** [strings.Join(elems, sep)]: nothing for no element, the element for
    one; else the first element, then the separator and the element for
    each further one. *)
Definition Join (elems : list string) (sep : string) : string :=
  match elems with
  | [] => EmptyString
  | [e] => e
  | e :: rest => foldl (fun b s => (b +:+ sep) +:+ s) e rest
  end.

End strings.

(** ** os *)

Module os.

(** An open file.  A pointer to [os.File] is [option File]: the nil pointer is [None]. *)
Record File := { fname : string }.

(** What a call did to the world outside, in order. *)
Inductive Event :=
| Created (f : File)
| Logged (line : string)
| Wrote (f : File) (text : string)
| Closed (f : File).

(** The file system as the provider meets it: whether a temporary file can
    be created for a directory and a pattern without separator, and whether
    a text can be written to a file; errors are their messages. *)
Record FileSystem := {
  createTemp : string -> string -> File + string;
  writeString : File -> string -> option string
}.

Definition IsPathSeparator (c : ascii) : bool := bool_decide (c = "/"%char).

Fixpoint hasSeparator (pattern : string) : bool :=
  match pattern with
  | EmptyString => false
  | String c rest => IsPathSeparator c || hasSeparator rest
  end.

(** [os.CreateTemp(dir, pattern)]: the file and a nil error, or a nil file
    and the error, and what happened outside.  A pattern with a path
    separator is refused before the file system is asked. *)
Definition CreateTemp (fs : FileSystem) (dir pattern : string)
  : (option File * option string) * list Event :=
  if hasSeparator pattern then
    ((None, Some ("createtemp " +:+ pattern +:+ ": pattern contains path separator")), [])
  else
    match createTemp fs dir pattern with
    | inl f => ((Some f, None), [Created f])
    | inr e => ((None, Some e), [])
    end.

(** [File.Name] has a pointer receiver and reads a field of it, so a nil
    receiver is a nil pointer dereference at run time. *)
Definition Name (f : option File) : Outcome string :=
  match f with
  | Some f => Returned (fname f)
  | None => Panicked "runtime error: invalid memory address or nil pointer dereference"
  end.

(** [File.WriteString]: a nil receiver is reported as [ErrInvalid]; the text
    is in the file when the file system reports no error. *)
Definition WriteString (fs : FileSystem) (f : option File) (text : string)
  : option string * list Event :=
  match f with
  | Some f =>
      match writeString fs f text with
      | None => (None, [Wrote f text])
      | Some e => (Some e, [])
      end
  | None => (Some "invalid argument", [])
  end.

(** [File.Close], whose result the provider drops. *)
Definition Close (f : option File) : list Event :=
  match f with
  | Some f => [Closed f]
  | None => []
  end.

(** An error number of a system call, and the one for a path that is not a
    directory. *)
Definition Errno : Type := Z.

Definition ENOTDIR : Errno := 0x14.

(** What the system answers to the calls that list and remove: the
    environment (the empty string for a variable that is not set); for a
    directory the error of opening it, or the names of its entries in the
    order the system gives them with the error that ended the reading, if
    any; the error numbers of the two removing calls, and their texts. *)
Record System := {
  environ : string -> string;
  readdir : string -> (list string * option string) + string;
  unlink : string -> option Errno;
  rmdir : string -> option Errno;
  strerror : Errno -> string
}.

(** [os.TempDir] on Unix: [$TMPDIR], or [/tmp] when that is empty. *)
Definition TempDir (sys : System) : string :=
  let dir := environ sys "TMPDIR" in
  if bool_decide (dir = EmptyString) then "/tmp" else dir.

(** [os.ReadDir(name)]: the entries of the directory sorted by name, next
    to the error of the reading; no entry and the error when the directory
    cannot be opened.  Of an entry the provider reads the name only, so an
    entry is its name here. *)
Definition ReadDir (sys : System) (name : string) : list string * option string :=
  match readdir sys name with
  | inr err => ([], Some err)
  | inl (dirs, err) => (sort.Strings dirs, err)
  end.

Record PathError := { Op : string; Path : string; Err : Errno }.

(** [PathError.Error]. *)
Definition Error (sys : System) (e : PathError) : string :=
  Op e +:+ " " +:+ Path e +:+ ": " +:+ strerror sys (Err e).

(** What a removing call took away. *)
Inductive Removal :=
| Unlinked (name : string)
| RemovedDir (name : string).

(** [os.Remove(name)]: [unlink], and [rmdir] when that fails.  When both
    fail the error of [rmdir] is reported, unless it only says that the
    name is no directory: then the error of [unlink] is. *)
Definition Remove (sys : System) (name : string) : option PathError * list Removal :=
  match unlink sys name with
  | None => (None, [Unlinked name])
  | Some e =>
      match rmdir sys name with
      | None => (None, [RemovedDir name])
      | Some e1 =>
          let e := if negb (e1 =? ENOTDIR) then e1 else e in
          (Some {| Op := "remove"; Path := name; Err := e |}, [])
      end
  end.

End os.

(** ** path/filepath, on Unix *)

Module filepath.

Definition Separator : ascii := "/"%char.

(** Whether a path element ends here: at the end of the path or before a
    separator. *)
Definition ends (rest : list ascii) : bool :=
  match rest with
  | [] => true
  | c :: _ => os.IsPathSeparator c
  end.

(** The loop of [Clean] that steps back over the last element written:
    [w] goes down while it is above [dotdot] and the byte at [w] is no
    separator. *)
Fixpoint backtrack (out : list ascii) (dotdot w : nat) : nat :=
  match w with
  | O => O
  | S w' =>
      if (dotdot <? w)%nat && negb (os.IsPathSeparator (default Separator (out !! w)))
      then backtrack out dotdot w'
      else w
  end.

(** The loop of [Clean] that copies an element: the bytes up to the next
    separator, and the rest of the path. *)
Fixpoint element (rest : list ascii) : list ascii * list ascii :=
  match rest with
  | [] => ([], [])
  | c :: rest' =>
      if negb (os.IsPathSeparator c) then
        let '(elem, rest'') := element rest' in (c :: elem, rest'')
      else ([], rest)
  end.

(** The main loop of [Clean]: [rest] is the path from the reading index on,
    [out] the bytes written so far (the buffer up to its writing index),
    [dotdot] the index at which backtracking stops.  Every iteration reads
    at least one byte, so the length of the path is fuel enough. *)
Fixpoint cleanLoop (fuel : nat) (rooted : bool) (rest out : list ascii) (dotdot : nat)
  : list ascii :=
  match fuel with
  | O => out
  | S fuel =>
      match rest with
      | [] => out
      | c :: rest1 =>
          if os.IsPathSeparator c then cleanLoop fuel rooted rest1 out dotdot
          else if bool_decide (c = "."%char) && ends rest1 then
            cleanLoop fuel rooted rest1 out dotdot
          else if bool_decide (c = "."%char)
                  && bool_decide (head rest1 = Some "."%char) && ends (tail rest1) then
            let rest2 := tail rest1 in
            if (dotdot <? length out)%nat then
              let w := (length out - 1)%nat in
              let w := backtrack out dotdot w in
              cleanLoop fuel rooted rest2 (take w out) dotdot
            else if negb rooted then
              let out := if (0 <? length out)%nat then out ++ [Separator] else out in
              let out := out ++ ["."%char; "."%char] in
              cleanLoop fuel rooted rest2 out (length out)
            else cleanLoop fuel rooted rest2 out dotdot
          else
            let out :=
              if rooted && negb (length out =? 1)%nat || negb rooted && negb (length out =? 0)%nat
              then out ++ [Separator] else out in
            let '(elem, rest') := element rest in
            cleanLoop fuel rooted rest' (out ++ elem) dotdot
      end
  end.

(** [filepath.Clean(path)].  There are no volume names on Unix, and
    [FromSlash] changes nothing there. *)
Definition Clean (path : string) : string :=
  let originalPath := path in
  if bool_decide (path = EmptyString) then originalPath +:+ "."
  else
    let p := String.list_ascii_of_string path in
    let rooted := os.IsPathSeparator (default Separator (head p)) in
    let n := length p in
    let out := if rooted then [Separator] else [] in
    let r := if rooted then 1%nat else 0%nat in
    let dotdot := r in
    let out := cleanLoop n rooted (drop r p) out dotdot in
    let out := if (length out =? 0)%nat then out ++ ["."%char] else out in
    String.string_of_list_ascii out.

(** [filepath.Join(elem...)]: the elements from the first that is not empty
    on, joined by separators and cleaned. *)
Fixpoint Join (elem : list string) : string :=
  match elem with
  | [] => EmptyString
  | e :: rest =>
      if bool_decide (e ≠ EmptyString)
      then Clean (strings.Join elem (String Separator EmptyString))
      else Join rest
  end.

End filepath.

(** ** providerutils *)

Module providerutils.

Import diag.

(** A value of type [interface{}] as Terraform hands it over. *)
Inductive Value :=
| VNil
| VBool (b : bool)
| VInt (i : Z)
| VString (s : string)
| VList (l : list Value)
| VMap (m : gmap string Value).

(** Type assertions in their two-result form: the zero value and [false]
    when the dynamic type differs.  Indexing a map with a missing key gives
    the nil interface, on which every assertion fails. *)
Definition assertString (v : option Value) : string * bool :=
  match v with Some (VString s) => (s, true) | _ => (EmptyString, false) end.

Definition assertSlice (v : option Value) : list Value * bool :=
  match v with Some (VList l) => (l, true) | _ => ([], false) end.

Definition assertMap (v : option Value) : gmap string Value * bool :=
  match v with Some (VMap m) => (m, true) | _ => (∅, false) end.

Definition DefaultHostGroup : string := "default".

Record InventoryHost := {
  Name : string;
  Groups : list string;
  Variables : gmap string string
}.

(** The fields of all records of a module share one name space: [Name]
    and [Variables] of [InventoryGroup] are [GroupName] and
    [GroupVariables] here. *)
Record InventoryGroup := {
  GroupName : string;
  Children : list string;
  GroupVariables : gmap string string
}.

Definition errorDiag (summary : string) : Diagnostic :=
  {| Severity := Error; Summary := summary |}.

(** The body of the loop of [InterfaceToString]. *)
Definition convertValue (acc : list string * Diagnostics) (val : Value)
  : list string * Diagnostics :=
  let '(result, diags) := acc in
  let '(tmpVal, ok) := assertString (Some val) in
  let diags :=
    if negb ok then diags ++ [errorDiag "Error: couldn't parse value to string!"]
    else diags in
  (result ++ [tmpVal], diags).

Definition InterfaceToString (arr : list Value) : list string * Diagnostics :=
  foldl convertValue ([], []) arr.

(** The body of the loop of [mapInterfaceToStringMap]. *)
Definition convertVariable (acc : gmap string string * Diagnostics) (entry : string * Value)
  : gmap string string * Diagnostics :=
  let '(target, diags) := acc in
  let '(key, value) := entry in
  let '(valueStr, ok) := assertString (Some value) in
  if negb ok then
    (target, diags ++ [errorDiag ("Couldn't parse variable " +:+ key +:+ " to string")])
  else (<[key := valueStr]> target, diags).

(** [mapInterfaceToStringMap(input, target)] updates [target] in place; the
    updated map is returned next to the diagnostics.  Go visits the entries
    in an order it does not specify; here it is the order of [map_to_list],
    which matters for the order of the diagnostics only. *)
Definition mapInterfaceToStringMap (input : gmap string Value) (target : gmap string string)
  : gmap string string * Diagnostics :=
  foldl convertVariable (target, []) (map_to_list input).


(** The body of the loop of [ExpandInventoryHosts]. *)
Definition expandHost (acc : list InventoryHost * Diagnostics) (entry : Value)
  : list InventoryHost * Diagnostics :=
  let '(hosts, diags) := acc in
  let '(entryMap, ok) := assertMap (Some entry) in
  if negb ok then
    (hosts, diags ++ [errorDiag "Invalid host definition: expected map input"])
  else
    let '(name, nameOK) := assertString (entryMap !! "name") in
    if negb nameOK || bool_decide (name = EmptyString) then
      (hosts, diags ++ [errorDiag "Invalid host definition: missing 'name'"])
    else
      let '(groupsRaw, groupsSet) := assertSlice (entryMap !! "groups") in
      let groupsRaw := if negb groupsSet then [] else groupsRaw in
      let '(groups, groupDiags) := InterfaceToString groupsRaw in
      let diags := diags ++ groupDiags in
      let variables : gmap string string := ∅ in
      let '(variables, diags) :=
        let '(varsRaw, ok) := assertMap (entryMap !! "variables") in
        if ok then
          let '(variables, varDiags) := mapInterfaceToStringMap varsRaw variables in
          (variables, diags ++ varDiags)
        else (variables, diags) in
      (hosts ++ [{| Name := name; Groups := groups; Variables := variables |}], diags).

Definition ExpandInventoryHosts (raw : list Value) : list InventoryHost * Diagnostics :=
  foldl expandHost ([], []) raw.

(** The body of the loop of [ExpandInventoryGroups]. *)
Definition expandGroup (acc : list InventoryGroup * Diagnostics) (entry : Value)
  : list InventoryGroup * Diagnostics :=
  let '(groups, diags) := acc in
  let '(entryMap, ok) := assertMap (Some entry) in
  if negb ok then
    (groups, diags ++ [errorDiag "Invalid group definition: expected map input"])
  else
    let '(name, nameOK) := assertString (entryMap !! "name") in
    if negb nameOK || bool_decide (name = EmptyString) then
      (groups, diags ++ [errorDiag "Invalid group definition: missing 'name'"])
    else
      let '(childrenRaw, childrenSet) := assertSlice (entryMap !! "children") in
      let childrenRaw := if negb childrenSet then [] else childrenRaw in
      let '(children, childrenDiags) := InterfaceToString childrenRaw in
      let diags := diags ++ childrenDiags in
      let variables : gmap string string := ∅ in
      let '(variables, diags) :=
        let '(varsRaw, ok) := assertMap (entryMap !! "variables") in
        if ok then
          let '(variables, varDiags) := mapInterfaceToStringMap varsRaw variables in
          (variables, diags ++ varDiags)
        else (variables, diags) in
      (groups ++ [{| GroupName := name; Children := children;
                     GroupVariables := variables |}], diags).

Definition ExpandInventoryGroups (raw : list Value) : list InventoryGroup * Diagnostics :=
  foldl expandGroup ([], []) raw.

(** The keys of a map, as a [for key := range m] loop collects them. *)
Definition mapKeys {V} (m : gmap string V) : list string := (map_to_list m).*1.

(** [m[key]] for a map of strings: the empty string when the key is absent. *)
Definition at_ (m : gmap string string) (key : string) : string :=
  default EmptyString (m !! key).

Section Rendering.

(** The Unicode tables of [strconv.IsPrint]. *)
Variable isPrintWide : Z -> bool.

Definition formatInventoryHostLine (hostname : string) (variables : gmap string string)
  : string :=
  let line := hostname in
  if (size variables =? 0)%nat then line
  else
    let keys := sort.Strings (mapKeys variables) in
    foldl (fun line key =>
             line +:+ (" " +:+ key +:+ "=" +:+ strconv.Quote isPrintWide (at_ variables key)))
          line keys.

Definition formatInventoryVariables (vars : gmap string string) : string :=
  let keys := sort.Strings (mapKeys vars) in
  foldl (fun builder key =>
           builder +:+ (key +:+ "=" +:+ strconv.Quote isPrintWide (at_ vars key) +:+ LF))
        EmptyString keys.

(** The local variables of [buildInventoryFileContent]. *)
Record locals := {
  diags : Diagnostics;
  groupHosts : gmap string (list string);
  groupVars : gmap string (gmap string string);
  groupChildren : gmap string (list string);
  groupNames : gset string
}.

(** The body of the loop over the group records. *)
Definition groupPass (st : locals) (group : InventoryGroup) : locals :=
  if bool_decide (GroupName group = EmptyString) then
    {| diags := diags st ++ [errorDiag "Inventory group is missing a name"];
       groupHosts := groupHosts st; groupVars := groupVars st;
       groupChildren := groupChildren st; groupNames := groupNames st |}
  else
    {| diags := diags st;
       groupHosts := groupHosts st;
       groupVars :=
         if (0 <? size (GroupVariables group))%nat
         then <[GroupName group := GroupVariables group]> (groupVars st)
         else groupVars st;
       groupChildren :=
         if (0 <? length (Children group))%nat
         then <[GroupName group := [] ++ Children group]> (groupChildren st)
         else groupChildren st;
       groupNames := {[GroupName group]} ∪ groupNames st |}.

(** The body of the loop over the host records. *)
Definition hostPass (st : locals) (host : InventoryHost) : locals :=
  if bool_decide (Name host = EmptyString) then
    {| diags := diags st ++ [errorDiag "Inventory host is missing a name"];
       groupHosts := groupHosts st; groupVars := groupVars st;
       groupChildren := groupChildren st; groupNames := groupNames st |}
  else
    let hostGroups := Groups host in
    let hostGroups :=
      if (length hostGroups =? 0)%nat then [DefaultHostGroup] else hostGroups in
    let line := formatInventoryHostLine (Name host) (Variables host) in
    foldl (fun st groupName =>
             if bool_decide (groupName = EmptyString) then st
             else
               {| diags := diags st;
                  groupHosts :=
                    <[groupName := default [] (groupHosts st !! groupName) ++ [line]]>
                      (groupHosts st);
                  groupVars := groupVars st;
                  groupChildren := groupChildren st;
                  groupNames := {[groupName]} ∪ groupNames st |})
          st hostGroups.

(** The body of the rendering loop: what is written to the builder for one
    group name. *)
Definition renderGroup (st : locals) (builder : string) (groupName : string) : string :=
  let builder := builder +:+ ("[" +:+ groupName +:+ "]" +:+ LF) in
  let hostLines := default [] (groupHosts st !! groupName) in
  let hostLines := sort.Strings hostLines in
  let builder := foldl (fun builder line => (builder +:+ line) +:+ LF) builder hostLines in
  let builder := builder +:+ LF in
  let builder :=
    match groupVars st !! groupName with
    | Some vars =>
        if (0 <? size vars)%nat then
          ((builder +:+ ("[" +:+ groupName +:+ ":vars]" +:+ LF))
             +:+ formatInventoryVariables vars) +:+ LF
        else builder
    | None => builder
    end in
  match groupChildren st !! groupName with
  | Some children =>
      if (0 <? length children)%nat then
        let builder := builder +:+ ("[" +:+ groupName +:+ ":children]" +:+ LF) in
        let sortedChildren := sort.Strings ([] ++ children) in
        let builder :=
          foldl (fun builder child => (builder +:+ child) +:+ LF) builder sortedChildren in
        builder +:+ LF
      else builder
  | None => builder
  end.

Definition buildInventoryFileContent
  (hosts : list InventoryHost) (groups : list InventoryGroup) : string * Diagnostics :=
  let st := {| diags := []; groupHosts := ∅; groupVars := ∅;
               groupChildren := ∅; groupNames := ∅ |} in
  let st := foldl groupPass st groups in
  let st := foldl hostPass st hosts in
  let sortedGroupNames := sort.Strings (elements (groupNames st)) in
  let builder := foldl (renderGroup st) EmptyString sortedGroupNames in
  (builder, diags st).

(** [BuildPlaybookInventory]: the returned path and diagnostics, or a
    panic, and what the call did to the world outside.  [port] is an [int],
    whose unset value is [-1]. *)
Definition BuildPlaybookInventory (fs : os.FileSystem)
  (inventoryDest hostname : string) (port : Z) (hostgroups : list Value)
  (inventoryHosts : list InventoryHost) (inventoryGroups : list InventoryGroup)
  : Outcome (string * Diagnostics) * list os.Event :=
  let diags : Diagnostics := [] in
  let '((fileInfo, err), created) := os.CreateTemp fs EmptyString inventoryDest in
  let diags :=
    match err with
    | Some e => diags ++ [errorDiag ("Fail to create inventory file: " +:+ e)]
    | None => diags
    end in
  match os.Name fileInfo with
  | Panicked msg => (Panicked msg, created)
  | Returned tempFileName =>
      match os.Name fileInfo with
      | Panicked msg => (Panicked msg, created)
      | Returned n =>
          let events := created ++ [os.Logged ("Inventory " +:+ n +:+ " was created")] in
          let hosts := inventoryHosts in
          let '(hosts, diags) :=
            if (length hosts =? 0)%nat then
              let '(hostGroups, hostGroupDiags) := InterfaceToString hostgroups in
              let diags := diags ++ hostGroupDiags in
              let hostGroups :=
                if (length hostGroups =? 0)%nat then hostGroups ++ [DefaultHostGroup]
                else hostGroups in
              let hostVars : gmap string string := ∅ in
              let hostVars :=
                if negb (port =? -1) then <["ansible_port" := strconv.Itoa port]> hostVars
                else hostVars in
              (hosts ++ [{| Name := hostname; Groups := hostGroups;
                            Variables := hostVars |}], diags)
            else (hosts, diags) in
          let '(content, buildDiags) := buildInventoryFileContent hosts inventoryGroups in
          let diags := diags ++ buildDiags in
          let '(werr, wrote) := os.WriteString fs fileInfo content in
          let diags :=
            match werr with
            | Some e => diags ++ [errorDiag ("Fail to write inventory: " +:+ e)]
            | None => diags
            end in
          (Returned (tempFileName, diags), events ++ wrote ++ os.Close fileInfo)
      end
  end.

End Rendering.

(** [RemoveFile]: the diagnostics, and what was removed. *)
Definition RemoveFile (sys : os.System) (filename : string)
  : Diagnostics * list os.Removal :=
  let diags : Diagnostics := [] in
  let '(err, removed) := os.Remove sys filename in
  let diags :=
    match err with
    | Some e =>
        diags ++ [errorDiag ("Fail to remove file " +:+ filename +:+ ": "
                             +:+ os.Error sys e)]
    | None => diags
    end in
  (diags, removed).

(** [GetAllInventories]: the paths and the diagnostics, and what the call
    logged. *)
Definition GetAllInventories (sys : os.System) (inventoryPrefix : string)
  : (list string * Diagnostics) * list os.Event :=
  let diags : Diagnostics := [] in
  let tempDir := os.TempDir sys in
  let events := [os.Logged ("[TEMP DIR]: " +:+ tempDir)] in
  let '(files, err) := os.ReadDir sys tempDir in
  let diags :=
    match err with
    | Some e => diags ++ [errorDiag ("Fail to read dir " +:+ tempDir +:+ ": " +:+ e)]
    | None => diags
    end in
  let inventories :=
    foldl (fun inventories file =>
             if strings.HasPrefix file inventoryPrefix then
               let inventoryAbsPath := filepath.Join [tempDir; file] in
               inventories ++ [inventoryAbsPath]
             else inventories)
          [] files in
  ((inventories, diags), events).

End providerutils.

(** * Properties *)

Import utf8 strconv diag providerutils.

(** ** Inputs on which the model is run *)

(** A table under which no rune above Latin-1 is printable: every such rune
    is written as an escape sequence.  The inputs below are ASCII, for which
    the tables are never consulted. *)
Definition latin1Table : Z -> bool := fun _ => false.

(** A file system on which every temporary file can be created and
    written. *)
Definition sampleFS : os.FileSystem :=
  {| os.createTemp := fun _ pattern => inl {| os.fname := "/tmp/" +:+ pattern +:+ "0001" |};
     os.writeString := fun _ _ => None |}.

Definition node1 : InventoryHost :=
  {| Name := "node1"; Groups := []; Variables := ∅ |}.

Definition node2 : InventoryHost :=
  {| Name := "node2"; Groups := ["web"]; Variables := ∅ |}.

Definition ghost : InventoryHost :=
  {| Name := "ghost"; Groups := [EmptyString]; Variables := ∅ |}.

Definition nameless : InventoryHost :=
  {| Name := EmptyString; Groups := ["web"]; Variables := ∅ |}.

Definition web : InventoryGroup :=
  {| GroupName := "web"; Children := ["frontend"];
     GroupVariables := {["ansible_user" := "deploy"]} |}.

Definition db : InventoryGroup :=
  {| GroupName := "db"; Children := []; GroupVariables := ∅ |}.

(** A system without [$TMPDIR] whose temporary directory holds two
    inventories and another file, and on which the first inventory is the
    only name that can be removed: the others do not exist (error 2), and no
    name is a directory. *)
Definition sampleSystem : os.System :=
  {| os.environ := fun _ => EmptyString;
     os.readdir := fun _ => inl ([".inventory-2"; "notes"; ".inventory-1"], None);
     os.unlink := fun name => if bool_decide (name = "/tmp/.inventory-1") then None else Some 2;
     os.rmdir := fun _ => Some os.ENOTDIR;
     os.strerror := fun e => if e =? 2 then "no such file or directory"
                             else "not a directory" |}.

#[local] Set Warnings "-clear-no-such-hyp".

Section Properties.

(** The Unicode tables of [strconv.IsPrint]; every statement below holds
    whatever they contain. *)
Variable isPrintWide : Z -> bool.

(** The double quote, the delimiter that [Quote] passes to the quoting loop. *)
Local Abbreviation DQc := 34.

(** ** Definitions used in the statements and proofs *)

(** What [DecodeRuneInString] returns on a string that starts with a byte
    outside ASCII. *)
Definition decoded (s : list Z) (r : Z) (w : nat) : Prop :=
  (r = RuneError /\ w = 1%nat) \/
  exists chunk rest,
    s = chunk ++ rest /\ length chunk = w /\ (2 <= w)%nat /\
    Forall (fun b => 0x80 <= b < 256) chunk /\
    0x80 <= r <= MaxRune /\ ValidRune r = true /\
    AppendRune [] r = chunk /\
    forall t, DecodeRuneInString (chunk ++ t) = (r, w).

(** The body of the loop of [UnquoteChar] over the hexadecimal digits. *)
Definition hexfold (acc : option Z) (b : Z) : option Z :=
  match acc with
  | None => None
  | Some v =>
      let '(x, ok) := unhex b in
      if ok then Some (int32 (Z.lor (Z.shiftl v 4) x)) else None
  end.

(** The digits that [appendEscapedRune] writes for the nibbles of [r] at the
    given shifts. *)
Definition hexdigits (r : Z) (shifts : list Z) : list Z :=
  map (fun s => lowerhex (Z.land (Z.shiftr r s) 0xF)) shifts.

(** One iteration of the loop of [appendQuotedWith]: the bytes appended and
    the number of bytes of the string consumed. *)
Definition quoteStep (s : list Z) : list Z * nat :=
  match s with
  | [] => ([], 0%nat)
  | s0 :: _ =>
      let '(r, width) :=
        if RuneSelf <=? s0 then DecodeRuneInString s else (s0, 1%nat) in
      if (width =? 1)%nat && (r =? RuneError) then
        ([92; 120; lowerhex (Z.shiftr s0 4); lowerhex (Z.land s0 0xF)], width)
      else (appendEscapedRune isPrintWide [] r DQc, width)
  end.

(** [e] is what the quoting loop writes for the bytes [chunk]: unquoting one
    character of it gives [chunk] back. *)
Definition escapes (e chunk : list Z) : Prop :=
  Forall isByte e /\
  (exists c e', e = c :: e' /\ c <> 34 /\ c <> 10) /\
  (forall t, exists r mb,
      UnquoteChar (e ++ t) DQc = Some (r, mb, t) /\
      (if (r <? RuneSelf) || negb mb then [byte r] else AppendRune [] r) = chunk) /\
  ((exists e', e = 92 :: e') \/
   (e = chunk /\ (92 ∉ e) /\ (34 ∉ e) /\ (10 ∉ e))).

(** What the quoting loop writes between the two delimiters. *)
Definition quoteBody (n : nat) (s : list Z) : list Z :=
  appendQuoted_loop isPrintWide n [] s DQc.

(** The lines [ls], each ended by a line feed. *)
Fixpoint unlines (ls : list string) : string :=
  match ls with
  | [] => EmptyString
  | l :: ls => l +:+ LF +:+ unlines ls
  end.

(** The part of the inventory under one group heading. *)
Record groupSection := {
  heading : string;
  hostLines : list string;
  vars : list (string * string);
  children : list string
}.

(** The text of a section: the heading, the host lines and a blank line;
    then, when there are variables, the [:vars] heading, one line
    [key=quoted value] each and a blank line; then, when there are
    children, the [:children] heading, one line each and a blank line. *)
Definition renderSection (s : groupSection) : string :=
  ("[" +:+ heading s +:+ "]" +:+ LF) +:+ unlines (hostLines s) +:+ LF
  +:+ (match vars s with
       | [] => EmptyString
       | _ :: _ =>
           ("[" +:+ heading s +:+ ":vars]" +:+ LF)
           +:+ unlines ((fun kv => kv.1 +:+ "=" +:+ strconv.Quote isPrintWide kv.2) <$> vars s)
           +:+ LF
       end)
  +:+ (match children s with
       | [] => EmptyString
       | _ :: _ => ("[" +:+ heading s +:+ ":children]" +:+ LF) +:+ unlines (children s) +:+ LF
       end).

(** The text of a document: its sections one after the other. *)
Fixpoint renderDocument (doc : list groupSection) : string :=
  match doc with
  | [] => EmptyString
  | s :: doc => renderSection s +:+ renderDocument doc
  end.

(** The local variables of [buildInventoryFileContent] at its start. *)
Definition initial : locals :=
  {| diags := []; groupHosts := ∅; groupVars := ∅; groupChildren := ∅; groupNames := ∅ |}.

(** The local variables of [buildInventoryFileContent] after its two passes. *)
Definition collect (hosts : list InventoryHost) (groups : list InventoryGroup) : locals :=
  foldl (hostPass isPrintWide) (foldl groupPass initial groups) hosts.

(** The entries of a map of variables in the order of their keys. *)
Definition sortedEntries (m : gmap string string) : list (string * string) :=
  (fun k => (k, at_ m k)) <$> sort.Strings (mapKeys m).

(** The section that the rendering loop prints for the group name [g]. *)
Definition sectionOf (st : locals) (g : string) : groupSection :=
  {| heading := g;
     hostLines := sort.Strings (default [] (groupHosts st !! g));
     vars := from_option sortedEntries [] (groupVars st !! g);
     children := sort.Strings (default [] (groupChildren st !! g)) |}.

(** The document that [buildInventoryFileContent] prints: the sections of
    the collected group names, in the order of the names. *)
Definition document (hosts : list InventoryHost) (groups : list InventoryGroup)
  : list groupSection :=
  let st := collect hosts groups in
  sectionOf st <$> sort.Strings (elements (groupNames st)).

(** The rendered host line: the name, then a blank and [key="value"] for
    every variable, in the order of the keys. *)
Fixpoint hostLine (name : string) (kvs : list (string * string)) : string :=
  match kvs with
  | [] => name
  | kv :: kvs => hostLine (name +:+ " " +:+ kv.1 +:+ "=" +:+ strconv.Quote isPrintWide kv.2) kvs
  end.

(** The groups a host is attributed to: its own, or the default group. *)
Definition effectiveGroups (h : InventoryHost) : list string :=
  match Groups h with
  | [] => [DefaultHostGroup]
  | gs => gs
  end.

(** The group names under which a host record is listed: none for a host
    without name, and empty group names are passed over. *)
Definition memberships (h : InventoryHost) : list string :=
  if decide (Name h = EmptyString) then []
  else filter (fun g => g ≠ EmptyString) (effectiveGroups h).

(** The line of a host record. *)
Definition hostLineOf (h : InventoryHost) : string :=
  formatInventoryHostLine isPrintWide (Name h) (Variables h).

(** The lines that the hosts contribute to the group [g], in input order. *)
Definition contributions (g : string) (hosts : list InventoryHost) : list string :=
  hosts ≫= fun h => (fun _ => hostLineOf h) <$> filter (fun x => x = g) (memberships h).

(** The group names that the group records declare. *)
Definition declared (groups : list InventoryGroup) : list string :=
  filter (fun g => g ≠ EmptyString) (GroupName <$> groups).

(** The body of the loop of the host pass over the groups of a host. *)
Definition attach (line : string) (st : locals) (groupName : string) : locals :=
  if bool_decide (groupName = EmptyString) then st
  else
    {| diags := diags st;
       groupHosts :=
         <[groupName := default [] (groupHosts st !! groupName) ++ [line]]> (groupHosts st);
       groupVars := groupVars st;
       groupChildren := groupChildren st;
       groupNames := {[groupName]} ∪ groupNames st |}.

(** The state after the pass over the group records. *)
Definition declare (groups : list InventoryGroup) : locals := foldl groupPass initial groups.

(** A host without variables. *)
Definition namedHost (name : string) (groups : list string) : InventoryHost :=
  {| Name := name; Groups := groups; Variables := ∅ |}.

(** The host that [BuildPlaybookInventory] builds when it is given no host. *)
Definition syntheticHost (hostname : string) (port : Z) (hostgroups : list Value)
  : InventoryHost :=
  {| Name := hostname;
     Groups := match (InterfaceToString hostgroups).1 with
               | [] => [DefaultHostGroup]
               | names => names
               end;
     Variables := if decide (port = -1) then ∅
                  else {["ansible_port" := strconv.Itoa port]} |}.

(** The string that a value holds, if it holds one. *)
Definition stringOf (v : Value) : option string :=
  match v with
  | VString s => Some s
  | _ => None
  end.

(** The diagnostic of [mapInterfaceToStringMap] for the variable [key]. *)
Definition variableDiag (key : string) : Diagnostic :=
  errorDiag ("Couldn't parse variable " +:+ key +:+ " to string").

(** The entry that holds the fields of a host record, each with the type the
    expander looks for. *)
Definition hostEntry (h : InventoryHost) : Value :=
  VMap (<["name" := VString (Name h)]>
          (<["groups" := VList (VString <$> Groups h)]>
             {["variables" := VMap (VString <$> Variables h)]})).

(** The same for a group record. *)
Definition groupEntry (g : InventoryGroup) : Value :=
  VMap (<["name" := VString (GroupName g)]>
          (<["children" := VList (VString <$> Children g)]>
             {["variables" := VMap (VString <$> GroupVariables g)]})).

(** The name under which the expanders accept an entry: the string under
    [name] of a map, unless it is empty. *)
Definition entryName (entry : Value) : option string :=
  match entry with
  | VMap m =>
      match m !! "name" with
      | Some (VString name) => if decide (name = EmptyString) then None else Some name
      | _ => None
      end
  | _ => None
  end.

(** The variables that the records of the group [g] leave it with: those of
    the last record of that name that has variables. *)
Definition lastVariables (g : string) (groups : list InventoryGroup)
  : option (gmap string string) :=
  last (GroupVariables
          <$> filter (fun grp => GroupName grp = g /\ size (GroupVariables grp) ≠ 0%nat)
                     groups).

(** The children that the records of the group [g] leave it with: those of
    the last record of that name that has children. *)
Definition lastChildren (g : string) (groups : list InventoryGroup) : option (list string) :=
  last (Children <$> filter (fun grp => GroupName grp = g /\ Children grp ≠ []) groups).

(** A byte that is no ASCII control character: it leaves the line it stands
    on as it is. *)
Definition graphic (b : Z) : Prop := 0x20 <= b <= 0x7E \/ 0x80 <= b <= 0xFF.

(** The string holds no byte [c]. *)
Definition free (c : Z) (s : string) : Prop := c ∉ bytes_of_string s.

(** The keys of the map hold neither a line feed nor an equals sign. *)
Definition plainKeys (m : gmap string string) : Prop :=
  forall k, is_Some (m !! k) -> free 10 k /\ free 61 k.

(** A path element that [filepath.Clean] copies as it is: not empty,
    without separator, and neither [.] nor [..]. *)
Definition plainElement (c : list ascii) : Prop :=
  c ≠ [] /\ Forall (fun x => x ≠ "/"%char) c /\ c ≠ ["."%char] /\ c ≠ ["."%char; "."%char].

Definition plainName (name : string) : Prop :=
  plainElement (String.list_ascii_of_string name).

(** The absolute path of the given elements: [/] for none, else every
    element after a separator. *)
Definition rootedPath (elems : list string) : string :=
  match elems with
  | [] => "/"
  | _ => foldr (fun e p => "/" +:+ e +:+ p) EmptyString elems
  end.

(** The same on lists of bytes. *)
Definition rootedOut (elems : list (list ascii)) : list ascii :=
  match elems with
  | [] => ["/"%char]
  | _ => concat ((fun e => "/"%char :: e) <$> elems)
  end.

(** [rest] holds the elements [elems], with separators before, between and
    after them. *)
Inductive spaced : list ascii -> list (list ascii) -> Prop :=
| spaced_nil : spaced [] []
| spaced_sep rest elems : spaced rest elems -> spaced ("/"%char :: rest) elems
| spaced_elem c rest elems :
    plainElement c -> filepath.ends rest = true -> spaced rest elems ->
    spaced (c ++ rest) (c :: elems).

(** The diagnostic of [GetAllInventories] for a directory that could not be
    read. *)
Definition readDiag (dir : string) (err : option string) : Diagnostics :=
  match err with
  | Some e => [errorDiag ("Fail to read dir " +:+ dir +:+ ": " +:+ e)]
  | None => []
  end.

(** ** Bit operations as arithmetic *)

Lemma land_low (a n : Z) : 0 <= n -> Z.land a (2 ^ n - 1) = a mod 2 ^ n.
Proof.
  intros Hn. rewrite <- Z.land_ones by done. f_equal. rewrite Z.ones_equiv. lia.
Qed.

Lemma lor_disjoint (a b n : Z) :
  0 <= n -> 0 <= b < 2 ^ n -> Z.lor (a * 2 ^ n) b = a * 2 ^ n + b.
Proof.
  intros Hn Hb. symmetry. apply Z.add_nocarry_lor.
  apply Z.bits_inj'. intros i Hi. rewrite Z.land_spec, Z.bits_0.
  destruct (Z.lt_ge_cases i n).
  - rewrite Z.mul_pow2_bits_low by lia. done.
  - destruct (Z.eq_dec b 0) as [->|]. { rewrite Z.bits_0. apply andb_false_r. }
    rewrite (Z.bits_above_log2 b i); [apply andb_false_r|lia|].
    assert (Z.log2 b < n); [|lia]. apply Z.log2_lt_pow2; lia.
Qed.

Lemma lor_const (c b n : Z) :
  0 <= n -> 0 <= b < 2 ^ n -> c mod 2 ^ n = 0 -> Z.lor c b = c + b.
Proof.
  intros Hn Hb Hc.
  rewrite (Z.div_mod c (2 ^ n)) at 1 2 by lia. rewrite Hc, Z.add_0_r.
  rewrite (Z.mul_comm (2 ^ n)). by apply lor_disjoint.
Qed.


Ltac dlia := Z.div_mod_to_equations; lia.

Lemma land_maskx b : Z.land b maskx = b mod 64.
Proof. apply (land_low b 6). lia. Qed.
Lemma land_mask2 b : Z.land b mask2 = b mod 32.
Proof. apply (land_low b 5). lia. Qed.
Lemma land_mask3 b : Z.land b mask3 = b mod 16.
Proof. apply (land_low b 4). lia. Qed.
Lemma land_mask4 b : Z.land b mask4 = b mod 8.
Proof. apply (land_low b 3). lia. Qed.
Lemma land_nibble b : Z.land b 0xF = b mod 16.
Proof. apply (land_low b 4). lia. Qed.
Lemma shiftl_mul a n : 0 <= n -> Z.shiftl a n = a * 2 ^ n.
Proof. apply Z.shiftl_mul_pow2. Qed.
Lemma shiftr_div a n : 0 <= n -> Z.shiftr a n = a / 2 ^ n.
Proof. apply Z.shiftr_div_pow2. Qed.
Lemma lor_tx b : 0 <= b < 64 -> Z.lor tx b = 128 + b.
Proof. intros. by apply (lor_const 128 b 6). Qed.
Lemma lor_t2 b : 0 <= b < 32 -> Z.lor t2 b = 192 + b.
Proof. intros. by apply (lor_const 192 b 5). Qed.
Lemma lor_t3 b : 0 <= b < 16 -> Z.lor t3 b = 224 + b.
Proof. intros. by apply (lor_const 224 b 4). Qed.
Lemma lor_t4 b : 0 <= b < 8 -> Z.lor t4 b = 240 + b.
Proof. intros. by apply (lor_const 240 b 3). Qed.
Lemma lor_shl a b n : 0 <= n -> 0 <= b < 2 ^ n -> Z.lor (Z.shiftl a n) b = a * 2 ^ n + b.
Proof. intros. rewrite shiftl_mul by done. by apply lor_disjoint. Qed.

Ltac list_eq :=
  repeat match goal with
         | |- _ ++ _ = _ ++ _ => apply (f_equal2 app); [reflexivity|]
         | |- _ :: _ = _ :: _ => apply (f_equal2 cons)
         | |- [] = [] => reflexivity
         end.

Ltac to_arith :=
  rewrite ?land_maskx, ?land_mask2, ?land_mask3, ?land_mask4, ?land_nibble;
  rewrite ?shiftr_div by lia.

Lemma lor3 a b c :
  0 <= b < 64 -> 0 <= c < 64 ->
  Z.lor (Z.lor (Z.shiftl a 12) (Z.shiftl b 6)) c = a * 4096 + b * 64 + c.
Proof.
  intros. rewrite (shiftl_mul b) by lia. rewrite (lor_shl a) by lia.
  rewrite (lor_const _ c 6) by dlia. lia.
Qed.

Lemma lor4 a b c d :
  0 <= b < 64 -> 0 <= c < 64 -> 0 <= d < 64 ->
  Z.lor (Z.lor (Z.lor (Z.shiftl a 18) (Z.shiftl b 12)) (Z.shiftl c 6)) d
  = a * 262144 + b * 4096 + c * 64 + d.
Proof.
  intros. rewrite (shiftl_mul b), (shiftl_mul c) by lia. rewrite (lor_shl a) by lia.
  rewrite (lor_const _ (c * 2 ^ 6) 12) by dlia.
  rewrite (lor_const _ d 6) by dlia. lia.
Qed.

(** ** UTF-8: decoding, and encoding what was decoded *)

Lemma first_cases (b : Z) :
  0 <= b < 256 ->
  (b < 0x80 /\ first b = as_) \/
  ((0x80 <= b < 0xC2 \/ 0xF5 <= b) /\ first b = xx) \/
  (0xC2 <= b < 0xE0 /\ first b = s1) \/
  (b = 0xE0 /\ first b = s2) \/
  ((0xE1 <= b < 0xED \/ 0xEE <= b < 0xF0) /\ first b = s3) \/
  (b = 0xED /\ first b = s4) \/
  (b = 0xF0 /\ first b = s5) \/
  (0xF1 <= b < 0xF4 /\ first b = s6) \/
  (b = 0xF4 /\ first b = s7).
Proof.
  intros Hb. unfold first.
  repeat match goal with
         | |- context [?a <? ?b] => destruct (Z.ltb_spec a b)
         | |- context [?a =? ?b] => destruct (Z.eqb_spec a b)
         end; lia.
Qed.

Lemma AppendRune_1 p r : 0 <= r < 0x80 -> AppendRune p r = p ++ [r].
Proof.
  intros. unfold AppendRune, uint32, rune1Max, byte.
  rewrite Z.mod_small by lia.
  destruct (Z.leb_spec r (2 ^ 7 - 1)); [|lia]. by rewrite Z.mod_small by lia.
Qed.

Lemma AppendRune_2 p r :
  0x80 <= r <= 0x7FF -> AppendRune p r = p ++ [192 + r / 64; 128 + r mod 64].
Proof.
  intros. unfold AppendRune, appendRuneNonASCII, uint32, rune1Max, rune2Max, byte.
  rewrite Z.mod_small by lia.
  destruct (Z.leb_spec r (2 ^ 7 - 1)); [lia|].
  destruct (Z.leb_spec r (2 ^ 11 - 1)); [|lia].
  to_arith. rewrite lor_t2, lor_tx by dlia.
  list_eq; dlia.
Qed.

Lemma AppendRune_3 p r :
  0x800 <= r <= 0xFFFF -> ~ (0xD800 <= r <= 0xDFFF) ->
  AppendRune p r = p ++ [224 + r / 4096; 128 + (r / 64) mod 64; 128 + r mod 64].
Proof.
  intros. unfold AppendRune, appendRuneNonASCII, uint32, rune1Max, rune2Max, rune3Max,
    MaxRune, surrogateMin, surrogateMax, byte.
  rewrite Z.mod_small by lia.
  destruct (Z.leb_spec r (2 ^ 7 - 1)); [lia|].
  destruct (Z.leb_spec r (2 ^ 11 - 1)); [lia|].
  destruct (Z.ltb_spec 0x10FFFF r); [lia|].
  destruct (Z.leb_spec 0xD800 r), (Z.leb_spec r 0xDFFF); try lia;
    (destruct (Z.leb_spec r (2 ^ 16 - 1)); [|lia]); cbn [orb andb];
    to_arith; rewrite lor_t3, !lor_tx by dlia;
    list_eq; dlia.
Qed.

Lemma AppendRune_4 p r :
  0x10000 <= r <= 0x10FFFF ->
  AppendRune p r =
  p ++ [240 + r / 262144; 128 + (r / 4096) mod 64; 128 + (r / 64) mod 64; 128 + r mod 64].
Proof.
  intros. unfold AppendRune, appendRuneNonASCII, uint32, rune1Max, rune2Max, rune3Max,
    MaxRune, surrogateMin, surrogateMax, byte.
  rewrite Z.mod_small by lia.
  destruct (Z.leb_spec r (2 ^ 7 - 1)); [lia|].
  destruct (Z.leb_spec r (2 ^ 11 - 1)); [lia|].
  destruct (Z.ltb_spec 0x10FFFF r); [lia|].
  destruct (Z.leb_spec 0xD800 r), (Z.leb_spec r 0xDFFF); try lia;
    (destruct (Z.leb_spec r (2 ^ 16 - 1)); [lia|]); cbn [orb andb];
    to_arith; rewrite lor_t4, !lor_tx by dlia;
    list_eq; dlia.
Qed.

Ltac first_is b H :=
  let Hc := fresh in
  assert (Hc := first_cases b);
  unfold first in Hc |- *;
  repeat match goal with
         | |- context [?a <? ?b] => destruct (Z.ltb_spec a b)
         | |- context [?a =? ?b] => destruct (Z.eqb_spec a b)
         end; try lia; clear Hc.

Ltac decode_head Hfirst sz acc :=
  unfold DecodeRuneInString; rewrite Hfirst;
  match goal with
  | |- context [as_ <=? ?x] =>
      change (as_ <=? x) with false;
      change (Z.to_nat (Z.land x 7)) with sz;
      change (acceptRanges (Z.shiftr x 4)) with acc
  end;
  cbn [length Nat.ltb Nat.leb lo hi lookup_total list_lookup_total].

Lemma decode_eq2 b0 b1 t :
  0xC2 <= b0 < 0xE0 -> 0x80 <= b1 <= 0xBF ->
  DecodeRuneInString (b0 :: b1 :: t) = ((b0 - 192) * 64 + (b1 - 128), 2%nat).
Proof.
  intros H0 H1.
  assert (first b0 = s1) as Hf by (first_is b0 H0; reflexivity).
  decode_head Hf 2%nat {| lo := locb; hi := hicb |}.
  destruct (Z.ltb_spec b1 locb), (Z.ltb_spec hicb b1); unfold locb, hicb in *; try lia.
  cbn [orb]. f_equal. to_arith. rewrite lor_shl by dlia. dlia.
Qed.

Ltac decode_tests :=
  unfold locb, hicb in *;
  repeat match goal with
         | |- context [?a <? ?b] => destruct (Z.ltb_spec a b); try lia
         end;
  cbn [orb].

Lemma decode_eq3 b0 b1 b2 t :
  (b0 = 0xE0 /\ 0xA0 <= b1 <= 0xBF) \/
  ((0xE1 <= b0 < 0xED \/ 0xEE <= b0 < 0xF0) /\ 0x80 <= b1 <= 0xBF) \/
  (b0 = 0xED /\ 0x80 <= b1 <= 0x9F) ->
  0x80 <= b2 <= 0xBF ->
  DecodeRuneInString (b0 :: b1 :: b2 :: t)
  = ((b0 - 224) * 4096 + (b1 - 128) * 64 + (b2 - 128), 3%nat).
Proof.
  intros Hb0 Hb2.
  assert (0 <= b0 mod 16 /\ b0 mod 16 = b0 - 224) as [??] by dlia.
  assert (0 <= b1 mod 64 /\ b1 mod 64 = b1 - 128) as [??] by dlia.
  assert (0 <= b2 mod 64 /\ b2 mod 64 = b2 - 128) as [??] by dlia.
  destruct Hb0 as [[-> Hb1]|[[Hb0 Hb1]|[-> Hb1]]].
  - decode_head (eq_refl : first 0xE0 = s2) 3%nat {| lo := 0xA0; hi := hicb |}.
    decode_tests. f_equal. to_arith. rewrite lor3 by dlia. lia.
  - assert (first b0 = s3) as Hf by (first_is b0 Hb0; reflexivity).
    decode_head Hf 3%nat {| lo := locb; hi := hicb |}.
    decode_tests. f_equal. to_arith. rewrite lor3 by dlia. lia.
  - decode_head (eq_refl : first 0xED = s4) 3%nat {| lo := locb; hi := 0x9F |}.
    decode_tests. f_equal. to_arith. rewrite lor3 by dlia. lia.
Qed.

Lemma decode_eq4 b0 b1 b2 b3 t :
  (b0 = 0xF0 /\ 0x90 <= b1 <= 0xBF) \/
  (0xF1 <= b0 < 0xF4 /\ 0x80 <= b1 <= 0xBF) \/
  (b0 = 0xF4 /\ 0x80 <= b1 <= 0x8F) ->
  0x80 <= b2 <= 0xBF -> 0x80 <= b3 <= 0xBF ->
  DecodeRuneInString (b0 :: b1 :: b2 :: b3 :: t)
  = ((b0 - 240) * 262144 + (b1 - 128) * 4096 + (b2 - 128) * 64 + (b3 - 128), 4%nat).
Proof.
  intros Hb0 Hb2 Hb3.
  assert (0 <= b0 mod 8 /\ b0 mod 8 = b0 - 240) as [??] by dlia.
  assert (0 <= b1 mod 64 /\ b1 mod 64 = b1 - 128) as [??] by dlia.
  assert (0 <= b2 mod 64 /\ b2 mod 64 = b2 - 128) as [??] by dlia.
  assert (0 <= b3 mod 64 /\ b3 mod 64 = b3 - 128) as [??] by dlia.
  destruct Hb0 as [[-> Hb1]|[[Hb0 Hb1]|[-> Hb1]]].
  - decode_head (eq_refl : first 0xF0 = s5) 4%nat {| lo := 0x90; hi := hicb |}.
    decode_tests. f_equal. to_arith. rewrite lor4 by dlia. lia.
  - assert (first b0 = s6) as Hf by (first_is b0 Hb0; reflexivity).
    decode_head Hf 4%nat {| lo := locb; hi := hicb |}.
    decode_tests. f_equal. to_arith. rewrite lor4 by dlia. lia.
  - decode_head (eq_refl : first 0xF4 = s7) 4%nat {| lo := locb; hi := 0x8F |}.
    decode_tests. f_equal. to_arith. rewrite lor4 by dlia. lia.
Qed.

Lemma ValidRune_true r : 0 <= r < 0xD800 \/ 0xDFFF < r <= 0x10FFFF -> ValidRune r = true.
Proof.
  intros. unfold ValidRune, surrogateMin, surrogateMax, MaxRune.
  destruct (Z.leb_spec 0 r), (Z.ltb_spec r 0xD800), (Z.ltb_spec 0xDFFF r),
    (Z.leb_spec r 0x10FFFF); try done; lia.
Qed.

Ltac decode_bad Hf sz acc :=
  left; decode_head Hf sz acc; decode_tests; done.

Ltac decode_good chunk rest eqn appn :=
  right; exists chunk, rest;
  rewrite eqn by lia; cbn [fst snd];
  split; [done|]; split; [done|]; split; [lia|];
  split; [repeat constructor; lia|];
  split; [unfold MaxRune; lia|];
  split; [apply ValidRune_true; lia|];
  split; [rewrite appn by lia; cbn [app]; list_eq; dlia|];
  intros t'; cbn [app]; rewrite eqn by lia; done.

Lemma decode_spec s0 tl :
  0x80 <= s0 < 256 ->
  decoded (s0 :: tl) (DecodeRuneInString (s0 :: tl)).1 (DecodeRuneInString (s0 :: tl)).2.
Proof.
  intros Hs0. unfold decoded.
  destruct (first_cases s0) as [[? Hf]|[[? Hf]|[[? Hf]|[[? Hf]|[[? Hf]|[[? Hf]|[[? Hf]|[[? Hf]|[? Hf]]]]]]]]];
    [lia| lia | | | | | | | | ].
  - (* invalid first byte *)
    left. unfold DecodeRuneInString. rewrite Hf. cbn. by rewrite Z.land_0_r.
  - (* two bytes *)
    destruct tl as [|b1 tl]; [decode_bad Hf 2%nat {| lo := locb; hi := hicb |}|].
    destruct (decide (0x80 <= b1 <= 0xBF));
      [|decode_bad Hf 2%nat {| lo := locb; hi := hicb |}].
    decode_good [s0; b1] tl decode_eq2 AppendRune_2.
  - (* three bytes, first E0 *)
    destruct tl as [|b1 [|b2 tl]];
      [decode_bad Hf 3%nat {| lo := 0xA0; hi := hicb |}..|].
    destruct (decide (0xA0 <= b1 <= 0xBF));
      [|decode_bad Hf 3%nat {| lo := 0xA0; hi := hicb |}].
    destruct (decide (0x80 <= b2 <= 0xBF));
      [|decode_bad Hf 3%nat {| lo := 0xA0; hi := hicb |}].
    decode_good [s0; b1; b2] tl decode_eq3 AppendRune_3.
  - (* three bytes *)
    destruct tl as [|b1 [|b2 tl]];
      [decode_bad Hf 3%nat {| lo := locb; hi := hicb |}..|].
    destruct (decide (0x80 <= b1 <= 0xBF));
      [|decode_bad Hf 3%nat {| lo := locb; hi := hicb |}].
    destruct (decide (0x80 <= b2 <= 0xBF));
      [|decode_bad Hf 3%nat {| lo := locb; hi := hicb |}].
    decode_good [s0; b1; b2] tl decode_eq3 AppendRune_3.
  - (* three bytes, first ED *)
    destruct tl as [|b1 [|b2 tl]];
      [decode_bad Hf 3%nat {| lo := locb; hi := 0x9F |}..|].
    destruct (decide (0x80 <= b1 <= 0x9F));
      [|decode_bad Hf 3%nat {| lo := locb; hi := 0x9F |}].
    destruct (decide (0x80 <= b2 <= 0xBF));
      [|decode_bad Hf 3%nat {| lo := locb; hi := 0x9F |}].
    decode_good [s0; b1; b2] tl decode_eq3 AppendRune_3.
  - (* four bytes, first F0 *)
    destruct tl as [|b1 [|b2 [|b3 tl]]];
      [decode_bad Hf 4%nat {| lo := 0x90; hi := hicb |}..|].
    destruct (decide (0x90 <= b1 <= 0xBF));
      [|decode_bad Hf 4%nat {| lo := 0x90; hi := hicb |}].
    destruct (decide (0x80 <= b2 <= 0xBF));
      [|decode_bad Hf 4%nat {| lo := 0x90; hi := hicb |}].
    destruct (decide (0x80 <= b3 <= 0xBF));
      [|decode_bad Hf 4%nat {| lo := 0x90; hi := hicb |}].
    decode_good [s0; b1; b2; b3] tl decode_eq4 AppendRune_4.
  - (* four bytes *)
    destruct tl as [|b1 [|b2 [|b3 tl]]];
      [decode_bad Hf 4%nat {| lo := locb; hi := hicb |}..|].
    destruct (decide (0x80 <= b1 <= 0xBF));
      [|decode_bad Hf 4%nat {| lo := locb; hi := hicb |}].
    destruct (decide (0x80 <= b2 <= 0xBF));
      [|decode_bad Hf 4%nat {| lo := locb; hi := hicb |}].
    destruct (decide (0x80 <= b3 <= 0xBF));
      [|decode_bad Hf 4%nat {| lo := locb; hi := hicb |}].
    decode_good [s0; b1; b2; b3] tl decode_eq4 AppendRune_4.
  - (* four bytes, first F4 *)
    destruct tl as [|b1 [|b2 [|b3 tl]]];
      [decode_bad Hf 4%nat {| lo := locb; hi := 0x8F |}..|].
    destruct (decide (0x80 <= b1 <= 0x8F));
      [|decode_bad Hf 4%nat {| lo := locb; hi := 0x8F |}].
    destruct (decide (0x80 <= b2 <= 0xBF));
      [|decode_bad Hf 4%nat {| lo := locb; hi := 0x8F |}].
    destruct (decide (0x80 <= b3 <= 0xBF));
      [|decode_bad Hf 4%nat {| lo := locb; hi := 0x8F |}].
    decode_good [s0; b1; b2; b3] tl decode_eq4 AppendRune_4.
Qed.


(** ** Hexadecimal digits *)

Ltac ord_eval :=
  repeat match goal with
         | |- context [ord ?c] =>
             let v := eval vm_compute in (ord c) in change (ord c) with v
         end.

Lemma nibble_cases d : 0 <= d < 16 ->
  d = 0 \/ d = 1 \/ d = 2 \/ d = 3 \/ d = 4 \/ d = 5 \/ d = 6 \/ d = 7 \/
  d = 8 \/ d = 9 \/ d = 10 \/ d = 11 \/ d = 12 \/ d = 13 \/ d = 14 \/ d = 15.
Proof. lia. Qed.

Lemma unhex_lowerhex d : 0 <= d < 16 -> unhex (lowerhex d) = (d, true).
Proof.
  intros H. destruct (nibble_cases d H) as [->|[->|[->|[->|[->|[->|[->|[->|[->|[->|[->|[->|[->|[->|[->| ->]]]]]]]]]]]]]]];
    reflexivity.
Qed.

Lemma lowerhex_range d : 0 <= d < 16 -> 48 <= lowerhex d < 128.
Proof.
  intros H. destruct (nibble_cases d H) as [->|[->|[->|[->|[->|[->|[->|[->|[->|[->|[->|[->|[->|[->|[->| ->]]]]]]]]]]]]]]];
    vm_compute; split; congruence.
Qed.

Lemma int32_small x : - 2 ^ 31 <= x < 2 ^ 31 -> int32 x = x.
Proof. intros. unfold int32. rewrite Z.mod_small; lia. Qed.

(** One step of the hexadecimal accumulation of [UnquoteChar]. *)
Lemma hex_step v d :
  0 <= v < 2 ^ 27 -> 0 <= d < 16 ->
  int32 (Z.lor (Z.shiftl v 4) d) = v * 16 + d.
Proof.
  intros. rewrite lor_shl by lia. rewrite int32_small; lia.
Qed.

Lemma hexfold_lowerhex v d :
  0 <= v < 2 ^ 27 -> 0 <= d < 16 ->
  hexfold (Some v) (lowerhex d) = Some (v * 16 + d).
Proof.
  intros. unfold hexfold. rewrite unhex_lowerhex by done. by rewrite hex_step.
Qed.

Lemma hex2 r :
  0 <= r < 256 ->
  foldl hexfold (Some 0) [lowerhex (Z.shiftr r 4); lowerhex (Z.land r 0xF)] = Some r.
Proof.
  intros. to_arith. cbn [foldl].
  rewrite !hexfold_lowerhex by dlia. f_equal. dlia.
Qed.

Lemma hex4 r :
  0 <= r < 2 ^ 16 ->
  foldl hexfold (Some 0)
    (map (fun s => lowerhex (Z.land (Z.shiftr r s) 0xF)) [12; 8; 4; 0]) = Some r.
Proof.
  intros. cbn [map foldl]. to_arith.
  rewrite !hexfold_lowerhex by dlia. f_equal. dlia.
Qed.

Lemma hex8 r :
  0 <= r < 2 ^ 24 ->
  foldl hexfold (Some 0)
    (map (fun s => lowerhex (Z.land (Z.shiftr r s) 0xF)) [28; 24; 20; 16; 12; 8; 4; 0])
  = Some r.
Proof.
  intros. cbn [map foldl]. to_arith.
  rewrite !hexfold_lowerhex by dlia. f_equal. dlia.
Qed.


(** ** One character unquoted *)

Lemma UnquoteChar_simple c2 v t :
  (c2, v) ∈ [(97, 7); (98, 8); (102, 12); (110, 10); (114, 13); (116, 9); (118, 11);
             (92, 92); (34, 34)] ->
  UnquoteChar (92 :: c2 :: t) DQc = Some (v, false, t).
Proof.
  intros H. repeat (apply elem_of_cons in H as [[= -> ->]|H]; [reflexivity|]).
  by apply elem_of_nil in H.
Qed.

Lemma UnquoteChar_hex c n digits r t :
  (c = 120 /\ n = 2%nat) \/ (c = 117 /\ n = 4%nat) \/ (c = 85 /\ n = 8%nat) ->
  length digits = n ->
  foldl hexfold (Some 0) digits = Some r ->
  (c = 120 \/ ValidRune r = true) ->
  UnquoteChar (92 :: c :: digits ++ t) DQc = Some (r, negb (c =? 120), t).
Proof.
  intros Hc Hlen Hfold Hvalid.
  assert (take n (digits ++ t) = digits) as Htake.
  { rewrite <- Hlen. apply take_app_length. }
  assert (drop n (digits ++ t) = t) as Hdrop.
  { rewrite <- Hlen. apply drop_app_length. }
  assert ((length (digits ++ t) <? n)%nat = false) as Hn.
  { apply Nat.ltb_ge. rewrite length_app. lia. }
  unfold UnquoteChar. ord_eval.
  destruct Hc as [[-> ->]|[[-> ->]|[-> ->]]]; cbn -[Nat.ltb take drop foldl];
    rewrite Hn, Htake, Hdrop;
    change (foldl _ (Some 0) digits) with (foldl hexfold (Some 0) digits);
    rewrite Hfold; try done;
    destruct Hvalid as [?| ->]; done.
Qed.

Lemma UnquoteChar_ascii c t :
  0 <= c < 0x80 -> c <> 34 -> c <> 92 -> UnquoteChar (c :: t) DQc = Some (c, false, t).
Proof.
  intros. unfold UnquoteChar, RuneSelf. ord_eval.
  destruct (Z.eqb_spec c 34); [done|].
  destruct (Z.leb_spec 128 c); [lia|].
  destruct (Z.eqb_spec c 92); done.
Qed.

Lemma UnquoteChar_multi c tl :
  0x80 <= c ->
  UnquoteChar (c :: tl) DQc =
  Some ((DecodeRuneInString (c :: tl)).1, true,
        drop (DecodeRuneInString (c :: tl)).2 (c :: tl)).
Proof.
  intros. unfold UnquoteChar, RuneSelf. ord_eval.
  destruct (Z.eqb_spec c 34); [lia|].
  destruct (Z.leb_spec 128 c); [|lia].
  cbn [andb]. by destruct (DecodeRuneInString _).
Qed.


(** ** One iteration of the quoting loop *)

Lemma AppendRune_app p r : AppendRune p r = p ++ AppendRune [] r.
Proof.
  unfold AppendRune, appendRuneNonASCII.
  repeat match goal with |- context [if ?b then _ else _] => destruct b end; done.
Qed.

Lemma appendEscapedRune_app buf r q :
  appendEscapedRune isPrintWide buf r q = buf ++ appendEscapedRune isPrintWide [] r q.
Proof.
  unfold appendEscapedRune.
  repeat match goal with |- context [if ?b then _ else _] => destruct b end;
    rewrite ?app_nil_l; try done; apply AppendRune_app.
Qed.

Ltac mem := repeat first [apply list_elem_of_here | apply list_elem_of_further].

Lemma appendEscapedRune_cases r :
  0 <= r <= MaxRune -> ValidRune r = true ->
  let e := appendEscapedRune isPrintWide [] r DQc in
  ((r = 34 \/ r = 92) /\ e = [92; r]) \/
  (IsPrint isPrintWide r = true /\ r <> 34 /\ r <> 92 /\ e = AppendRune [] r) \/
  (exists c, (c, r) ∈ [(97, 7); (98, 8); (102, 12); (110, 10); (114, 13); (116, 9); (118, 11)]
             /\ e = [92; c]) \/
  ((r < 0x20 \/ r = 0x7F) /\
   e = [92; 120; lowerhex (Z.shiftr r 4); lowerhex (Z.land r 0xF)]) \/
  (0x80 <= r < 0x10000 /\ e = 92 :: 117 :: hexdigits r [12; 8; 4; 0]) \/
  (0x10000 <= r /\ e = 92 :: 85 :: hexdigits r [28; 24; 20; 16; 12; 8; 4; 0]).
Proof.
  intros Hr Hv. cbn zeta. unfold appendEscapedRune. ord_eval. rewrite Hv.
  cbn [negb app].
  destruct (Z.eqb_spec r 34) as [->|]; [left; split; [lia|done]|].
  destruct (Z.eqb_spec r 92) as [->|]; [left; split; [lia|done]|].
  cbn [orb]. right.
  destruct (IsPrint isPrintWide r) eqn:Hp; [left; done|]. right.
  assert (0x20 <= r <= 0x7E -> False) as Hnp.
  { intros ?. unfold IsPrint in Hp.
    destruct (Z.leb_spec r 0xFF); [|lia].
    destruct (Z.leb_spec 0x20 r), (Z.leb_spec r 0x7E); try lia. done. }
  destruct (Z.eqb_spec r 7) as [->|]; [left; exists 97; split; [mem|done]|].
  destruct (Z.eqb_spec r 8) as [->|]; [left; exists 98; split; [mem|done]|].
  destruct (Z.eqb_spec r 12) as [->|]; [left; exists 102; split; [mem|done]|].
  destruct (Z.eqb_spec r 10) as [->|]; [left; exists 110; split; [mem|done]|].
  destruct (Z.eqb_spec r 13) as [->|]; [left; exists 114; split; [mem|done]|].
  destruct (Z.eqb_spec r 9) as [->|]; [left; exists 116; split; [mem|done]|].
  destruct (Z.eqb_spec r 11) as [->|]; [left; exists 118; split; [mem|done]|].
  right.
  destruct (Z.ltb_spec r 32).
  { left. split; [lia|]. unfold byte. rewrite Z.mod_small by lia. done. }
  destruct (Z.eqb_spec r 0x7F) as [->|]; [left; split; [lia|done]|].
  cbn [orb]. right.
  destruct (Z.ltb_spec r 0x10000); [left|right]; (split; [lia|done]).
Qed.

Lemma appendQuoted_loop_step fuel buf s0 tl :
  appendQuoted_loop isPrintWide (S fuel) buf (s0 :: tl) DQc =
  appendQuoted_loop isPrintWide fuel (buf ++ (quoteStep (s0 :: tl)).1)
    (drop (quoteStep (s0 :: tl)).2 (s0 :: tl)) DQc.
Proof.
  cbn [appendQuoted_loop quoteStep]. ord_eval.
  destruct (if RuneSelf <=? s0 then _ else _) as [r width].
  destruct ((width =? 1)%nat && (r =? RuneError)); cbn [fst snd]; [done|].
  by rewrite appendEscapedRune_app.
Qed.

Lemma hexdigits_bytes r shifts :
  0 <= r -> Forall (fun s => 0 <= s) shifts -> Forall isByte (hexdigits r shifts).
Proof.
  intros Hr Hs. unfold hexdigits. apply Forall_fmap.
  eapply Forall_impl; [exact Hs|]. intros s Hs'. unfold compose, isByte.
  pose proof (lowerhex_range (Z.land (Z.shiftr r s) 0xF)) as Hh.
  revert Hh. to_arith. intros Hh. specialize (Hh ltac:(dlia)). lia.
Qed.

Lemma escapes_simple c r :
  (c, r) ∈ [(97, 7); (98, 8); (102, 12); (110, 10); (114, 13); (116, 9); (118, 11);
            (92, 92); (34, 34)] ->
  escapes [92; c] [r].
Proof.
  intros H. split; [|split; [|split]].
  - repeat (apply elem_of_cons in H as [[= -> ->]|H];
            [repeat constructor; unfold isByte; lia|]).
    by apply elem_of_nil in H.
  - exists 92, [c]. done.
  - intros t. exists r, false. split; [by apply UnquoteChar_simple|].
    rewrite orb_true_r. unfold byte.
    repeat (apply elem_of_cons in H as [[= -> ->]|H]; [done|]).
    by apply elem_of_nil in H.
  - left. by exists [c].
Qed.

Lemma escapes_hex2 b :
  0 <= b < 256 ->
  escapes [92; 120; lowerhex (Z.shiftr b 4); lowerhex (Z.land b 0xF)] [b].
Proof.
  intros Hb. split; [|split; [|split]].
  - pose proof (lowerhex_range (Z.shiftr b 4)) as H1.
    pose proof (lowerhex_range (Z.land b 0xF)) as H2.
    revert H1 H2. to_arith. intros H1 H2.
    specialize (H1 ltac:(dlia)). specialize (H2 ltac:(dlia)).
    repeat constructor; unfold isByte; lia.
  - eexists _, _. done.
  - intros t. exists b, false. split.
    + apply (UnquoteChar_hex 120 2 [_; _] b t); [auto|done|by apply hex2|auto].
    + rewrite orb_true_r. unfold byte. by rewrite Z.mod_small by lia.
  - left. by eexists.
Qed.

Lemma escapes_raw1 c :
  0x20 <= c <= 0x7E -> c <> 34 -> c <> 92 -> escapes [c] [c].
Proof.
  intros Hc H1 H2. split; [|split; [|split]].
  - repeat constructor; unfold isByte; lia.
  - exists c, []. split; [done|]. lia.
  - intros t. exists c, false. split; [apply UnquoteChar_ascii; lia|].
    rewrite orb_true_r. unfold byte. by rewrite Z.mod_small by lia.
  - right. split; [done|]. rewrite !list_elem_of_singleton. lia.
Qed.

Lemma escapes_rawN chunk r :
  (2 <= length chunk)%nat ->
  Forall (fun b => 0x80 <= b < 256) chunk ->
  0x80 <= r ->
  AppendRune [] r = chunk ->
  (forall t, DecodeRuneInString (chunk ++ t) = (r, length chunk)) ->
  escapes chunk chunk.
Proof.
  intros Hlen Hb Hr Happ Hdec.
  destruct chunk as [|c0 chunk']; [cbn in Hlen; lia|].
  assert (forall x, x ∈ c0 :: chunk' -> 0x80 <= x < 256) as Hin.
  { by apply Forall_forall. }
  split; [|split; [|split]].
  - eapply Forall_impl; [exact Hb|]. unfold isByte. cbn. lia.
  - exists c0, chunk'. split; [done|]. apply Forall_cons in Hb as [??]. lia.
  - intros t. exists r, true. split.
    + cbn [app]. rewrite UnquoteChar_multi by (apply Forall_cons in Hb as [??]; lia).
      change (c0 :: chunk' ++ t) with ((c0 :: chunk') ++ t).
      rewrite Hdec. cbn [fst snd]. by rewrite drop_app_length.
    + unfold RuneSelf. destruct (Z.ltb_spec r 128); [lia|]. done.
  - right. split; [done|].
    split; [|split]; intros ?%Hin; lia.
Qed.

Lemma escapes_u4 r :
  0x80 <= r < 0x10000 -> ValidRune r = true ->
  escapes (92 :: 117 :: hexdigits r [12; 8; 4; 0]) (AppendRune [] r).
Proof.
  intros Hr Hv. split; [|split; [|split]].
  - change (Forall isByte ([92; 117] ++ hexdigits r [12; 8; 4; 0])).
    apply Forall_app. split; [repeat constructor; unfold isByte; lia|].
    apply hexdigits_bytes; [lia|repeat constructor; lia].
  - eexists _, _. done.
  - intros t. exists r, true. split.
    + apply (UnquoteChar_hex 117 4 (hexdigits r [12; 8; 4; 0]) r t);
        [auto|done|apply hex4; lia|auto].
    + unfold RuneSelf. destruct (Z.ltb_spec r 128); [lia|]. done.
  - left. by eexists.
Qed.

Lemma escapes_u8 r :
  0x10000 <= r <= MaxRune ->
  escapes (92 :: 85 :: hexdigits r [28; 24; 20; 16; 12; 8; 4; 0]) (AppendRune [] r).
Proof.
  unfold MaxRune. intros Hr. split; [|split; [|split]].
  - change (Forall isByte ([92; 85] ++ hexdigits r [28; 24; 20; 16; 12; 8; 4; 0])).
    apply Forall_app. split; [repeat constructor; unfold isByte; lia|].
    apply hexdigits_bytes; [lia|repeat constructor; lia].
  - eexists _, _. done.
  - intros t. exists r, true. split.
    + apply (UnquoteChar_hex 85 8 (hexdigits r [28; 24; 20; 16; 12; 8; 4; 0]) r t);
        [auto|done|apply hex8; lia|right; apply ValidRune_true; lia].
    + unfold RuneSelf. destruct (Z.ltb_spec r 128); [lia|]. done.
  - left. by eexists.
Qed.

Lemma escapes_rune r chunk :
  0 <= r <= MaxRune -> ValidRune r = true ->
  AppendRune [] r = chunk ->
  (r < 0x80 \/
   ((2 <= length chunk)%nat /\ Forall (fun b => 0x80 <= b < 256) chunk /\
    forall t, DecodeRuneInString (chunk ++ t) = (r, length chunk))) ->
  escapes (appendEscapedRune isPrintWide [] r DQc) chunk.
Proof.
  intros Hr Hv Happ Hchunk.
  assert (r < 0x80 -> chunk = [r]) as Hsmall.
  { intros ?. rewrite <- Happ. by rewrite AppendRune_1 by lia. }
  assert (IsPrint isPrintWide r = true -> r < 0x80 -> 0x20 <= r <= 0x7E) as Hprint.
  { unfold IsPrint. intros Hp ?.
    destruct (Z.leb_spec r 0xFF); [|lia].
    destruct (Z.leb_spec 0x20 r), (Z.leb_spec r 0x7E), (Z.leb_spec 0xA1 r); try lia;
      done. }
  destruct (appendEscapedRune_cases r Hr Hv)
    as [[Hq ->]|[(Hp & ? & ? & ->)|[(c & Hc & ->)|[[Hlow ->]|[[? ->]|[? ->]]]]]].
  - rewrite Hsmall by lia.
    apply escapes_simple. destruct Hq as [-> | ->]; mem.
  - rewrite Happ. destruct Hchunk as [?|(? & ? & ?)].
    + rewrite Hsmall by lia. apply escapes_raw1; auto.
    + destruct (Z.lt_ge_cases r 0x80).
      * rewrite Hsmall in * by lia. cbn in *. lia.
      * by apply (escapes_rawN chunk r).
  - assert (r < 0x80) by
      (repeat (apply elem_of_cons in Hc as [[= -> ->]|Hc]; [lia|]);
       by apply elem_of_nil in Hc).
    rewrite Hsmall by lia. apply escapes_simple.
    repeat (apply elem_of_cons in Hc as [[= -> ->]|Hc]; [mem|]).
    by apply elem_of_nil in Hc.
  - rewrite Hsmall by lia. apply escapes_hex2. lia.
  - rewrite <- Happ. by apply escapes_u4.
  - rewrite <- Happ. apply escapes_u8. lia.
Qed.

Lemma quoteStep_escapes s0 tl :
  0 <= s0 < 256 ->
  (1 <= (quoteStep (s0 :: tl)).2 <= length (s0 :: tl))%nat /\
  escapes (quoteStep (s0 :: tl)).1 (take (quoteStep (s0 :: tl)).2 (s0 :: tl)).
Proof.
  intros Hs0. unfold quoteStep, RuneSelf.
  destruct (Z.leb_spec 128 s0) as [Hhi|Hlo].
  - destruct (decode_spec s0 tl ltac:(lia)) as [[Hr Hw]|Hgood].
    + destruct (DecodeRuneInString (s0 :: tl)) as [r w]. cbn [fst snd] in *. subst r w.
      cbn [Nat.eqb andb fst snd take length]. rewrite Z.eqb_refl.
      cbn [fst snd take]. split; [lia|]. by apply escapes_hex2.
    + destruct Hgood as (chunk & rest & Hs & Hlen & Hw & Hb & Hr & Hv & Happ & Hdec).
      destruct (DecodeRuneInString (s0 :: tl)) as [r w]. cbn [fst snd] in *.
      destruct (Nat.eqb_spec w 1); [lia|]. cbn [andb fst snd].
      rewrite Hs. rewrite length_app. split; [lia|].
      rewrite <- Hlen, take_app_length.
      apply escapes_rune; [lia|done|done|].
      right. rewrite Hlen. split; [lia|]. split; [done|]. done.
  - cbn [Nat.eqb andb fst snd take length]. unfold RuneError.
    destruct (Z.eqb_spec s0 0xFFFD); [lia|]. cbn [fst snd]. split; [lia|].
    cbn [take]. apply escapes_rune.
    + unfold MaxRune. lia.
    + apply ValidRune_true. lia.
    + rewrite AppendRune_1 by lia. done.
    + left. lia.
Qed.

(** ** The quoting loop, and unquoting what it wrote *)

Lemma appendQuoted_loop_acc fuel buf s :
  appendQuoted_loop isPrintWide fuel buf s DQc = buf ++ quoteBody fuel s.
Proof.
  unfold quoteBody. revert buf s. induction fuel as [|fuel IH]; intros buf s.
  { cbn. by rewrite app_nil_r. }
  destruct s as [|s0 tl]; [cbn; by rewrite app_nil_r|].
  rewrite !appendQuoted_loop_step. rewrite IH. rewrite (IH ([] ++ _)).
  by rewrite app_assoc.
Qed.

Lemma quoteBody_nil n : quoteBody n [] = [].
Proof. by destruct n. Qed.

Lemma quoteBody_cons n s0 tl :
  quoteBody (S n) (s0 :: tl) =
  (quoteStep (s0 :: tl)).1 ++ quoteBody n (drop (quoteStep (s0 :: tl)).2 (s0 :: tl)).
Proof.
  unfold quoteBody at 1. rewrite appendQuoted_loop_step.
  by rewrite appendQuoted_loop_acc.
Qed.

(** Induction along the iterations of the quoting loop. *)
Lemma quote_ind (P : list Z -> list Z -> Prop) :
  P [] [] ->
  (forall e chunk rest body,
      escapes e chunk -> chunk <> [] -> Forall isByte rest -> P rest body ->
      P (chunk ++ rest) (e ++ body)) ->
  forall n s, (length s <= n)%nat -> Forall isByte s -> P s (quoteBody n s).
Proof.
  intros Hnil Hstep n. induction n as [|n IH]; intros s Hlen Hs.
  { destruct s; [|cbn in Hlen; lia]. exact Hnil. }
  destruct s as [|s0 tl]; [rewrite quoteBody_nil; exact Hnil|].
  rewrite quoteBody_cons.
  destruct (quoteStep_escapes s0 tl) as [Hw Hesc].
  { apply Forall_cons in Hs as [??]. done. }
  set (w := (quoteStep (s0 :: tl)).2) in *.
  rewrite <- (take_drop w (s0 :: tl)) at 1.
  apply Hstep; [done| | |].
  - destruct w; [lia|]. done.
  - by apply Forall_drop.
  - apply IH; [|by apply Forall_drop].
    rewrite length_drop. cbn [length] in *. lia.
Qed.

Lemma quoteBody_bytes n s :
  (length s <= n)%nat -> Forall isByte s -> Forall isByte (quoteBody n s).
Proof.
  apply (quote_ind (fun _ body => Forall isByte body)); [done|].
  intros e chunk rest body (He & _) _ _ Hbody. by apply Forall_app.
Qed.

Lemma unquote_loop_quoteBody n s :
  (length s <= n)%nat -> Forall isByte s ->
  forall fuel buf rest,
    (length (quoteBody n s) < fuel)%nat ->
    unquote_loop fuel DQc buf (quoteBody n s ++ DQc :: rest) = Some (buf ++ s, DQc :: rest).
Proof.
  apply (quote_ind (fun s body =>
    forall fuel buf rest, (length body < fuel)%nat ->
      unquote_loop fuel DQc buf (body ++ DQc :: rest) = Some (buf ++ s, DQc :: rest))).
  - intros [|fuel] buf rest Hf; [cbn in Hf; lia|]. cbn. by rewrite app_nil_r.
  - intros e chunk rest' body (_ & (c & e' & -> & Hc1 & Hc2) & Hun & _) _ _ IH
      fuel buf rest Hf.
    destruct fuel as [|fuel]; [lia|].
    destruct (Hun (body ++ DQc :: rest)) as (r & mb & HU & Hchunk).
    rewrite <- app_assoc. cbn [app] in *. cbn [unquote_loop].
    destruct (Z.eqb_spec c 34); [done|].
    rewrite HU.
    destruct (Z.eqb_spec c 10); [done|].
    ord_eval. cbn [Z.eqb Pos.eqb].
    replace (if (r <? RuneSelf) || negb mb then buf ++ [byte r] else AppendRune buf r)
      with (buf ++ chunk).
    2:{ rewrite <- Hchunk. destruct ((r <? RuneSelf) || negb mb); [done|].
        symmetry. apply AppendRune_app. }
    rewrite IH by (cbn [length] in Hf; rewrite length_app in Hf; lia).
    by rewrite app_assoc.
Qed.

Lemma quoteBody_shape n s :
  (length s <= n)%nat -> Forall isByte s ->
  (quoteBody n s = s /\ (92 ∉ s) /\ (34 ∉ s) /\ (10 ∉ s)) \/
  (exists pre post, quoteBody n s = pre ++ 92 :: post /\ 34 ∉ pre).
Proof.
  apply (quote_ind (fun s body =>
    (body = s /\ (92 ∉ s) /\ (34 ∉ s) /\ (10 ∉ s)) \/
    (exists pre post, body = pre ++ 92 :: post /\ 34 ∉ pre))).
  - left. rewrite !elem_of_nil. tauto.
  - intros e chunk rest body (_ & _ & _ & Hshape) _ _ IH.
    destruct Hshape as [[e' ->]|(-> & H1 & H2 & H3)].
    { right. exists [], (e' ++ body). split; [done|]. apply not_elem_of_nil. }
    destruct IH as [(-> & H4 & H5 & H6)|(pre & post & -> & Hpre)].
    + left. rewrite !elem_of_app. tauto.
    + right. exists (chunk ++ pre), post. rewrite app_assoc. split; [done|].
      rewrite elem_of_app. tauto.
Qed.

Lemma index_app_found c pre post :
  c ∉ pre -> index (pre ++ c :: post) c = Z.of_nat (length pre).
Proof.
  induction pre as [|b pre IH]; intros Hc; cbn [app index length].
  - by rewrite Z.eqb_refl.
  - apply not_elem_of_cons in Hc as [Hne Hc].
    destruct (Z.eqb_spec b c); [congruence|].
    rewrite IH by done. destruct (Z.ltb_spec (Z.of_nat (length pre)) 0); lia.
Qed.

Lemma index_app_ge c pre l :
  c ∉ pre -> index (pre ++ l) c = -1 \/ Z.of_nat (length pre) <= index (pre ++ l) c.
Proof.
  induction pre as [|b pre IH]; intros Hc; cbn [app index length].
  - induction l as [|x l IHl]; cbn; [lia|].
    destruct (Z.eqb_spec x c); [lia|]. destruct (Z.ltb_spec (index l c) 0); lia.
  - apply not_elem_of_cons in Hc as [Hne Hc].
    destruct (Z.eqb_spec b c); [congruence|].
    destruct (IH Hc) as [-> | ?]; [by left|].
    destruct (Z.ltb_spec (index (pre ++ l) c) 0); lia.
Qed.

Lemma contains_elem_of s c : contains s c = true <-> c ∈ s.
Proof.
  unfold contains. induction s as [|b s IH]; cbn [index].
  - cbn. rewrite elem_of_nil. split; [done|tauto].
  - rewrite elem_of_cons. destruct (Z.eqb_spec b c) as [->|Hne]; [cbn; tauto|].
    destruct (Z.ltb_spec (index s c) 0) as [Hlt|Hge].
    + cbn. split; [done|]. intros [?|Hin]; [congruence|].
      apply IH in Hin. destruct (Z.eqb_spec (index s c) (-1)); [done|].
      exfalso. clear -Hlt n. induction s as [|x s IHs]; cbn in *; [lia|].
      destruct (x =? c); [lia|]. destruct (index s c <? 0); lia.
    + destruct (Z.eqb_spec (index s c + 1) (-1)); [lia|].
      destruct (Z.eqb_spec (index s c) (-1)); [lia|]. cbn in *. tauto.
Qed.

Lemma unquote_dq rest :
  0 <= index rest DQc -> (1 <= length rest)%nat ->
  let end_ := Z.to_nat (index rest DQc + 2) in
  unquote (DQc :: rest) =
  if negb (contains (take end_ (DQc :: rest)) 92)
     && negb (contains (take end_ (DQc :: rest)) 10)
     && ValidString (take (end_ - 2) rest)
  then Some (take (end_ - 2) rest, drop end_ (DQc :: rest))
  else
    match unquote_loop (S (length rest)) DQc [] rest with
    | None => None
    | Some (buf, rest') =>
        match rest' with
        | c :: rest'' => if c =? DQc then Some (buf, rest'') else None
        | [] => None
        end
    end.
Proof.
  intros Hi Hl. cbn zeta. unfold unquote. ord_eval.
  cbn [length]. destruct (Nat.ltb_spec (S (length rest)) 2); [lia|].
  cbn [lookup_total list_lookup_total drop].
  cbn [Z.eqb Pos.eqb orb].
  rewrite !drop_0.
  destruct (Z.ltb_spec (index rest 34) 0); [lia|].
  destruct (negb (contains _ 92) && negb (contains _ 10)); cbn [andb]; done.
Qed.

Lemma unquote_slow n s :
  (length s <= n)%nat -> Forall isByte s ->
  match unquote_loop (S (length (quoteBody n s ++ [DQc]))) DQc [] (quoteBody n s ++ [DQc]) with
  | None => None
  | Some (buf, rest') =>
      match rest' with
      | c :: rest'' => if c =? DQc then Some (buf, rest'') else None
      | [] => None
      end
  end = Some (s, []).
Proof.
  intros Hn Hs. rewrite unquote_loop_quoteBody; [done..|].
  rewrite length_app. cbn. lia.
Qed.

Lemma index_app_gt c x pre l :
  c ∉ pre -> x <> c -> c ∈ l ->
  Z.of_nat (length pre) + 1 <= index (pre ++ x :: l) c.
Proof.
  intros Hpre Hx Hl.
  assert (contains (pre ++ x :: l) c = true) as Hc.
  { apply contains_elem_of. rewrite elem_of_app, elem_of_cons. auto. }
  unfold contains in Hc.
  destruct (index_app_ge c (pre ++ [x]) l) as [Hno|Hge].
  { rewrite elem_of_app, list_elem_of_singleton. intros [?|?]; [done|congruence]. }
  - rewrite <- app_assoc in Hno. cbn [app] in Hno. rewrite Hno in Hc. done.
  - rewrite <- app_assoc in Hge. cbn [app] in Hge. rewrite length_app in Hge.
    cbn [length] in Hge. lia.
Qed.

Lemma unquote_quoteBody n s :
  (length s <= n)%nat -> Forall isByte s ->
  unquote (DQc :: quoteBody n s ++ [DQc]) = Some (s, []).
Proof.
  intros Hn Hs.
  destruct (quoteBody_shape n s Hn Hs) as [(Hbody & H92 & H34 & H10)|(pre & post & Hbody & Hpre)].
  - assert (index (quoteBody n s ++ [34]) 34 = Z.of_nat (length s)) as Hidx.
    { rewrite Hbody. by apply index_app_found. }
    rewrite unquote_dq by (rewrite ?length_app; cbn [length]; lia).
    rewrite Hidx.
    destruct (_ && _ && _) eqn:Hfast; [|by apply unquote_slow].
    rewrite Hbody.
    replace (Z.to_nat (Z.of_nat (length s) + 2)) with (S (S (length s))) by lia.
    cbn [drop]. replace (S (S (length s)) - 2)%nat with (length s) by lia.
    rewrite take_app_length.
    rewrite drop_ge by (rewrite length_app; cbn [length]; lia). done.
  - assert (Z.of_nat (length pre) + 1 <= index (quoteBody n s ++ [34]) 34) as Hidx.
    { rewrite Hbody, <- app_assoc. cbn [app]. apply index_app_gt; [done..|].
      rewrite elem_of_app, list_elem_of_singleton. auto. }
    rewrite unquote_dq by (rewrite ?length_app; cbn [length]; lia).
    assert (contains (take (Z.to_nat (index (quoteBody n s ++ [34]) 34 + 2))
                        (34 :: quoteBody n s ++ [34])) 92 = true) as ->.
    { apply contains_elem_of. apply elem_of_take. exists (S (length pre)).
      split; [|lia]. rewrite Hbody, <- app_assoc. cbn [app lookup list_lookup].
      apply list_lookup_middle. done. }
    cbn [negb andb]. by apply unquote_slow.
Qed.

(** ** Strings and their bytes *)

Lemma ord_range c : 0 <= ord c < 256.
Proof. unfold ord. pose proof (N_ascii_bounded c). lia. Qed.

Lemma bytes_of_string_isByte s : Forall isByte (bytes_of_string s).
Proof. induction s; constructor; [apply ord_range|done]. Qed.

Lemma string_of_bytes_of_string s : string_of_bytes (bytes_of_string s) = s.
Proof.
  induction s as [|c s IH]; [done|]. cbn. rewrite IH. f_equal.
  unfold byte. rewrite Z.mod_small by apply ord_range.
  unfold ord. by rewrite N2Z.id, ascii_N_embedding.
Qed.

Lemma bytes_of_string_of_bytes l :
  Forall isByte l -> bytes_of_string (string_of_bytes l) = l.
Proof.
  induction 1 as [|b l Hb Hl IH]; [done|]. cbn. rewrite IH. f_equal.
  unfold byte, ord. unfold isByte in Hb. rewrite Z.mod_small by done.
  rewrite N_ascii_embedding by lia. lia.
Qed.

Lemma appendQuotedWith_eq bs :
  appendQuotedWith isPrintWide [] bs DQc = DQc :: quoteBody (length bs) bs ++ [DQc].
Proof.
  unfold appendQuotedWith. by rewrite appendQuoted_loop_acc.
Qed.

(** Unquoting a quoted string gives the string back, whatever its bytes. *)
Lemma Unquote_Quote s : Unquote (Quote isPrintWide s) = Some s.
Proof.
  unfold Unquote, Quote. ord_eval.
  pose proof (bytes_of_string_isByte s) as Hs.
  rewrite appendQuotedWith_eq.
  rewrite bytes_of_string_of_bytes.
  - rewrite unquote_quoteBody by done. by rewrite string_of_bytes_of_string.
  - constructor; [unfold isByte; lia|]. apply Forall_app. split.
    + by apply quoteBody_bytes.
    + repeat constructor. unfold isByte. lia.
Qed.

(** ** The rendered document *)

Lemma append_cons x (a b : string) : String x a +:+ b = String x (a +:+ b).
Proof. reflexivity. Qed.

Lemma append_assoc (a b c : string) : (a +:+ b) +:+ c = a +:+ (b +:+ c).
Proof. induction a as [|x a IH]; [done|]. rewrite !append_cons. by f_equal. Qed.

Lemma append_nil_r (a : string) : a +:+ EmptyString = a.
Proof. induction a as [|x a IH]; [done|]. rewrite append_cons. by f_equal. Qed.

Lemma foldl_lines b ls :
  foldl (fun builder line => (builder +:+ line) +:+ LF) b ls = b +:+ unlines ls.
Proof.
  revert b. induction ls as [|l ls IH]; intros b; cbn [foldl unlines].
  - by rewrite append_nil_r.
  - rewrite IH. by rewrite !append_assoc.
Qed.

Lemma sort_nil : sort.Strings [] = [].
Proof. reflexivity. Qed.

Lemma sort_Permutation l : sort.Strings l ≡ₚ l.
Proof. apply merge_sort_Permutation. Qed.

Lemma sort_Sorted l : Sorted String.le (sort.Strings l).
Proof. apply (Sorted_merge_sort String.le). Qed.

Lemma sort_eq_nil l : sort.Strings l = [] <-> l = [].
Proof.
  split; [|by intros ->]. intros H.
  apply Permutation_nil_r. rewrite <- H. symmetry. apply sort_Permutation.
Qed.

Lemma sort_elem_of x l : x ∈ sort.Strings l <-> x ∈ l.
Proof. by rewrite sort_Permutation. Qed.

Lemma mapKeys_nil {V} (m : gmap string V) : mapKeys m = [] <-> size m = 0%nat.
Proof.
  unfold mapKeys. rewrite map_size_empty_iff, <- map_to_list_empty_iff.
  split; [apply fmap_nil_inv|by intros ->].
Qed.

Lemma formatInventoryVariables_eq m :
  formatInventoryVariables isPrintWide m =
  unlines ((fun kv => kv.1 +:+ "=" +:+ strconv.Quote isPrintWide kv.2) <$> sortedEntries m).
Proof.
  unfold formatInventoryVariables, sortedEntries.
  generalize (sort.Strings (mapKeys m)). intros keys.
  cut (forall b,
    foldl (fun builder key =>
             builder +:+ (key +:+ "=" +:+ strconv.Quote isPrintWide (at_ m key) +:+ LF))
          b keys
    = b +:+ unlines ((fun kv => kv.1 +:+ "=" +:+ strconv.Quote isPrintWide kv.2)
                       <$> ((fun k => (k, at_ m k)) <$> keys))).
  { intros H. by rewrite H. }
  induction keys as [|k keys IH]; intros b; cbn [foldl fmap list_fmap unlines fst snd].
  - by rewrite append_nil_r.
  - rewrite IH. by rewrite !append_assoc.
Qed.

Lemma formatInventoryHostLine_eq name m :
  formatInventoryHostLine isPrintWide name m = hostLine name (sortedEntries m).
Proof.
  unfold formatInventoryHostLine, sortedEntries.
  destruct (Nat.eqb_spec (size m) 0) as [Hz|Hnz].
  - apply mapKeys_nil in Hz. rewrite Hz. done.
  - generalize (sort.Strings (mapKeys m)). intros keys. revert name.
    induction keys as [|k keys IH]; intros name; cbn [foldl fmap list_fmap hostLine fst snd].
    + done.
    + by rewrite IH.
Qed.

Lemma sortedEntries_nil m : sortedEntries m = [] <-> size m = 0%nat.
Proof.
  unfold sortedEntries. rewrite <- mapKeys_nil, <- sort_eq_nil.
  split; [apply fmap_nil_inv|by intros ->].
Qed.

Lemma children_block b g (oc : option (list string)) :
  match oc with
  | Some children =>
      if (0 <? length children)%nat then
        foldl (fun builder child => (builder +:+ child) +:+ LF)
              (b +:+ ("[" +:+ g +:+ ":children]" +:+ LF)) (sort.Strings ([] ++ children))
        +:+ LF
      else b
  | None => b
  end
  = b +:+ match sort.Strings (default [] oc) with
          | [] => EmptyString
          | _ :: _ =>
              ("[" +:+ g +:+ ":children]" +:+ LF)
              +:+ unlines (sort.Strings (default [] oc)) +:+ LF
          end.
Proof.
  destruct oc as [c|]; cbn [from_option id app]; [|by rewrite sort_nil, append_nil_r].
  destruct c as [|x c]; [by rewrite sort_nil, append_nil_r|].
  cbn [length Nat.ltb Nat.leb].
  destruct (sort.Strings (x :: c)) as [|y ys] eqn:Hs.
  { by apply (proj1 (sort_eq_nil _)) in Hs. }
  rewrite foldl_lines. by rewrite !append_assoc.
Qed.

Lemma vars_block b g (om : option (gmap string string)) :
  match om with
  | Some vars =>
      if (0 <? size vars)%nat then
        ((b +:+ ("[" +:+ g +:+ ":vars]" +:+ LF))
           +:+ formatInventoryVariables isPrintWide vars) +:+ LF
      else b
  | None => b
  end
  = b +:+ match from_option sortedEntries [] om with
          | [] => EmptyString
          | _ :: _ =>
              ("[" +:+ g +:+ ":vars]" +:+ LF)
              +:+ unlines ((fun kv => kv.1 +:+ "=" +:+ strconv.Quote isPrintWide kv.2)
                             <$> from_option sortedEntries [] om)
              +:+ LF
          end.
Proof.
  destruct om as [m|]; cbn [from_option]; [|by rewrite append_nil_r].
  destruct (Nat.ltb_spec 0 (size m)) as [Hpos|Hz].
  - destruct (sortedEntries m) as [|kv kvs] eqn:Hse.
    { apply (proj1 (sortedEntries_nil _)) in Hse. lia. }
    rewrite <- Hse, formatInventoryVariables_eq. by rewrite !append_assoc.
  - assert (sortedEntries m = []) as -> by (apply sortedEntries_nil; lia).
    by rewrite append_nil_r.
Qed.

Lemma renderGroup_eq st b g :
  renderGroup isPrintWide st b g = b +:+ renderSection (sectionOf st g).
Proof.
  unfold renderGroup, renderSection, sectionOf. cbn [heading hostLines vars children].
  rewrite children_block, vars_block, foldl_lines.
  by rewrite !append_assoc.
Qed.

Lemma foldl_renderGroup st b names :
  foldl (renderGroup isPrintWide st) b names
  = b +:+ renderDocument (sectionOf st <$> names).
Proof.
  revert b. induction names as [|g names IH]; intros b; cbn [foldl fmap list_fmap renderDocument].
  - by rewrite append_nil_r.
  - rewrite IH, renderGroup_eq. by rewrite append_assoc.
Qed.

(** The text that [buildInventoryFileContent] returns is the rendering of
    [document], and its diagnostics are those of the two passes. *)
Lemma buildInventoryFileContent_eq hosts groups :
  buildInventoryFileContent isPrintWide hosts groups
  = (renderDocument (document hosts groups), diags (collect hosts groups)).
Proof.
  unfold buildInventoryFileContent, document, collect. fold initial.
  by rewrite foldl_renderGroup.
Qed.

Lemma attach_fold line gs st :
  let st' := foldl (attach line) st gs in
  diags st' = diags st /\ groupVars st' = groupVars st /\
  groupChildren st' = groupChildren st /\
  groupNames st' = groupNames st ∪ list_to_set (filter (fun g => g ≠ EmptyString) gs) /\
  forall g, default [] (groupHosts st' !! g)
            = default [] (groupHosts st !! g)
              ++ ((fun _ => line) <$> filter (fun x => x = g)
                                        (filter (fun g => g ≠ EmptyString) gs)).
Proof.
  revert st. induction gs as [|x gs IH]; intros st; cbn zeta; cbn [foldl].
  { rewrite !filter_nil. cbn. split_and!; try done; [set_solver|].
    intros g. by rewrite app_nil_r. }
  destruct (IH (attach line st x)) as (Hd & Hv & Hc & Hn & Hh).
  rewrite Hd, Hv, Hc, Hn. unfold attach at 1 2 3 4.
  case_bool_decide as Hx.
  - rewrite filter_cons_False by (intros ?; done).
    split_and!; try done. intros g. rewrite Hh. unfold attach. by rewrite bool_decide_true.
  - rewrite filter_cons_True by done. cbn [diags groupVars groupChildren groupNames].
    split_and!; try done; [set_solver|].
    intros g. rewrite Hh. unfold attach at 1. rewrite bool_decide_false by done.
    cbn [groupHosts].
    destruct (decide (x = g)) as [->|Hne].
    + rewrite lookup_insert_eq. rewrite filter_cons_True by done.
      cbn [from_option id fmap list_fmap]. by rewrite <- app_assoc.
    + rewrite lookup_insert_ne by done. by rewrite filter_cons_False by done.
Qed.

Lemma hostPass_eq st h :
  hostPass isPrintWide st h =
  if bool_decide (Name h = EmptyString) then
    {| diags := diags st ++ [errorDiag "Inventory host is missing a name"];
       groupHosts := groupHosts st; groupVars := groupVars st;
       groupChildren := groupChildren st; groupNames := groupNames st |}
  else foldl (attach (hostLineOf h)) st (effectiveGroups h).
Proof.
  unfold hostPass, effectiveGroups. case_bool_decide; [done|].
  destruct (Groups h); done.
Qed.

Lemma contributions_cons g h hosts :
  contributions g (h :: hosts)
  = ((fun _ => hostLineOf h) <$> filter (fun x => x = g) (memberships h))
    ++ contributions g hosts.
Proof. reflexivity. Qed.

Lemma contributions_app g hosts1 hosts2 :
  contributions g (hosts1 ++ hosts2) = contributions g hosts1 ++ contributions g hosts2.
Proof. apply bind_app. Qed.

Lemma hostPass_spec st h :
  let st' := hostPass isPrintWide st h in
  diags st' = diags st
              ++ (if decide (Name h = EmptyString)
                  then [errorDiag "Inventory host is missing a name"] else []) /\
  groupVars st' = groupVars st /\ groupChildren st' = groupChildren st /\
  groupNames st' = groupNames st ∪ list_to_set (memberships h) /\
  forall g, default [] (groupHosts st' !! g)
            = default [] (groupHosts st !! g) ++ contributions g [h].
Proof.
  cbn zeta. rewrite hostPass_eq.
  setoid_rewrite contributions_cons. unfold memberships.
  destruct (decide (Name h = EmptyString)) as [Hn|Hn].
  - rewrite bool_decide_true by done.
    cbn [diags groupVars groupChildren groupNames groupHosts].
    split_and!; try done; [set_solver|].
    intros g. by rewrite filter_nil, !app_nil_r.
  - rewrite bool_decide_false by done.
    destruct (attach_fold (hostLineOf h) (effectiveGroups h) st) as (Hd & Hv & Hc & Hnm & Hh).
    rewrite Hd, Hv, Hc, Hnm. rewrite app_nil_r. split_and!; try done.
    intros g. rewrite Hh. unfold contributions. cbn. by rewrite app_nil_r.
Qed.

Lemma hosts_fold hosts st :
  let st' := foldl (hostPass isPrintWide) st hosts in
  groupVars st' = groupVars st /\ groupChildren st' = groupChildren st /\
  groupNames st' = groupNames st ∪ list_to_set (hosts ≫= memberships) /\
  forall g, default [] (groupHosts st' !! g)
            = default [] (groupHosts st !! g) ++ contributions g hosts.
Proof.
  revert st. induction hosts as [|h hosts IH]; intros st; cbn zeta; cbn [foldl].
  { cbn. split_and!; try done; [set_solver|]. intros g. by rewrite app_nil_r. }
  destruct (IH (hostPass isPrintWide st h)) as (Hv & Hc & Hn & Hh).
  destruct (hostPass_spec st h) as (_ & Hv1 & Hc1 & Hn1 & Hh1).
  rewrite Hv, Hc, Hn, Hv1, Hc1, Hn1. split_and!; try done.
  - change ((h :: hosts) ≫= memberships) with (memberships h ++ (hosts ≫= memberships)).
    rewrite list_to_set_app_L. set_solver.
  - intros g. rewrite Hh, Hh1. rewrite (contributions_cons g h hosts).
    rewrite (contributions_cons g h []). unfold contributions at 2. cbn [mbind list_bind].
    by rewrite app_nil_r, app_assoc.
Qed.

Lemma groupPass_spec st grp :
  let st' := groupPass st grp in
  groupHosts st' = groupHosts st /\
  groupNames st' = groupNames st ∪ list_to_set (declared [grp]) /\
  (forall g m, groupVars st' !! g = Some m ->
     groupVars st !! g = Some m \/
     (GroupName grp = g /\ GroupVariables grp = m /\ size m ≠ 0%nat)) /\
  (forall g c, groupChildren st' !! g = Some c ->
     groupChildren st !! g = Some c \/
     (GroupName grp = g /\ Children grp = c /\ c ≠ [])).
Proof.
  cbn zeta. unfold groupPass, declared. cbn [fmap list_fmap].
  case_bool_decide as Hname; cbn [groupHosts groupNames groupVars groupChildren].
  - rewrite filter_cons_False by (intros ?; done).
    split_and!; try done; [set_solver|auto|auto].
  - rewrite filter_cons_True by done. split_and!; try done; [set_solver| |].
    + intros g m Hg.
      destruct (Nat.ltb_spec 0 (size (GroupVariables grp))); [|by left].
      destruct (decide (GroupName grp = g)) as [<-|Hne].
      * rewrite lookup_insert_eq in Hg. injection Hg as <-. right. split_and!; try done. lia.
      * rewrite lookup_insert_ne in Hg by done. by left.
    + intros g c Hg.
      destruct (Nat.ltb_spec 0 (length (Children grp))) as [Hlen|]; [|by left].
      destruct (decide (GroupName grp = g)) as [<-|Hne].
      * rewrite lookup_insert_eq in Hg. injection Hg as <-. right. split_and!; try done.
        intros E. rewrite E in Hlen. cbn in Hlen. lia.
      * rewrite lookup_insert_ne in Hg by done. by left.
Qed.

Lemma groups_fold groups st :
  let st' := foldl groupPass st groups in
  groupHosts st' = groupHosts st /\
  groupNames st' = groupNames st ∪ list_to_set (declared groups) /\
  (forall g m, groupVars st' !! g = Some m ->
     groupVars st !! g = Some m \/
     exists grp, grp ∈ groups /\ GroupName grp = g /\ GroupVariables grp = m /\
                 size m ≠ 0%nat) /\
  (forall g c, groupChildren st' !! g = Some c ->
     groupChildren st !! g = Some c \/
     exists grp, grp ∈ groups /\ GroupName grp = g /\ Children grp = c /\ c ≠ []).
Proof.
  revert st. induction groups as [|grp groups IH]; intros st; cbn zeta; cbn [foldl].
  { unfold declared. cbn. split_and!; try done; [set_solver|auto|auto]. }
  destruct (IH (groupPass st grp)) as (Hh & Hn & Hv & Hc).
  destruct (groupPass_spec st grp) as (Hh1 & Hn1 & Hv1 & Hc1).
  rewrite Hh, Hn, Hh1, Hn1.
  change (declared (grp :: groups)) with (declared ([grp] ++ groups)).
  unfold declared. rewrite fmap_app, filter_app, list_to_set_app_L.
  split_and!; try done; [set_solver| |].
  - intros g m Hg. destruct (Hv g m Hg) as [Hst|(grp' & ? & ?)].
    + destruct (Hv1 g m Hst) as [?|?]; [by left|].
      right. exists grp. split; [by apply elem_of_cons; left|done].
    + right. exists grp'. split; [by apply elem_of_cons; right|done].
  - intros g c Hg. destruct (Hc g c Hg) as [Hst|(grp' & ? & ?)].
    + destruct (Hc1 g c Hst) as [?|?]; [by left|].
      right. exists grp. split; [by apply elem_of_cons; left|done].
    + right. exists grp'. split; [by apply elem_of_cons; right|done].
Qed.

Lemma collect_spec hosts groups :
  let st := collect hosts groups in
  groupNames st = list_to_set (declared groups) ∪ list_to_set (hosts ≫= memberships) /\
  (forall g, default [] (groupHosts st !! g) = contributions g hosts) /\
  groupVars st = groupVars (declare groups) /\
  groupChildren st = groupChildren (declare groups).
Proof.
  cbn zeta. unfold collect. fold (declare groups).
  destruct (hosts_fold hosts (declare groups)) as (Hv & Hc & Hn & Hh).
  destruct (groups_fold groups initial) as (Hh0 & Hn0 & _). fold (declare groups) in *.
  rewrite Hv, Hc, Hn, Hn0. split_and!; try done; [set_solver|].
  intros g. rewrite Hh, Hh0. cbn [initial groupHosts]. by rewrite lookup_empty.
Qed.

Lemma declare_vars groups g m :
  groupVars (declare groups) !! g = Some m ->
  exists grp, grp ∈ groups /\ GroupName grp = g /\ GroupVariables grp = m /\ size m ≠ 0%nat.
Proof.
  intros H. destruct (groups_fold groups initial) as (_ & _ & Hv & _).
  destruct (Hv g m H) as [Hi|?]; [|done]. cbn in Hi. by rewrite lookup_empty in Hi.
Qed.

Lemma declare_children groups g c :
  groupChildren (declare groups) !! g = Some c ->
  exists grp, grp ∈ groups /\ GroupName grp = g /\ Children grp = c /\ c ≠ [].
Proof.
  intros H. destruct (groups_fold groups initial) as (_ & _ & _ & Hc).
  destruct (Hc g c H) as [Hi|?]; [|done]. cbn in Hi. by rewrite lookup_empty in Hi.
Qed.

Lemma elem_of_document s hosts groups :
  s ∈ document hosts groups <->
  exists g, g ∈ groupNames (collect hosts groups) /\ s = sectionOf (collect hosts groups) g.
Proof.
  unfold document. rewrite list_elem_of_fmap.
  setoid_rewrite sort_elem_of. setoid_rewrite elem_of_elements. naive_solver.
Qed.

Lemma headings_document hosts groups :
  heading <$> document hosts groups
  = sort.Strings (elements (groupNames (collect hosts groups))).
Proof.
  unfold document. rewrite <- list_fmap_compose.
  rewrite <- (list_fmap_id (sort.Strings _)) at 2. by apply list_fmap_ext.
Qed.

Lemma sectionOf_collect hosts groups g :
  sectionOf (collect hosts groups) g
  = {| heading := g;
       hostLines := sort.Strings (contributions g hosts);
       vars := from_option sortedEntries [] (groupVars (declare groups) !! g);
       children := sort.Strings (default [] (groupChildren (declare groups) !! g)) |}.
Proof.
  destruct (collect_spec hosts groups) as (_ & Hh & Hv & Hc).
  unfold sectionOf. by rewrite Hh, Hv, Hc.
Qed.

Lemma elem_of_groupNames g hosts groups :
  g ∈ groupNames (collect hosts groups) <->
  g ∈ declared groups \/ exists h, h ∈ hosts /\ g ∈ memberships h.
Proof.
  destruct (collect_spec hosts groups) as (-> & _).
  rewrite elem_of_union, !elem_of_list_to_set, list_elem_of_bind. naive_solver.
Qed.

Lemma elem_of_sortedEntries m k v : (k, v) ∈ sortedEntries m <-> m !! k = Some v.
Proof.
  unfold sortedEntries, mapKeys, at_. rewrite list_elem_of_fmap. split.
  - intros (k' & [= -> ->] & Hk). rewrite sort_elem_of in Hk.
    apply list_elem_of_fmap in Hk as ([k'' v'] & -> & Hkv).
    apply elem_of_map_to_list in Hkv. cbn. by rewrite Hkv.
  - intros Hk. exists k. rewrite Hk. split; [done|]. rewrite sort_elem_of.
    apply list_elem_of_fmap. exists (k, v). split; [done|]. by apply elem_of_map_to_list.
Qed.

Lemma sortedEntries_keys m : (sortedEntries m).*1 = sort.Strings (mapKeys m).
Proof.
  unfold sortedEntries. rewrite <- list_fmap_compose.
  rewrite <- (list_fmap_id (sort.Strings _)) at 2. by apply list_fmap_ext.
Qed.

Lemma NoDup_mapKeys {V} (m : gmap string V) : NoDup (mapKeys m).
Proof. apply NoDup_fst_map_to_list. Qed.

Lemma NoDup_sort l : NoDup l -> NoDup (sort.Strings l).
Proof. intros H. by rewrite sort_Permutation. Qed.

Lemma children_declared groups g :
  sort.Strings (default [] (groupChildren (declare groups) !! g)) ≠ [] ->
  exists grp, grp ∈ groups /\ GroupName grp = g /\
              sort.Strings (default [] (groupChildren (declare groups) !! g))
              ≡ₚ Children grp.
Proof.
  destruct (groupChildren (declare groups) !! g) as [c|] eqn:Hcg; [|done].
  intros _. destruct (declare_children groups g c Hcg) as (grp & ? & ? & <- & ?).
  exists grp. split_and!; try done. apply sort_Permutation.
Qed.

Lemma vars_declared groups g :
  from_option sortedEntries [] (groupVars (declare groups) !! g) ≠ [] ->
  exists grp, grp ∈ groups /\ GroupName grp = g /\
              forall k v, (k, v) ∈ from_option sortedEntries []
                                     (groupVars (declare groups) !! g)
                          <-> GroupVariables grp !! k = Some v.
Proof.
  destruct (groupVars (declare groups) !! g) as [m|] eqn:Hm; [|done].
  intros _. destruct (declare_vars groups g m Hm) as (grp & ? & ? & <- & ?).
  exists grp. split_and!; try done. intros k v. apply elem_of_sortedEntries.
Qed.

Lemma memberships_named h :
  Name h ≠ EmptyString ->
  memberships h = filter (fun g => g ≠ EmptyString) (effectiveGroups h).
Proof. intros. unfold memberships. by rewrite decide_False. Qed.

Lemma filter_heading_absent st g names :
  g ∉ names -> filter (fun s => heading s = g) (sectionOf st <$> names) = [].
Proof.
  induction names as [|x names IH]; intros Hg; [done|].
  apply not_elem_of_cons in Hg as [Hne Hg]. cbn [fmap list_fmap].
  rewrite filter_cons_False by (cbn; congruence). by apply IH.
Qed.

Lemma filter_heading_once st g names :
  NoDup names -> g ∈ names ->
  length (filter (fun s => heading s = g) (sectionOf st <$> names)) = 1%nat.
Proof.
  induction 1 as [|x names Hx Hnd IH]; intros Hg; [by apply elem_of_nil in Hg|].
  cbn [fmap list_fmap]. apply elem_of_cons in Hg as [->|Hg].
  - rewrite filter_cons_True by done. cbn [length].
    by rewrite filter_heading_absent.
  - rewrite filter_cons_False; [by apply IH|]. cbn. intros ->. done.
Qed.

Lemma hostPass_dropped st h :
  Name h ≠ EmptyString -> Groups h ≠ [] -> Forall (fun g => g = EmptyString) (Groups h) ->
  hostPass isPrintWide st h = st.
Proof.
  intros Hn Hne Hall. rewrite hostPass_eq, bool_decide_false by done.
  unfold effectiveGroups. destruct (Groups h) as [|g gs] eqn:Hg; [done|].
  clear Hne Hg. induction Hall as [|x l -> Hl IH]; [done|]. cbn [foldl]. exact IH.
Qed.

(** ** Lemmas on the two expanders and the fallback host *)

Lemma Itoa_decimal i :
  Z.of_int <$> NilZero.int_of_string (strconv.Itoa i) = Some i.
Proof.
  unfold strconv.Itoa. rewrite NilZero.isi.
  - cbn. by rewrite DecimalZ.of_to.
  - intros H. assert (i = 0) as ->.
    { rewrite <- (DecimalZ.of_to i), H. reflexivity. }
    discriminate H.
  - intros H. assert (i = 0) as ->.
    { rewrite <- (DecimalZ.of_to i), H. reflexivity. }
    discriminate H.
Qed.

Lemma assertSlice_not_list v : (forall l, v ≠ VList l) -> assertSlice (Some v) = ([], false).
Proof. intros H. destruct v; try done. by destruct (H l). Qed.

Lemma assertMap_not_map v : (forall m, v ≠ VMap m) -> assertMap (Some v) = (∅, false).
Proof. intros H. destruct v; try done. by destruct (H m). Qed.

Lemma expandHost_groups_ill acc m v :
  (forall l, v ≠ VList l) ->
  expandHost acc (VMap (<["groups" := v]> m)) = expandHost acc (VMap (delete "groups" m)).
Proof.
  intros Hv. unfold expandHost. destruct acc as [hosts ds]. cbn [assertMap negb].
  rewrite lookup_insert_eq, lookup_delete_eq, (assertSlice_not_list v Hv).
  by rewrite !lookup_insert_ne, !lookup_delete_ne by done.
Qed.

Lemma expandHost_variables_ill acc m v :
  (forall m', v ≠ VMap m') ->
  expandHost acc (VMap (<["variables" := v]> m))
  = expandHost acc (VMap (delete "variables" m)).
Proof.
  intros Hv. unfold expandHost. destruct acc as [hosts ds]. cbn [assertMap negb].
  rewrite lookup_insert_eq, lookup_delete_eq, (assertMap_not_map v Hv).
  by rewrite !lookup_insert_ne, !lookup_delete_ne by done.
Qed.

Lemma expandGroup_children_ill acc m v :
  (forall l, v ≠ VList l) ->
  expandGroup acc (VMap (<["children" := v]> m))
  = expandGroup acc (VMap (delete "children" m)).
Proof.
  intros Hv. unfold expandGroup. destruct acc as [groups ds]. cbn [assertMap negb].
  rewrite lookup_insert_eq, lookup_delete_eq, (assertSlice_not_list v Hv).
  by rewrite !lookup_insert_ne, !lookup_delete_ne by done.
Qed.

Lemma expandGroup_variables_ill acc m v :
  (forall m', v ≠ VMap m') ->
  expandGroup acc (VMap (<["variables" := v]> m))
  = expandGroup acc (VMap (delete "variables" m)).
Proof.
  intros Hv. unfold expandGroup. destruct acc as [groups ds]. cbn [assertMap negb].
  rewrite lookup_insert_eq, lookup_delete_eq, (assertMap_not_map v Hv).
  by rewrite !lookup_insert_ne, !lookup_delete_ne by done.
Qed.

Lemma expandHost_name_only name :
  name ≠ EmptyString ->
  expandHost ([], []) (VMap {["name" := VString name]})
  = ([{| Name := name; Groups := []; Variables := ∅ |}], []).
Proof.
  intros Hn. unfold expandHost. cbn [assertMap negb].
  rewrite lookup_singleton_eq. cbn [assertString negb orb].
  rewrite bool_decide_false by done.
  by rewrite !lookup_singleton_ne by done.
Qed.

Lemma expandGroup_name_only name :
  name ≠ EmptyString ->
  expandGroup ([], []) (VMap {["name" := VString name]})
  = ([{| GroupName := name; Children := []; GroupVariables := ∅ |}], []).
Proof.
  intros Hn. unfold expandGroup. cbn [assertMap negb].
  rewrite lookup_singleton_eq. cbn [assertString negb orb].
  rewrite bool_decide_false by done.
  by rewrite !lookup_singleton_ne by done.
Qed.

(** ** The claims *)

(** C1, as the code behaves: when [os.CreateTemp] fails, the error
    diagnostic is appended, but the next statement calls [Name] on the nil
    file, so [BuildPlaybookInventory] panics: it returns neither a path nor
    the diagnostics, and has touched nothing outside. *)
Theorem createTemp_failure_panics fs inventoryDest hostname port hostgroups
  inventoryHosts inventoryGroups e :
  os.CreateTemp fs EmptyString inventoryDest = ((None, Some e), []) ->
  BuildPlaybookInventory isPrintWide fs inventoryDest hostname port hostgroups
    inventoryHosts inventoryGroups
  = (Panicked "runtime error: invalid memory address or nil pointer dereference", []).
Proof.
  intros H. unfold BuildPlaybookInventory. rewrite H. reflexivity.
Qed.

(** C2: for the group [web] with the variable [ansible_user = deploy] and
    the host [node1] in [web], the content builder returns the heading, the
    host line, a blank line, the [:vars] heading, the quoted variable line
    and a blank line, and no diagnostic. *)
Theorem scenario_web_node1 :
  buildInventoryFileContent isPrintWide
    [{| Name := "node1"; Groups := ["web"]; Variables := ∅ |}]
    [{| GroupName := "web"; Children := [];
        GroupVariables := {["ansible_user" := "deploy"]} |}]
  = ("[web]" +:+ LF +:+ "node1" +:+ LF +:+ LF +:+
     "[web:vars]" +:+ LF +:+ "ansible_user=" +:+ DQ +:+ "deploy" +:+ DQ +:+ LF +:+ LF,
     []).
Proof. vm_compute. reflexivity. Qed.

Lemma InterfaceToString_fold arr result ds :
  foldl convertValue (result, ds) arr
  = (result ++ ((fun v => (assertString (Some v)).1) <$> arr),
     ds ++ ((fun _ => errorDiag "Error: couldn't parse value to string!")
              <$> filter (fun v => (assertString (Some v)).2 = false) arr)).
Proof.
  revert result ds. induction arr as [|v arr IH]; intros result ds.
  { cbn. by rewrite !app_nil_r. }
  cbn [foldl]. unfold convertValue at 2.
  destruct (assertString (Some v)) as [tmpVal ok] eqn:Hv.
  rewrite IH. cbn [fmap list_fmap]. rewrite Hv. cbn [fst].
  rewrite <- !app_assoc. f_equal.
  destruct ok; cbn [negb].
  - rewrite filter_cons_False by (rewrite Hv; cbn; congruence). done.
  - rewrite filter_cons_True by (by rewrite Hv). by rewrite <- app_assoc.
Qed.

(** C3: the text returned is the rendering of [document]: one section per
    group name, the names ascending and without repetition; in every
    section the host lines (the lines of the hosts of that group), the
    variable keys and the child names are ascending; [renderSection] ends every block with a blank line and prints
    a [:vars] or [:children] block only for a non-empty list, which then
    holds the variables, respectively the children, of a group record of
    that name.  Hosts [b] and [a] of group [g] are listed as [a], then [b]. *)
Theorem rendered_output_sorted hosts groups :
  let doc := document hosts groups in
  (buildInventoryFileContent isPrintWide hosts groups).1 = renderDocument doc /\
  Sorted String.le (heading <$> doc) /\ NoDup (heading <$> doc) /\
  (forall s, s ∈ doc ->
     Sorted String.le (hostLines s) /\
     hostLines s ≡ₚ contributions (heading s) hosts /\
     Sorted String.le (vars s).*1 /\ NoDup (vars s).*1 /\
     Sorted String.le (children s) /\
     (vars s ≠ [] ->
      exists grp, grp ∈ groups /\ GroupName grp = heading s /\
                  forall k v, (k, v) ∈ vars s <-> GroupVariables grp !! k = Some v) /\
     (children s ≠ [] ->
      exists grp, grp ∈ groups /\ GroupName grp = heading s /\
                  children s ≡ₚ Children grp)) /\
  (buildInventoryFileContent isPrintWide [namedHost "b" ["g"]; namedHost "a" ["g"]] []).1
  = "[g]" +:+ LF +:+ "a" +:+ LF +:+ "b" +:+ LF +:+ LF.
Proof.
  cbn zeta. rewrite buildInventoryFileContent_eq. split; [done|].
  rewrite headings_document.
  split; [apply sort_Sorted|]. split; [apply NoDup_sort, NoDup_elements|].
  split; [|by vm_compute].
  intros s (g & Hg & ->)%elem_of_document. rewrite sectionOf_collect.
  cbn [heading hostLines vars children].
  split; [apply sort_Sorted|]. split; [apply sort_Permutation|].
  split_and!; [| |apply sort_Sorted|apply vars_declared|apply children_declared].
  - destruct (groupVars (declare groups) !! g) as [m|]; cbn [from_option];
      [|constructor]. rewrite sortedEntries_keys. apply sort_Sorted.
  - destruct (groupVars (declare groups) !! g) as [m|]; cbn [from_option];
      [|constructor]. rewrite sortedEntries_keys. apply NoDup_sort, NoDup_mapKeys.
Qed.

(** C4: a host with a name is never left out.  With an empty [Groups] its
    line stands under the heading [default]; with [Groups = [web]] it stands
    under [web], and every other section of the document is a section of the
    document built without this host: the host adds nothing elsewhere. *)
Theorem default_group_fallback pre post h groups :
  Name h ≠ EmptyString ->
  let doc := document (pre ++ h :: post) groups in
  let line := formatInventoryHostLine isPrintWide (Name h) (Variables h) in
  (buildInventoryFileContent isPrintWide (pre ++ h :: post) groups).1 = renderDocument doc /\
  (Groups h = [] ->
   exists s, s ∈ doc /\ heading s = "default" /\ line ∈ hostLines s) /\
  (Groups h = ["web"] ->
   (exists s, s ∈ doc /\ heading s = "web" /\ line ∈ hostLines s) /\
   (forall s, s ∈ doc -> heading s ≠ "web" -> s ∈ document (pre ++ post) groups)).
Proof.
  intros Hname. cbn zeta. rewrite buildInventoryFileContent_eq. split; [done|].
  assert (forall g, Groups h = [] \/ Groups h = [g] -> g ≠ EmptyString ->
            (g = "default" \/ Groups h ≠ []) ->
            memberships h = [g]) as Hmem.
  { intros g Hg Hne Hd. rewrite memberships_named by done. unfold effectiveGroups.
    destruct Hg as [Hg|Hg]; rewrite Hg.
    - destruct Hd as [->|?]; [|done]. done.
    - rewrite filter_cons_True by done. done. }
  assert (forall g, memberships h = [g] ->
            exists s, s ∈ document (pre ++ h :: post) groups /\ heading s = g /\
                      hostLineOf h ∈ hostLines s) as Hunder.
  { intros g Hg. exists (sectionOf (collect (pre ++ h :: post) groups) g).
    split; [|split; [done|]].
    - apply elem_of_document. exists g. split; [|done].
      apply elem_of_groupNames. right. exists h. split; [|rewrite Hg; by left].
      apply elem_of_app. right. by left.
    - rewrite sectionOf_collect. cbn [hostLines]. rewrite sort_elem_of.
      rewrite contributions_app, contributions_cons, Hg.
      rewrite filter_cons_True by done. cbn [filter list_filter fmap list_fmap].
      rewrite !elem_of_app. right. left. by left. }
  split.
  - intros Hg. apply Hunder. apply Hmem; auto.
  - intros Hg. split; [apply Hunder, Hmem; auto; by right; rewrite Hg|].
    assert (memberships h = ["web"]) as Hm
      by (apply Hmem; auto; by right; rewrite Hg).
    intros s (g & Hin & ->)%elem_of_document Hne. change (g ≠ "web") in Hne.
    apply elem_of_document. exists g. split.
    + apply elem_of_groupNames. apply elem_of_groupNames in Hin as [?|(h' & Hh' & Hgm)];
        [by left|]. right.
      apply elem_of_app in Hh' as [?|[->|?]%elem_of_cons].
      * exists h'. split; [|done]. apply elem_of_app. by left.
      * rewrite Hm in Hgm. apply list_elem_of_singleton in Hgm. done.
      * exists h'. split; [|done]. apply elem_of_app. by right.
    + rewrite !sectionOf_collect. f_equal. f_equal.
      rewrite !contributions_app, contributions_cons, Hm.
      rewrite filter_cons_False by congruence. done.
Qed.

(** C5, amended: a non-empty group name that occurs in the [Groups] of a
    host with a name, or that a group record declares, has exactly one
    section in the document; when no group record has that name, the
    section has neither a [:vars] nor a [:children] block. *)
Theorem one_heading_per_group hosts groups g :
  g ≠ EmptyString ->
  (exists h, h ∈ hosts /\ Name h ≠ EmptyString /\ g ∈ Groups h) \/
  (exists grp, grp ∈ groups /\ GroupName grp = g) ->
  let doc := document hosts groups in
  (buildInventoryFileContent isPrintWide hosts groups).1 = renderDocument doc /\
  length (filter (fun s => heading s = g) doc) = 1%nat /\
  ((forall grp, grp ∈ groups -> GroupName grp ≠ g) ->
   forall s, s ∈ doc -> heading s = g -> vars s = [] /\ children s = []).
Proof.
  intros Hg Hsrc. cbn zeta. rewrite buildInventoryFileContent_eq. split; [done|]. split.
  - unfold document. apply filter_heading_once; [apply NoDup_sort, NoDup_elements|].
    rewrite sort_elem_of, elem_of_elements. apply elem_of_groupNames.
    destruct Hsrc as [(h & Hh & Hn & Hgh)|(grp & Hgrp & <-)].
    + right. exists h. split; [done|]. rewrite memberships_named by done.
      apply list_elem_of_filter. split; [done|]. unfold effectiveGroups.
      destruct (Groups h); [by apply elem_of_nil in Hgh|done].
    + left. unfold declared. apply list_elem_of_filter. split; [done|].
      apply list_elem_of_fmap. by exists grp.
  - intros Hno s (g' & _ & ->)%elem_of_document Hh. change (g' = g) in Hh. subst g'.
    rewrite sectionOf_collect. cbn [vars children]. split.
    + destruct (groupVars (declare groups) !! g) as [m|] eqn:Hm; [|done].
      destruct (declare_vars groups g m Hm) as (grp & Hin & Heq & _).
      by destruct (Hno grp Hin).
    + destruct (groupChildren (declare groups) !! g) as [c|] eqn:Hc; [|done].
      destruct (declare_children groups g c Hc) as (grp & Hin & Heq & _).
      by destruct (Hno grp Hin).
Qed.

(** C6, as the code behaves: [InterfaceToString] emits one error diagnostic
    per element that is not a string, but it appends the zero value of the
    failed assertion all the same: the result has one string per element of
    the input, the empty string for each element that is not a string. *)
Theorem InterfaceToString_keeps_failed arr :
  InterfaceToString arr
  = ((fun v => (assertString (Some v)).1) <$> arr,
     (fun _ => errorDiag "Error: couldn't parse value to string!")
       <$> filter (fun v => (assertString (Some v)).2 = false) arr) /\
  InterfaceToString [VString "web"; VInt 42]
  = (["web"; EmptyString], [errorDiag "Error: couldn't parse value to string!"]).
Proof.
  split; [|reflexivity]. unfold InterfaceToString. by rewrite InterfaceToString_fold.
Qed.

(** C7: a host line is the name followed by [ key=q] for every variable and
    a [:vars] block is one line [key=q] per variable, the keys ascending,
    where [q] is [strconv.Quote] of the value; and [strconv.Unquote] gives
    every value back from its quoted form, whatever bytes it holds. *)
Theorem variable_quoting_round_trip hostname (variables : gmap string string) :
  formatInventoryHostLine isPrintWide hostname variables
  = hostLine hostname (sortedEntries variables) /\
  formatInventoryVariables isPrintWide variables
  = unlines ((fun kv => kv.1 +:+ "=" +:+ strconv.Quote isPrintWide kv.2)
               <$> sortedEntries variables) /\
  (forall k v, (k, v) ∈ sortedEntries variables <-> variables !! k = Some v) /\
  (forall v, strconv.Unquote (strconv.Quote isPrintWide v) = Some v).
Proof.
  split; [apply formatInventoryHostLine_eq|].
  split; [apply formatInventoryVariables_eq|].
  split; [apply elem_of_sortedEntries|]. apply Unquote_Quote.
Qed.

(** C8: given no host, and a temporary file [f] that could be created,
    [BuildPlaybookInventory] writes to [f] the inventory of the single host
    [syntheticHost]: named by the fallback host name, in the given groups or
    in [default] when there are none, with the variable [ansible_port]
    holding the decimal digits of the port unless the port is [-1].  For
    [10.0.0.5], port [22] and no group, the section [default] holds exactly
    the line [10.0.0.5 ansible_port="22"]. *)
Theorem default_host_synthesized fs inventoryDest hostname port hostgroups groups f :
  os.CreateTemp fs EmptyString inventoryDest = ((Some f, None), [os.Created f]) ->
  let host := syntheticHost hostname port hostgroups in
  let built := buildInventoryFileContent isPrintWide [host] groups in
  let written := os.WriteString fs (Some f) built.1 in
  BuildPlaybookInventory isPrintWide fs inventoryDest hostname port hostgroups [] groups
  = (Returned (os.fname f,
               (InterfaceToString hostgroups).2 ++ built.2
               ++ match written.1 with
                  | Some e => [errorDiag ("Fail to write inventory: " +:+ e)]
                  | None => []
                  end),
     [os.Created f; os.Logged ("Inventory " +:+ os.fname f +:+ " was created")]
     ++ written.2 ++ [os.Closed f]) /\
  (port = -1 -> Variables host = ∅) /\
  (port ≠ -1 ->
   Variables host = {["ansible_port" := strconv.Itoa port]} /\
   Z.of_int <$> NilZero.int_of_string (strconv.Itoa port) = Some port) /\
  ((InterfaceToString hostgroups).1 = [] -> Groups host = ["default"]) /\
  (hostname = "10.0.0.5" -> port = 22 -> hostgroups = [] ->
   exists s, s ∈ document [host] groups /\ heading s = "default" /\
             hostLines s = ["10.0.0.5 ansible_port=" +:+ DQ +:+ "22" +:+ DQ]).
Proof.
  intros Hf. cbn zeta. split; [|split; [|split; [|split]]].
  - unfold BuildPlaybookInventory. rewrite Hf. cbn [os.Name length Nat.eqb app].
    unfold syntheticHost.
    destruct (InterfaceToString hostgroups) as [names ds]. cbn [fst snd].
    assert ((if (length names =? 0)%nat then names ++ [DefaultHostGroup] else names)
            = match names with [] => [DefaultHostGroup] | s :: l => s :: l end) as ->.
    { by destruct names. }
    assert ((if negb (port =? -1)
             then <["ansible_port" := strconv.Itoa port]> (∅ : gmap string string)
             else ∅)
            = if decide (port = -1) then ∅ else {["ansible_port" := strconv.Itoa port]})
      as ->.
    { destruct (Z.eqb_spec port (-1)); [by rewrite decide_True|by rewrite decide_False]. }
    destruct (buildInventoryFileContent _ _ _) as [content buildDiags]. cbn [fst snd].
    destruct (os.WriteString fs (Some f) content) as [werr wrote]. cbn [fst snd os.Close].
    destruct werr; cbn [app]; by rewrite <- ?app_assoc, ?app_nil_r.
  - intros ->. done.
  - intros Hp. unfold syntheticHost. cbn [Variables]. rewrite decide_False by done.
    split; [done|]. apply Itoa_decimal.
  - intros Hn. unfold syntheticHost. cbn [Groups]. by rewrite Hn.
  - intros -> -> ->.
    exists (sectionOf
              (collect [syntheticHost "10.0.0.5" 22 []] groups) "default").
    split; [|split; [done|]].
    + apply elem_of_document. exists "default". split; [|done].
      apply elem_of_groupNames. right. eexists. split; [by left|]. by left.
    + rewrite sectionOf_collect. cbn [hostLines]. by vm_compute.
Qed.

(** C9: a host with a name whose [Groups] is not empty but holds empty
    strings only leaves no trace: text and diagnostics are those of the
    same input without this host. *)
Theorem empty_group_names_drop_host pre post h groups :
  Name h ≠ EmptyString -> Groups h ≠ [] -> Forall (fun g => g = EmptyString) (Groups h) ->
  buildInventoryFileContent isPrintWide (pre ++ h :: post) groups
  = buildInventoryFileContent isPrintWide (pre ++ post) groups.
Proof.
  intros Hn Hne Hall. unfold buildInventoryFileContent.
  rewrite !foldl_app. cbn [foldl]. by rewrite hostPass_dropped.
Qed.

(** C10: in [ExpandInventoryHosts] and [ExpandInventoryGroups], a [groups]
    or [children] field that is not an array, and a [variables] field that
    is not a map, give the result of the entry without that field, within
    any list of entries; an entry with a name and such a field alone gives
    the record with the empty sequence and the empty map, and no
    diagnostic. *)
Theorem malformed_field_as_absent (pre post : list Value) (m : gmap string Value)
  (v : Value) (name : string) :
  ((forall l, v ≠ VList l) ->
   ExpandInventoryHosts (pre ++ VMap (<["groups" := v]> m) :: post)
   = ExpandInventoryHosts (pre ++ VMap (delete "groups" m) :: post) /\
   ExpandInventoryGroups (pre ++ VMap (<["children" := v]> m) :: post)
   = ExpandInventoryGroups (pre ++ VMap (delete "children" m) :: post) /\
   (name ≠ EmptyString ->
    ExpandInventoryHosts [VMap (<["groups" := v]> {["name" := VString name]})]
    = ([{| Name := name; Groups := []; Variables := ∅ |}], []) /\
    ExpandInventoryGroups [VMap (<["children" := v]> {["name" := VString name]})]
    = ([{| GroupName := name; Children := []; GroupVariables := ∅ |}], []))) /\
  ((forall m', v ≠ VMap m') ->
   ExpandInventoryHosts (pre ++ VMap (<["variables" := v]> m) :: post)
   = ExpandInventoryHosts (pre ++ VMap (delete "variables" m) :: post) /\
   ExpandInventoryGroups (pre ++ VMap (<["variables" := v]> m) :: post)
   = ExpandInventoryGroups (pre ++ VMap (delete "variables" m) :: post) /\
   (name ≠ EmptyString ->
    ExpandInventoryHosts [VMap (<["variables" := v]> {["name" := VString name]})]
    = ([{| Name := name; Groups := []; Variables := ∅ |}], []) /\
    ExpandInventoryGroups [VMap (<["variables" := v]> {["name" := VString name]})]
    = ([{| GroupName := name; Children := []; GroupVariables := ∅ |}], []))).
Proof.
  split; intros Hv; (split_and!; [| |intros Hn; split]).
  - unfold ExpandInventoryHosts. rewrite !foldl_app. cbn [foldl].
    by rewrite expandHost_groups_ill.
  - unfold ExpandInventoryGroups. rewrite !foldl_app. cbn [foldl].
    by rewrite expandGroup_children_ill.
  - unfold ExpandInventoryHosts. cbn [foldl].
    rewrite expandHost_groups_ill, delete_singleton_ne by done.
    by apply expandHost_name_only.
  - unfold ExpandInventoryGroups. cbn [foldl].
    rewrite expandGroup_children_ill, delete_singleton_ne by done.
    by apply expandGroup_name_only.
  - unfold ExpandInventoryHosts. rewrite !foldl_app. cbn [foldl].
    by rewrite expandHost_variables_ill.
  - unfold ExpandInventoryGroups. rewrite !foldl_app. cbn [foldl].
    by rewrite expandGroup_variables_ill.
  - unfold ExpandInventoryHosts. cbn [foldl].
    rewrite expandHost_variables_ill, delete_singleton_ne by done.
    by apply expandHost_name_only.
  - unfold ExpandInventoryGroups. cbn [foldl].
    rewrite expandGroup_variables_ill, delete_singleton_ne by done.
    by apply expandGroup_name_only.
Qed.

(** ** Further properties *)

Lemma hosts_diags hosts st :
  diags (foldl (hostPass isPrintWide) st hosts)
  = diags st ++ ((fun _ => errorDiag "Inventory host is missing a name")
                   <$> filter (fun h => Name h = EmptyString) hosts).
Proof.
  revert st. induction hosts as [|h hosts IH]; intros st; cbn [foldl].
  { by rewrite app_nil_r. }
  rewrite IH. destruct (hostPass_spec st h) as (-> & _).
  destruct (decide (Name h = EmptyString)).
  - rewrite filter_cons_True by done. by rewrite <- app_assoc.
  - rewrite filter_cons_False by done. by rewrite app_nil_r.
Qed.

Lemma groups_diags groups st :
  diags (foldl groupPass st groups)
  = diags st ++ ((fun _ => errorDiag "Inventory group is missing a name")
                   <$> filter (fun g => GroupName g = EmptyString) groups).
Proof.
  revert st. induction groups as [|g groups IH]; intros st; cbn [foldl].
  { by rewrite app_nil_r. }
  rewrite IH. unfold groupPass. case_bool_decide; cbn [diags].
  - rewrite filter_cons_True by done. by rewrite <- app_assoc.
  - by rewrite filter_cons_False by done.
Qed.

(** X1: the diagnostics of the content builder are one error for every
    group record without name, in input order, followed by one error for
    every host record without name; nothing else is reported. *)
Theorem builder_diagnostics hosts groups :
  (buildInventoryFileContent isPrintWide hosts groups).2
  = ((fun _ => errorDiag "Inventory group is missing a name")
       <$> filter (fun g => GroupName g = EmptyString) groups)
    ++ ((fun _ => errorDiag "Inventory host is missing a name")
          <$> filter (fun h => Name h = EmptyString) hosts).
Proof.
  rewrite buildInventoryFileContent_eq. cbn [snd]. unfold collect.
  by rewrite hosts_diags, groups_diags.
Qed.

(** X2: the headings of the document are exactly the non-empty group names
    that a group record declares or that a host with a name belongs to,
    the default group standing for an empty [Groups]. *)
Theorem headings_referenced_or_declared hosts groups g :
  g ∈ heading <$> document hosts groups <->
  g ≠ EmptyString /\
  ((exists grp, grp ∈ groups /\ GroupName grp = g) \/
   (exists h, h ∈ hosts /\ Name h ≠ EmptyString /\ g ∈ effectiveGroups h)).
Proof.
  rewrite headings_document, sort_elem_of, elem_of_elements, elem_of_groupNames.
  unfold declared, memberships. rewrite list_elem_of_filter, list_elem_of_fmap. split.
  - intros [[Hg (grp & -> & Hin)]|(h & Hin & Hm)].
    + split; [done|]. left. by exists grp.
    + destruct (decide (Name h = EmptyString)); [by apply elem_of_nil in Hm|].
      apply list_elem_of_filter in Hm as [Hg Hm]. split; [done|].
      right. by exists h.
  - intros [Hg [(grp & Hin & <-)|(h & Hin & Hn & Hm)]].
    + left. split; [done|]. by exists grp.
    + right. exists h. split; [done|]. rewrite decide_False by done.
      by apply list_elem_of_filter.
Qed.

Lemma ExpandInventoryHosts_named raw hosts ds :
  Forall (fun h => Name h ≠ EmptyString) hosts ->
  Forall (fun h => Name h ≠ EmptyString) (foldl expandHost (hosts, ds) raw).1.
Proof.
  revert hosts ds. induction raw as [|entry raw IH]; intros hosts ds Hhosts; [done|].
  cbn [foldl]. unfold expandHost at 2.
  destruct (assertMap (Some entry)) as [entryMap ok].
  destruct ok; cbn [negb]; [|by apply IH].
  destruct (assertString (entryMap !! "name")) as [name nameOK].
  destruct nameOK; cbn [negb orb]; [|by apply IH].
  case_bool_decide as Hname; [by apply IH|].
  destruct (assertSlice (entryMap !! "groups")) as [groupsRaw groupsSet].
  destruct (InterfaceToString _) as [groups groupDiags].
  destruct (assertMap (entryMap !! "variables")) as [varsRaw [|]].
  - destruct (mapInterfaceToStringMap varsRaw ∅) as [variables varDiags].
    apply IH. apply Forall_app. split; [done|]. by apply Forall_singleton.
  - apply IH. apply Forall_app. split; [done|]. by apply Forall_singleton.
Qed.




(** ** The conversion of variables *)

Lemma filter_none {A} (P : A -> Prop) `{!forall x, Decision (P x)} l :
  Forall (fun x => ~ P x) l -> filter P l = [].
Proof.
  induction 1 as [|x l Hx _ IH]; [done|]. by rewrite filter_cons_False.
Qed.

Lemma stringOf_assertString v :
  assertString (Some v) = (default EmptyString (stringOf v), bool_decide (is_Some (stringOf v))).
Proof. destruct v; done. Qed.

Lemma convertVariable_fold l target ds :
  NoDup l.*1 ->
  foldl convertVariable (target, ds) l
  = (omap stringOf (list_to_map l : gmap string Value) ∪ target,
     ds ++ ((fun kv => variableDiag kv.1) <$> filter (fun kv => stringOf kv.2 = None) l)).
Proof.
  revert target ds. induction l as [|[k0 v0] l IH]; intros target ds Hnd.
  { cbn. by rewrite omap_empty, (left_id_L ∅ (∪)), app_nil_r. }
  apply NoDup_cons in Hnd as [Hk0 Hnd]. cbn [foldl]. unfold convertVariable at 2.
  rewrite stringOf_assertString.
  assert (omap stringOf (list_to_map l : gmap string Value) !! k0 = None) as Hnone.
  { rewrite lookup_omap. by rewrite (not_elem_of_list_to_map_1 l k0). }
  rewrite list_to_map_cons.
  destruct (stringOf v0) as [s|] eqn:Hv0; cbn [default from_option bool_decide negb].
  - rewrite bool_decide_true by done. cbn [negb]. rewrite IH by done.
    rewrite (omap_insert_Some _ _ _ _ s) by done.
    rewrite filter_cons_False by (cbn; congruence).
    by rewrite <- insert_union_l, insert_union_r.
  - rewrite bool_decide_false by (by intros [??]). cbn [negb]. rewrite IH by done.
    rewrite omap_insert_None, delete_id by done.
    rewrite filter_cons_True by done. cbn [fmap list_fmap fst].
    by rewrite <- app_assoc.
Qed.

Lemma filter_map_to_list (P : string * Value -> Prop) `{!forall x, Decision (P x)}
  (m : gmap string Value) :
  filter P (map_to_list m) ≡ₚ map_to_list (filter P m).
Proof.
  apply NoDup_Permutation.
  - apply NoDup_filter, NoDup_map_to_list.
  - apply NoDup_map_to_list.
  - intros [k v]. rewrite list_elem_of_filter, !elem_of_map_to_list, map_lookup_filter_Some.
    tauto.
Qed.

(** X5: [mapInterfaceToStringMap] sets in the target the variables whose
    value is a string, leaves every other key of the target as it is, and
    reports one diagnostic, naming the variable, for every variable whose
    value is no string.  The diagnostics come in the order in which the
    entries are visited, which Go does not specify: they are stated up to
    their order. *)
Theorem variables_converted input target :
  let r := mapInterfaceToStringMap input target in
  r.1 = omap stringOf input ∪ target /\
  (forall k, r.1 !! k = match input !! k ≫= stringOf with
                        | Some s => Some s
                        | None => target !! k
                        end) /\
  r.2 ≡ₚ (fun kv => variableDiag kv.1)
           <$> map_to_list (filter (fun kv => stringOf kv.2 = None) input) /\
  length r.2 = size (filter (fun kv : string * Value => stringOf kv.2 = None) input).
Proof.
  cbn zeta. unfold mapInterfaceToStringMap.
  rewrite convertVariable_fold by apply NoDup_fst_map_to_list.
  rewrite list_to_map_to_list. cbn [fst snd app].
  split; [done|]. split.
  - intros k. rewrite lookup_union, lookup_omap.
    destruct (input !! k ≫= stringOf), (target !! k); done.
  - split.
    + by rewrite filter_map_to_list.
    + rewrite length_fmap, filter_map_to_list. apply length_map_to_list.
Qed.

Lemma mapInterfaceToStringMap_strings (m : gmap string string) :
  mapInterfaceToStringMap (VString <$> m) ∅ = (m, []).
Proof.
  unfold mapInterfaceToStringMap.
  rewrite convertVariable_fold by apply NoDup_fst_map_to_list.
  rewrite list_to_map_to_list, (right_id_L ∅ (∪)). f_equal.
  - apply map_eq. intros k. rewrite lookup_omap, lookup_fmap.
    by destruct (m !! k).
  - cbn [app]. rewrite filter_none; [done|].
    apply Forall_forall. intros [k v] Hkv%elem_of_map_to_list.
    apply lookup_fmap_Some in Hkv as (s & <- & _). done.
Qed.

(** ** The two expanders *)

Lemma InterfaceToString_strings l : InterfaceToString (VString <$> l) = (l, []).
Proof.
  unfold InterfaceToString. rewrite InterfaceToString_fold. cbn [app]. f_equal.
  - rewrite <- list_fmap_compose. rewrite <- (list_fmap_id l) at 2. by apply list_fmap_ext.
  - rewrite filter_none; [done|].
    apply Forall_forall. intros v (s & -> & _)%list_elem_of_fmap. done.
Qed.

Lemma expandHost_acc hosts ds entry :
  expandHost (hosts, ds) entry
  = (hosts ++ (expandHost ([], []) entry).1, ds ++ (expandHost ([], []) entry).2).
Proof.
  unfold expandHost.
  destruct (assertMap (Some entry)) as [entryMap ok].
  destruct ok; cbn [negb]; [|by rewrite app_nil_r].
  destruct (assertString (entryMap !! "name")) as [name nameOK].
  destruct (negb nameOK || bool_decide (name = EmptyString)); [by rewrite app_nil_r|].
  destruct (assertSlice (entryMap !! "groups")) as [groupsRaw groupsSet].
  destruct (InterfaceToString _) as [groups groupDiags].
  destruct (assertMap (entryMap !! "variables")) as [varsRaw [|]]; [|done].
  destruct (mapInterfaceToStringMap varsRaw ∅) as [variables varDiags].
  cbn [fst snd app]. by rewrite app_assoc.
Qed.

Lemma expandGroup_acc groups ds entry :
  expandGroup (groups, ds) entry
  = (groups ++ (expandGroup ([], []) entry).1, ds ++ (expandGroup ([], []) entry).2).
Proof.
  unfold expandGroup.
  destruct (assertMap (Some entry)) as [entryMap ok].
  destruct ok; cbn [negb]; [|by rewrite app_nil_r].
  destruct (assertString (entryMap !! "name")) as [name nameOK].
  destruct (negb nameOK || bool_decide (name = EmptyString)); [by rewrite app_nil_r|].
  destruct (assertSlice (entryMap !! "children")) as [childrenRaw childrenSet].
  destruct (InterfaceToString _) as [children childrenDiags].
  destruct (assertMap (entryMap !! "variables")) as [varsRaw [|]]; [|done].
  destruct (mapInterfaceToStringMap varsRaw ∅) as [variables varDiags].
  cbn [fst snd app]. by rewrite app_assoc.
Qed.

Lemma foldl_expandHost raw hosts ds :
  foldl expandHost (hosts, ds) raw
  = (hosts ++ (ExpandInventoryHosts raw).1, ds ++ (ExpandInventoryHosts raw).2).
Proof.
  unfold ExpandInventoryHosts. revert hosts ds.
  induction raw as [|entry raw IH]; intros hosts ds; cbn [foldl].
  { by rewrite !app_nil_r. }
  rewrite expandHost_acc, IH. destruct (expandHost ([], []) entry) as [h d].
  rewrite (IH h d). cbn [fst snd]. by rewrite !app_assoc.
Qed.

Lemma foldl_expandGroup raw groups ds :
  foldl expandGroup (groups, ds) raw
  = (groups ++ (ExpandInventoryGroups raw).1, ds ++ (ExpandInventoryGroups raw).2).
Proof.
  unfold ExpandInventoryGroups. revert groups ds.
  induction raw as [|entry raw IH]; intros groups ds; cbn [foldl].
  { by rewrite !app_nil_r. }
  rewrite expandGroup_acc, IH. destruct (expandGroup ([], []) entry) as [h d].
  rewrite (IH h d). cbn [fst snd]. by rewrite !app_assoc.
Qed.

Lemma ExpandInventoryHosts_app raw1 raw2 :
  ExpandInventoryHosts (raw1 ++ raw2)
  = ((ExpandInventoryHosts raw1).1 ++ (ExpandInventoryHosts raw2).1,
     (ExpandInventoryHosts raw1).2 ++ (ExpandInventoryHosts raw2).2).
Proof.
  unfold ExpandInventoryHosts at 1. rewrite foldl_app. fold (ExpandInventoryHosts raw1).
  destruct (ExpandInventoryHosts raw1) as [h d]. by rewrite foldl_expandHost.
Qed.

Lemma ExpandInventoryGroups_app raw1 raw2 :
  ExpandInventoryGroups (raw1 ++ raw2)
  = ((ExpandInventoryGroups raw1).1 ++ (ExpandInventoryGroups raw2).1,
     (ExpandInventoryGroups raw1).2 ++ (ExpandInventoryGroups raw2).2).
Proof.
  unfold ExpandInventoryGroups at 1. rewrite foldl_app. fold (ExpandInventoryGroups raw1).
  destruct (ExpandInventoryGroups raw1) as [h d]. by rewrite foldl_expandGroup.
Qed.

(** X6: the expanders treat every entry on its own: the records and the
    diagnostics of a list of entries are those of its parts, one after the
    other. *)
Theorem expanders_entry_by_entry raw1 raw2 :
  ExpandInventoryHosts (raw1 ++ raw2)
  = ((ExpandInventoryHosts raw1).1 ++ (ExpandInventoryHosts raw2).1,
     (ExpandInventoryHosts raw1).2 ++ (ExpandInventoryHosts raw2).2) /\
  ExpandInventoryGroups (raw1 ++ raw2)
  = ((ExpandInventoryGroups raw1).1 ++ (ExpandInventoryGroups raw2).1,
     (ExpandInventoryGroups raw1).2 ++ (ExpandInventoryGroups raw2).2).
Proof. split; [apply ExpandInventoryHosts_app|apply ExpandInventoryGroups_app]. Qed.

Lemma expandHost_hostEntry h :
  Name h ≠ EmptyString -> expandHost ([], []) (hostEntry h) = ([h], []).
Proof.
  intros Hn. unfold expandHost, hostEntry. cbn [assertMap negb].
  rewrite lookup_insert_eq. cbn [assertString negb orb].
  rewrite bool_decide_false by done.
  rewrite lookup_insert_ne, lookup_insert_eq by done. cbn [assertSlice negb].
  rewrite InterfaceToString_strings.
  rewrite !lookup_insert_ne, lookup_singleton_eq by done. cbn [assertMap].
  rewrite mapInterfaceToStringMap_strings. by destruct h.
Qed.

Lemma expandGroup_groupEntry g :
  GroupName g ≠ EmptyString -> expandGroup ([], []) (groupEntry g) = ([g], []).
Proof.
  intros Hn. unfold expandGroup, groupEntry. cbn [assertMap negb].
  rewrite lookup_insert_eq. cbn [assertString negb orb].
  rewrite bool_decide_false by done.
  rewrite lookup_insert_ne, lookup_insert_eq by done. cbn [assertSlice negb].
  rewrite InterfaceToString_strings.
  rewrite !lookup_insert_ne, lookup_singleton_eq by done. cbn [assertMap].
  rewrite mapInterfaceToStringMap_strings. by destruct g.
Qed.

(** X7: entries whose fields have the types the expanders look for are
    read back as the records they hold, in order and without a diagnostic,
    when every record has a name. *)
Theorem well_typed_entries_read_back hosts groups :
  Forall (fun h => Name h ≠ EmptyString) hosts ->
  Forall (fun g => GroupName g ≠ EmptyString) groups ->
  ExpandInventoryHosts (hostEntry <$> hosts) = (hosts, []) /\
  ExpandInventoryGroups (groupEntry <$> groups) = (groups, []).
Proof.
  intros Hhosts Hgroups. split.
  - induction Hhosts as [|h hosts Hh _ IH]; [done|].
    change (hostEntry <$> h :: hosts) with ([hostEntry h] ++ (hostEntry <$> hosts)).
    rewrite ExpandInventoryHosts_app, IH. unfold ExpandInventoryHosts. cbn [foldl].
    by rewrite expandHost_hostEntry.
  - induction Hgroups as [|g groups Hg _ IH]; [done|].
    change (groupEntry <$> g :: groups) with ([groupEntry g] ++ (groupEntry <$> groups)).
    rewrite ExpandInventoryGroups_app, IH. unfold ExpandInventoryGroups. cbn [foldl].
    by rewrite expandGroup_groupEntry.
Qed.

Lemma expandHost_entryName entry :
  Name <$> (expandHost ([], []) entry).1 = option_list (entryName entry) /\
  (entryName entry = None -> (expandHost ([], []) entry).2 ≠ []).
Proof.
  unfold expandHost, entryName.
  destruct entry as [| | | |l|m]; cbn [assertMap negb fst snd option_list fmap list_fmap];
    try (split; [done|by intros _]).
  destruct (m !! "name") as [[| | |name| |]|]; cbn [assertString negb orb fst snd];
    try (split; [done|by intros _]).
  destruct (decide (name = EmptyString)) as [->|Hne].
  { rewrite bool_decide_true by done. split; [done|by intros _]. }
  rewrite bool_decide_false by done.
  destruct (assertSlice (m !! "groups")) as [groupsRaw groupsSet].
  destruct (InterfaceToString _) as [groups groupDiags].
  destruct (assertMap (m !! "variables")) as [varsRaw [|]].
  - destruct (mapInterfaceToStringMap varsRaw ∅) as [variables varDiags].
    split; [done|by intros ?].
  - split; [done|by intros ?].
Qed.

Lemma expandGroup_entryName entry :
  GroupName <$> (expandGroup ([], []) entry).1 = option_list (entryName entry) /\
  (entryName entry = None -> (expandGroup ([], []) entry).2 ≠ []).
Proof.
  unfold expandGroup, entryName.
  destruct entry as [| | | |l|m]; cbn [assertMap negb fst snd option_list fmap list_fmap];
    try (split; [done|by intros _]).
  destruct (m !! "name") as [[| | |name| |]|]; cbn [assertString negb orb fst snd];
    try (split; [done|by intros _]).
  destruct (decide (name = EmptyString)) as [->|Hne].
  { rewrite bool_decide_true by done. split; [done|by intros _]. }
  rewrite bool_decide_false by done.
  destruct (assertSlice (m !! "children")) as [childrenRaw childrenSet].
  destruct (InterfaceToString _) as [children childrenDiags].
  destruct (assertMap (m !! "variables")) as [varsRaw [|]].
  - destruct (mapInterfaceToStringMap varsRaw ∅) as [variables varDiags].
    split; [done|by intros ?].
  - split; [done|by intros ?].
Qed.

Lemma ExpandInventoryHosts_names raw :
  Name <$> (ExpandInventoryHosts raw).1 = omap entryName raw /\
  ((ExpandInventoryHosts raw).2 = [] -> Forall (fun e => is_Some (entryName e)) raw).
Proof.
  induction raw as [|entry raw [IHn IHd]]; [done|].
  change (entry :: raw) with ([entry] ++ raw).
  rewrite ExpandInventoryHosts_app. cbn [fst snd]. rewrite fmap_app, IHn.
  unfold ExpandInventoryHosts at 1 2. cbn [foldl].
  destruct (expandHost_entryName entry) as [Hn Hd]. rewrite Hn. split.
  - cbn [app omap list_omap]. by destruct (entryName entry).
  - intros [Hd1 Hd2]%app_eq_nil. constructor; [|by apply IHd].
    destruct (entryName entry); [done|]. by destruct Hd.
Qed.

Lemma ExpandInventoryGroups_names raw :
  GroupName <$> (ExpandInventoryGroups raw).1 = omap entryName raw /\
  ((ExpandInventoryGroups raw).2 = [] -> Forall (fun e => is_Some (entryName e)) raw).
Proof.
  induction raw as [|entry raw [IHn IHd]]; [done|].
  change (entry :: raw) with ([entry] ++ raw).
  rewrite ExpandInventoryGroups_app. cbn [fst snd]. rewrite fmap_app, IHn.
  unfold ExpandInventoryGroups at 1 2. cbn [foldl].
  destruct (expandGroup_entryName entry) as [Hn Hd]. rewrite Hn. split.
  - cbn [app omap list_omap]. by destruct (entryName entry).
  - intros [Hd1 Hd2]%app_eq_nil. constructor; [|by apply IHd].
    destruct (entryName entry); [done|]. by destruct Hd.
Qed.

Lemma omap_all_Some {A B} (f : A -> option B) l :
  Forall (fun x => is_Some (f x)) l -> length (omap f l) = length l.
Proof.
  induction 1 as [|x l [y Hy] _ IH]; [done|]. cbn [omap list_omap]. rewrite Hy.
  cbn [length]. by f_equal.
Qed.

Lemma entryName_nonempty entry name : entryName entry = Some name -> name ≠ EmptyString.
Proof.
  unfold entryName. destruct entry as [| | | |l|m]; try done.
  destruct (m !! "name") as [[| | |n| |]|]; try done.
  destruct (decide (n = EmptyString)); [done|]. by intros [= <-].
Qed.

(** X8: both expanders keep the entries that are maps with a non-empty
    string under [name], in the order of the input, one record each, and
    pass over the others; when they report no diagnostic, no entry was
    passed over. *)
Theorem expanders_keep_named_entries raw :
  Name <$> (ExpandInventoryHosts raw).1 = omap entryName raw /\
  GroupName <$> (ExpandInventoryGroups raw).1 = omap entryName raw /\
  ((ExpandInventoryHosts raw).2 = [] ->
   length (ExpandInventoryHosts raw).1 = length raw) /\
  ((ExpandInventoryGroups raw).2 = [] ->
   length (ExpandInventoryGroups raw).1 = length raw).
Proof.
  destruct (ExpandInventoryHosts_names raw) as [Hh Hhd].
  destruct (ExpandInventoryGroups_names raw) as [Hg Hgd].
  split; [done|]. split; [done|]. split.
  - intros Hd. rewrite <- (length_fmap Name), Hh. apply omap_all_Some. auto.
  - intros Hd. rewrite <- (length_fmap GroupName), Hg. apply omap_all_Some. auto.
Qed.

(** ** The builder on the records of the expanders, and the order of its input *)

Lemma ExpandInventoryGroups_named raw :
  Forall (fun g => GroupName g ≠ EmptyString) (ExpandInventoryGroups raw).1.
Proof.
  destruct (ExpandInventoryGroups_names raw) as [Hnames _].
  apply (Forall_fmap GroupName (fun name => name ≠ EmptyString)). rewrite Hnames.
  apply Forall_forall. intros name (entry & _ & Hname)%list_elem_of_omap.
  by apply (entryName_nonempty entry).
Qed.

(** X9: the records that the two expanders return never make the content
    builder report a diagnostic: every record they return has a name. *)
Theorem expanded_records_build_cleanly rawHosts rawGroups :
  (buildInventoryFileContent isPrintWide
     (ExpandInventoryHosts rawHosts).1 (ExpandInventoryGroups rawGroups).1).2 = [].
Proof.
  rewrite buildInventoryFileContent_eq. cbn [snd]. unfold collect.
  rewrite hosts_diags, groups_diags. cbn [initial diags app].
  rewrite !filter_none; [done| |].
  - eapply Forall_impl; [apply (ExpandInventoryHosts_named rawHosts [] []); constructor|].
    intros h Hh. exact Hh.
  - eapply Forall_impl; [apply ExpandInventoryGroups_named|]. intros g Hg. exact Hg.
Qed.

Lemma declare_snoc groups grp : declare (groups ++ [grp]) = groupPass (declare groups) grp.
Proof. unfold declare. by rewrite foldl_app. Qed.

Lemma declare_lastVariables groups g :
  g ≠ EmptyString -> groupVars (declare groups) !! g = lastVariables g groups.
Proof.
  intros Hg. unfold lastVariables.
  induction groups as [|grp groups IH] using rev_ind; [done|].
  rewrite declare_snoc, filter_app, fmap_app. unfold groupPass.
  case_bool_decide as Hname; cbn [groupVars].
  { rewrite filter_cons_False by (intros [? _]; congruence).
    by rewrite filter_nil, app_nil_r. }
  destruct (Nat.ltb_spec 0 (size (GroupVariables grp))) as [Hpos|Hz].
  - destruct (decide (GroupName grp = g)) as [Heq|Hne].
    + rewrite filter_cons_True by (split; [done|lia]).
      rewrite Heq, lookup_insert_eq. cbn [fmap list_fmap filter list_filter].
      by rewrite last_snoc.
    + rewrite lookup_insert_ne by done.
      rewrite filter_cons_False by (intros [? _]; done).
      by rewrite filter_nil, app_nil_r.
  - rewrite filter_cons_False by (intros [_ ?]; lia).
    by rewrite filter_nil, app_nil_r.
Qed.

Lemma declare_lastChildren groups g :
  g ≠ EmptyString -> groupChildren (declare groups) !! g = lastChildren g groups.
Proof.
  intros Hg. unfold lastChildren.
  induction groups as [|grp groups IH] using rev_ind; [done|].
  rewrite declare_snoc, filter_app, fmap_app. unfold groupPass.
  case_bool_decide as Hname; cbn [groupChildren].
  { rewrite filter_cons_False by (intros [? _]; congruence).
    by rewrite filter_nil, app_nil_r. }
  destruct (Nat.ltb_spec 0 (length (Children grp))) as [Hpos|Hz].
  - destruct (decide (GroupName grp = g)) as [Heq|Hne].
    + rewrite filter_cons_True by (split; [done|]; intros E; rewrite E in Hpos; cbn in Hpos; lia).
      rewrite Heq, lookup_insert_eq. cbn [fmap list_fmap filter list_filter app].
      by rewrite last_snoc.
    + rewrite lookup_insert_ne by done.
      rewrite filter_cons_False by (intros [? _]; done).
      by rewrite filter_nil, app_nil_r.
  - rewrite filter_cons_False.
    2:{ intros [_ Hc]. destruct (Children grp); [done|cbn in Hz; lia]. }
    by rewrite filter_nil, app_nil_r.
Qed.

Lemma groupNames_nonempty hosts groups g :
  g ∈ groupNames (collect hosts groups) -> g ≠ EmptyString.
Proof.
  intros [Hd|(h & _ & Hm)]%elem_of_groupNames.
  - unfold declared in Hd. by apply list_elem_of_filter in Hd as [? _].
  - unfold memberships in Hm. destruct (decide (Name h = EmptyString)).
    + by apply elem_of_nil in Hm.
    + by apply list_elem_of_filter in Hm as [? _].
Qed.

(** X10: records of one group name are not merged.  In the section of a
    group, the [:vars] block holds the variables of the last record of that
    name that has variables, and the [:children] block the children of the
    last record of that name that has children. *)
Theorem last_group_record_wins hosts groups :
  Forall (fun s =>
            vars s = from_option sortedEntries [] (lastVariables (heading s) groups) /\
            children s = sort.Strings (default [] (lastChildren (heading s) groups)))
         (document hosts groups).
Proof.
  apply Forall_forall. intros s (g & Hg & ->)%elem_of_document.
  apply groupNames_nonempty in Hg. rewrite sectionOf_collect.
  cbn [heading vars children].
  by rewrite declare_lastVariables, declare_lastChildren.
Qed.

Lemma filter_name_unique (Q : InventoryGroup -> Prop) `{!forall x, Decision (Q x)} groups g :
  g ≠ EmptyString -> NoDup (declared groups) ->
  (length (filter (fun grp => GroupName grp = g /\ Q grp) groups) <= 1)%nat.
Proof.
  intros Hg. unfold declared.
  induction groups as [|grp groups IH]; intros Hnd; [cbn; lia|].
  cbn [fmap list_fmap] in Hnd.
  destruct (decide (GroupName grp = g)) as [Heq|Hne].
  - rewrite filter_cons_True in Hnd by congruence. apply NoDup_cons in Hnd as [Hnotin Hnd].
    assert (filter (fun grp => GroupName grp = g /\ Q grp) groups = []) as Hnil.
    { apply filter_none. apply Forall_forall. intros grp' Hin [Hn _].
      apply Hnotin. apply list_elem_of_filter. split; [congruence|].
      apply list_elem_of_fmap. exists grp'. split; [congruence|done]. }
    destruct (decide (Q grp)).
    + rewrite filter_cons_True by done. rewrite Hnil. cbn. lia.
    + rewrite filter_cons_False by tauto. rewrite Hnil. cbn. lia.
  - rewrite filter_cons_False by tauto. apply IH.
    destruct (decide (GroupName grp = EmptyString)).
    + by rewrite filter_cons_False in Hnd by (intros ?; done).
    + rewrite filter_cons_True in Hnd by done. by apply NoDup_cons in Hnd as [_ ?].
Qed.

Lemma Permutation_short {A} (l l' : list A) : (length l <= 1)%nat -> l ≡ₚ l' -> l = l'.
Proof.
  intros Hlen Hp. destruct l as [|x [|y l]]; [| |cbn in Hlen; lia].
  - by apply Permutation_nil_l in Hp.
  - by apply Permutation_singleton_l in Hp.
Qed.

Lemma const_fmap_Permutation {A B} (d : B) (l l' : list A) :
  l ≡ₚ l' -> (fun _ => d) <$> l = (fun _ => d) <$> l'.
Proof.
  intros Hp. rewrite !(const_fmap _ _ d) by done. by rewrite Hp.
Qed.

Lemma sort_Permutation_eq l l' : l ≡ₚ l' -> sort.Strings l = sort.Strings l'.
Proof.
  intros Hp. apply (Sorted_unique String.le); [apply sort_Sorted..|].
  by rewrite !sort_Permutation.
Qed.

(** X11: the order of the host records is of no consequence, and neither is
    the order of the group records when no two of them declare the same
    name: text and diagnostics are the same for every arrangement of the
    input. *)
Theorem input_order_is_irrelevant hosts hosts' groups groups' :
  hosts ≡ₚ hosts' -> groups ≡ₚ groups' -> NoDup (declared groups) ->
  buildInventoryFileContent isPrintWide hosts groups
  = buildInventoryFileContent isPrintWide hosts' groups'.
Proof.
  intros Hh Hg Hnd. rewrite !buildInventoryFileContent_eq.
  assert (groupNames (collect hosts groups) = groupNames (collect hosts' groups')) as Hnames.
  { destruct (collect_spec hosts groups) as (-> & _).
    destruct (collect_spec hosts' groups') as (-> & _).
    unfold declared. apply set_eq. intros g.
    rewrite !elem_of_union, !elem_of_list_to_set. by rewrite Hh, Hg. }
  f_equal.
  - f_equal. unfold document. rewrite <- Hnames.
    apply Forall_fmap_ext, Forall_forall. intros g Hin.
    rewrite sort_elem_of, elem_of_elements in Hin. apply groupNames_nonempty in Hin.
    rewrite !sectionOf_collect, !declare_lastVariables, !declare_lastChildren by done.
    assert (contributions g hosts ≡ₚ contributions g hosts') as Hc.
    { unfold contributions. by rewrite Hh. }
    rewrite (sort_Permutation_eq _ _ Hc).
    unfold lastVariables, lastChildren.
    rewrite (Permutation_short
               (filter (fun grp => GroupName grp = g /\ size (GroupVariables grp) ≠ 0%nat)
                       groups)
               (filter (fun grp => GroupName grp = g /\ size (GroupVariables grp) ≠ 0%nat)
                       groups'));
      [|by apply (filter_name_unique (fun grp => size (GroupVariables grp) ≠ 0%nat))
       |by rewrite Hg].
    rewrite (Permutation_short
               (filter (fun grp => GroupName grp = g /\ Children grp ≠ []) groups)
               (filter (fun grp => GroupName grp = g /\ Children grp ≠ []) groups'));
      [|by apply (filter_name_unique (fun grp => Children grp ≠ []))|by rewrite Hg].
    done.
  - unfold collect. rewrite !hosts_diags, !groups_diags. f_equal; [f_equal|].
    + apply const_fmap_Permutation. by rewrite Hg.
    + apply const_fmap_Permutation. by rewrite Hh.
Qed.

(** ** The inventory file of a play *)

(** X12: given host records, [BuildPlaybookInventory] writes their
    inventory and nothing else: the fallback host name, the port and the
    host groups are not looked at, and no diagnostic comes from them.  The
    path of the temporary file is returned also when the writing fails, and
    the file is closed in both cases. *)
Theorem explicit_hosts_take_precedence fs inventoryDest hostname port hostgroups
  hosts groups f :
  os.CreateTemp fs EmptyString inventoryDest = ((Some f, None), [os.Created f]) ->
  hosts ≠ [] ->
  let built := buildInventoryFileContent isPrintWide hosts groups in
  let written := os.WriteString fs (Some f) built.1 in
  BuildPlaybookInventory isPrintWide fs inventoryDest hostname port hostgroups hosts groups
  = (Returned (os.fname f,
               built.2 ++ match written.1 with
                          | Some e => [errorDiag ("Fail to write inventory: " +:+ e)]
                          | None => []
                          end),
     [os.Created f; os.Logged ("Inventory " +:+ os.fname f +:+ " was created")]
     ++ written.2 ++ [os.Closed f]).
Proof.
  intros Hf Hhosts. cbn zeta. unfold BuildPlaybookInventory. rewrite Hf.
  cbn [os.Name app].
  destruct hosts as [|h hosts]; [done|]. cbn [length Nat.eqb].
  destruct (buildInventoryFileContent _ _ _) as [content buildDiags]. cbn [fst snd app].
  destruct (os.WriteString fs (Some f) content) as [werr wrote]. cbn [fst snd os.Close].
  destruct werr; cbn [app]; by rewrite ?app_nil_r.
Qed.



Lemma hasSeparator_app a b : os.hasSeparator (a +:+ "/" +:+ b) = true.
Proof.
  induction a as [|c a IH]; [done|]. rewrite append_cons. cbn [os.hasSeparator].
  rewrite IH. by destruct (os.IsPathSeparator c).
Qed.

(** X20: a destination pattern with a path separator in it makes
    [BuildPlaybookInventory] panic, on every file system and whatever the
    other arguments are: [os.CreateTemp] refuses the pattern before it asks
    the file system, and the nil file is then dereferenced.  Nothing is
    created, logged or written. *)
Theorem separator_in_pattern_panics fs a b hostname port hostgroups hosts groups :
  BuildPlaybookInventory isPrintWide fs (a +:+ "/" +:+ b) hostname port hostgroups
    hosts groups
  = (Panicked "runtime error: invalid memory address or nil pointer dereference", []).
Proof.
  unfold BuildPlaybookInventory, os.CreateTemp. by rewrite hasSeparator_app.
Qed.

(** ** What quoting keeps out of a line *)

Ltac each_byte := repeat first [apply Forall_nil_2 | apply Forall_cons_2].

Lemma lowerhex_graphic d : 0 <= d < 16 -> 0x20 <= lowerhex d <= 0x7E.
Proof.
  intros H. destruct (nibble_cases d H) as [->|[->|[->|[->|[->|[->|[->|[->|[->|[->|[->|[->|[->|[->|[->| ->]]]]]]]]]]]]]]];
    vm_compute; split; congruence.
Qed.

Lemma hexdigits_graphic r shifts :
  0 <= r -> Forall (fun s => 0 <= s) shifts -> Forall graphic (hexdigits r shifts).
Proof.
  intros Hr Hs. unfold hexdigits. apply Forall_fmap.
  eapply Forall_impl; [exact Hs|]. intros s Hs'. unfold compose, graphic. left.
  apply lowerhex_graphic. to_arith. dlia.
Qed.

Lemma hex2_graphic b :
  0 <= b < 256 ->
  Forall graphic [92; 120; lowerhex (Z.shiftr b 4); lowerhex (Z.land b 0xF)].
Proof.
  intros Hb.
  pose proof (lowerhex_graphic (Z.shiftr b 4)) as H1.
  pose proof (lowerhex_graphic (Z.land b 0xF)) as H2.
  revert H1 H2. to_arith. intros H1 H2.
  specialize (H1 ltac:(dlia)). specialize (H2 ltac:(dlia)).
  each_byte; unfold graphic; lia.
Qed.

Lemma appendEscapedRune_graphic r :
  0 <= r <= MaxRune -> ValidRune r = true ->
  Forall graphic (AppendRune [] r) \/ r < 0x80 ->
  Forall graphic (appendEscapedRune isPrintWide [] r DQc).
Proof.
  intros Hr Hv Henc.
  destruct (appendEscapedRune_cases r Hr Hv)
    as [[Hq ->]|[(Hp & ? & ? & ->)|[(c & Hc & ->)|[[Hlow ->]|[[? ->]|[? ->]]]]]].
  - each_byte; unfold graphic; lia.
  - destruct Henc as [?|Hsmall]; [done|]. rewrite AppendRune_1 by lia.
    each_byte. left. unfold IsPrint in Hp.
    destruct (Z.leb_spec r 0xFF); [|lia].
    destruct (Z.leb_spec 0x20 r), (Z.leb_spec r 0x7E), (Z.leb_spec 0xA1 r); try lia; done.
  - repeat (apply elem_of_cons in Hc as [[= -> ->]|Hc];
            [each_byte; unfold graphic; lia|]).
    by apply elem_of_nil in Hc.
  - assert (0 <= r < 256) as Hb by lia. apply (hex2_graphic r Hb).
  - change (Forall graphic ([92; 117] ++ hexdigits r [12; 8; 4; 0])).
    apply Forall_app. split; [each_byte; unfold graphic; lia|].
    apply hexdigits_graphic; [lia|repeat constructor; lia].
  - change (Forall graphic ([92; 85] ++ hexdigits r [28; 24; 20; 16; 12; 8; 4; 0])).
    apply Forall_app. split; [each_byte; unfold graphic; lia|].
    apply hexdigits_graphic; [lia|repeat constructor; lia].
Qed.

Lemma quoteStep_graphic s0 tl :
  0 <= s0 < 256 -> Forall graphic (quoteStep (s0 :: tl)).1.
Proof.
  intros Hs0. unfold quoteStep, RuneSelf.
  destruct (Z.leb_spec 128 s0) as [Hhi|Hlo].
  - destruct (decode_spec s0 tl ltac:(lia)) as [[Hr Hw]|Hgood].
    + destruct (DecodeRuneInString (s0 :: tl)) as [r w]. cbn [fst snd] in *. subst r w.
      cbn [Nat.eqb andb fst snd]. rewrite Z.eqb_refl. cbn [fst]. by apply hex2_graphic.
    + destruct Hgood as (chunk & rest & Hs & Hlen & Hw & Hb & Hr & Hv & Happ & Hdec).
      destruct (DecodeRuneInString (s0 :: tl)) as [r w]. cbn [fst snd] in *.
      destruct (Nat.eqb_spec w 1); [lia|]. cbn [andb fst snd].
      apply appendEscapedRune_graphic; [lia|done|]. left. rewrite Happ.
      eapply Forall_impl; [exact Hb|]. unfold graphic. cbn. lia.
  - cbn [Nat.eqb andb fst snd]. unfold RuneError.
    destruct (Z.eqb_spec s0 0xFFFD); [lia|]. cbn [fst].
    apply appendEscapedRune_graphic; [unfold MaxRune; lia|apply ValidRune_true; lia|].
    right. lia.
Qed.

Lemma quoteBody_graphic n s :
  (length s <= n)%nat -> Forall isByte s -> Forall graphic (quoteBody n s).
Proof.
  revert s. induction n as [|n IH]; intros s Hlen Hs.
  { destruct s; [|cbn in Hlen; lia]. constructor. }
  destruct s as [|s0 tl]; [rewrite quoteBody_nil; constructor|].
  rewrite quoteBody_cons. apply Forall_cons in Hs as [Hs0 Htl].
  destruct (quoteStep_escapes s0 tl Hs0) as [Hw _].
  apply Forall_app. split; [by apply quoteStep_graphic|].
  apply IH; [|apply Forall_drop; by constructor].
  rewrite length_drop. cbn [length] in *. lia.
Qed.

Lemma Quote_bytes s :
  bytes_of_string (Quote isPrintWide s)
  = DQc :: quoteBody (length (bytes_of_string s)) (bytes_of_string s) ++ [DQc].
Proof.
  unfold Quote. ord_eval. pose proof (bytes_of_string_isByte s) as Hs.
  rewrite appendQuotedWith_eq. apply bytes_of_string_of_bytes.
  constructor; [unfold isByte; lia|]. apply Forall_app. split.
  - by apply quoteBody_bytes.
  - repeat constructor. unfold isByte. lia.
Qed.

Lemma Quote_graphic s : Forall graphic (bytes_of_string (Quote isPrintWide s)).
Proof.
  rewrite Quote_bytes. constructor; [unfold graphic; lia|].
  apply Forall_app. split.
  - apply quoteBody_graphic; [done|apply bytes_of_string_isByte].
  - each_byte. unfold graphic. lia.
Qed.

Lemma graphic_free c s :
  ~ graphic c -> Forall graphic (bytes_of_string s) -> free c s.
Proof.
  intros Hc Hs Hin. unfold free in *. by apply (proj1 (Forall_forall _ _) Hs) in Hin.
Qed.

Lemma bytes_of_string_app a b :
  bytes_of_string (a +:+ b) = bytes_of_string a ++ bytes_of_string b.
Proof. induction a as [|x a IH]; [done|]. rewrite append_cons. cbn. by rewrite IH. Qed.

Lemma bytes_of_string_inj a b : bytes_of_string a = bytes_of_string b -> a = b.
Proof.
  intros H. rewrite <- (string_of_bytes_of_string a), <- (string_of_bytes_of_string b).
  by rewrite H.
Qed.

Lemma free_app c a b : free c (a +:+ b) <-> free c a /\ free c b.
Proof. unfold free. rewrite bytes_of_string_app, not_elem_of_app. tauto. Qed.

Lemma Quote_free c v : ~ graphic c -> free c (Quote isPrintWide v).
Proof. intros Hc. apply graphic_free; [done|apply Quote_graphic]. Qed.

Lemma hostLine_free c name kvs :
  ~ graphic c -> free c name -> Forall (fun kv => free c kv.1) kvs ->
  free c (hostLine name kvs).
Proof.
  intros Hc Hname Hkvs. revert name Hname.
  induction Hkvs as [|kv kvs Hk _ IH]; intros name Hname; [done|].
  cbn [hostLine]. apply IH. rewrite !free_app. split_and!; try done.
  - unfold free. cbn. rewrite list_elem_of_singleton. intros ->. apply Hc.
    unfold graphic. ord_eval. lia.
  - unfold free. cbn. rewrite list_elem_of_singleton. intros ->. apply Hc.
    unfold graphic. ord_eval. lia.
  - by apply Quote_free.
Qed.

Lemma sortedEntries_keys_free c (m : gmap string string) :
  (forall k, is_Some (m !! k) -> free c k) -> Forall (fun kv => free c kv.1) (sortedEntries m).
Proof.
  intros Hm. apply Forall_forall. intros [k v] Hkv%elem_of_sortedEntries.
  apply Hm. by exists v.
Qed.

(** X14: quoting keeps control characters out of the inventory.  A quoted
    value starts and ends with a double quote and holds no ASCII control
    byte, whatever the value; so a host line whose name and keys hold no
    line feed holds none, and neither a carriage return under the same
    condition: a value cannot end its line. *)
Theorem quoted_values_stay_on_their_line hostname (variables : gmap string string) :
  (forall v, exists body,
      bytes_of_string (strconv.Quote isPrintWide v) = 34 :: body ++ [34] /\
      Forall graphic body) /\
  (forall c, c = 10 \/ c = 13 ->
     free c hostname -> (forall k, is_Some (variables !! k) -> free c k) ->
     free c (formatInventoryHostLine isPrintWide hostname variables)).
Proof.
  split.
  - intros v. eexists. split; [apply Quote_bytes|].
    apply quoteBody_graphic; [done|apply bytes_of_string_isByte].
  - intros c Hc Hname Hkeys. rewrite formatInventoryHostLine_eq.
    apply hostLine_free; [unfold graphic; lia|done|by apply sortedEntries_keys_free].
Qed.

Lemma split_first (c : Z) a b r1 r2 :
  c ∉ a -> c ∉ b -> a ++ c :: r1 = b ++ c :: r2 -> a = b /\ r1 = r2.
Proof.
  revert b. induction a as [|x a IH]; intros [|y b] Ha Hb Heq; cbn [app] in Heq.
  - by injection Heq as ->.
  - injection Heq as -> _. by apply not_elem_of_cons in Hb as [? _].
  - injection Heq as -> _. by apply not_elem_of_cons in Ha as [? _].
  - injection Heq as -> Heq. apply not_elem_of_cons in Ha as [_ Ha].
    apply not_elem_of_cons in Hb as [_ Hb]. destruct (IH b Ha Hb Heq) as [-> ->]. done.
Qed.

Lemma bytes_unlines_cons l ls :
  bytes_of_string (unlines (l :: ls)) = bytes_of_string l ++ 10 :: bytes_of_string (unlines ls).
Proof. cbn [unlines]. by rewrite !bytes_of_string_app. Qed.

Lemma unlines_inj ls1 ls2 :
  Forall (free 10) ls1 -> Forall (free 10) ls2 -> unlines ls1 = unlines ls2 -> ls1 = ls2.
Proof.
  intros H1. revert ls2. induction H1 as [|l1 ls1 Hl1 _ IH]; intros ls2 H2 Heq.
  - destruct ls2 as [|l2 ls2]; [done|]. apply (f_equal bytes_of_string) in Heq.
    rewrite bytes_unlines_cons in Heq. cbn in Heq. by destruct (bytes_of_string l2).
  - destruct H2 as [|l2 ls2 Hl2 H2]; apply (f_equal bytes_of_string) in Heq.
    { rewrite bytes_unlines_cons in Heq. cbn in Heq. by destruct (bytes_of_string l1). }
    rewrite !bytes_unlines_cons in Heq.
    apply split_first in Heq as [Hl Hrest]; [|done..].
    apply bytes_of_string_inj in Hl as ->. apply bytes_of_string_inj in Hrest.
    f_equal. by apply IH.
Qed.

Lemma Quote_inj v1 v2 : Quote isPrintWide v1 = Quote isPrintWide v2 -> v1 = v2.
Proof.
  intros H. pose proof (Unquote_Quote v1) as H1. rewrite H, Unquote_Quote in H1.
  by injection H1.
Qed.

Lemma variable_line_inj (kv1 kv2 : string * string) :
  free 61 kv1.1 -> free 61 kv2.1 ->
  kv1.1 +:+ "=" +:+ Quote isPrintWide kv1.2 = kv2.1 +:+ "=" +:+ Quote isPrintWide kv2.2 ->
  kv1 = kv2.
Proof.
  destruct kv1 as [k1 v1], kv2 as [k2 v2]. cbn [fst snd]. intros H1 H2 Heq.
  apply (f_equal bytes_of_string) in Heq. rewrite !bytes_of_string_app in Heq.
  change (bytes_of_string "=") with [61] in Heq. cbn [app] in Heq.
  apply split_first in Heq as [Hk Hv]; [|done..].
  apply bytes_of_string_inj in Hk as ->. apply bytes_of_string_inj, Quote_inj in Hv as ->.
  done.
Qed.

Lemma variable_lines_inj (l1 l2 : list (string * string)) :
  Forall (fun kv => free 61 kv.1) l1 -> Forall (fun kv => free 61 kv.1) l2 ->
  (fun kv => kv.1 +:+ "=" +:+ Quote isPrintWide kv.2) <$> l1
  = (fun kv => kv.1 +:+ "=" +:+ Quote isPrintWide kv.2) <$> l2 ->
  l1 = l2.
Proof.
  intros H1. revert l2. induction H1 as [|kv1 l1 Hk1 _ IH]; intros l2 H2 Heq.
  - by destruct l2.
  - destruct H2 as [|kv2 l2 Hk2 H2]; [done|]. cbn [fmap list_fmap] in Heq.
    injection Heq as Hkv Heq. f_equal; [by apply variable_line_inj|by apply IH].
Qed.

(** X15: a [:vars] block determines the variables it was written for.  Two
    maps whose keys hold neither a line feed nor an equals sign are rendered
    by [formatInventoryVariables] to the same text only when they are the
    same map: every variable stands on a line of its own, the key ends at
    the first equals sign, and the quoted value is read back by
    [strconv.Unquote]. *)
Theorem vars_block_determines_variables (m1 m2 : gmap string string) :
  plainKeys m1 -> plainKeys m2 ->
  formatInventoryVariables isPrintWide m1 = formatInventoryVariables isPrintWide m2 ->
  m1 = m2.
Proof.
  intros Hp1 Hp2 Heq. rewrite !formatInventoryVariables_eq in Heq.
  assert (forall m, plainKeys m ->
            Forall (free 10)
              ((fun kv => kv.1 +:+ "=" +:+ Quote isPrintWide kv.2) <$> sortedEntries m))
    as Hlines.
  { intros m Hm. apply Forall_fmap, Forall_forall. intros [k v] Hkv%elem_of_sortedEntries.
    unfold compose. cbn [fst snd]. rewrite !free_app. split_and!.
    - apply Hm. by exists v.
    - unfold free. cbn. ord_eval. rewrite list_elem_of_singleton. lia.
    - apply Quote_free. unfold graphic. lia. }
  apply unlines_inj in Heq; [|by apply Hlines..].
  apply variable_lines_inj in Heq.
  - apply map_eq. intros k. apply option_eq. intros v.
    by rewrite <- !elem_of_sortedEntries, Heq.
  - apply sortedEntries_keys_free. intros k Hk. by apply Hp1.
  - apply sortedEntries_keys_free. intros k Hk. by apply Hp2.
Qed.

(** ** Removing a file *)

(** X16: [RemoveFile] reports nothing exactly when one of the two removing
    calls succeeded, so it removes an empty directory as well as a file;
    when both fail it removes nothing and reports one error, which names
    the file and gives the reason of [rmdir], or that of [unlink] when
    [rmdir] only said that the name is no directory. *)
Theorem RemoveFile_reports_failure sys filename :
  let r := RemoveFile sys filename in
  (r.1 = [] <-> os.unlink sys filename = None \/ os.rmdir sys filename = None) /\
  (r.1 = [] <-> r.2 ≠ []) /\
  (forall e e1,
     os.unlink sys filename = Some e -> os.rmdir sys filename = Some e1 ->
     r = ([errorDiag ("Fail to remove file " +:+ filename +:+ ": remove " +:+ filename
                      +:+ ": "
                      +:+ os.strerror sys (if decide (e1 = os.ENOTDIR) then e else e1))],
          [])) /\
  (os.unlink sys filename = None -> r = ([], [os.Unlinked filename])) /\
  (forall e, os.unlink sys filename = Some e -> os.rmdir sys filename = None ->
             r = ([], [os.RemovedDir filename])).
Proof.
  cbn zeta. unfold RemoveFile, os.Remove.
  destruct (os.unlink sys filename) as [e|].
  - destruct (os.rmdir sys filename) as [e1|]; cbn [fst snd app].
    + split_and!.
      * split; [done|]. by intros [?|?].
      * split; [done|]. by intros ?.
      * intros e' e1' [= <-] [= <-]. unfold os.Error. cbn [os.Op os.Path os.Err].
        destruct (Z.eqb_spec e1 os.ENOTDIR); cbn [negb].
        -- by rewrite decide_True.
        -- by rewrite decide_False.
      * done.
      * done.
    + split_and!.
      * split; [by right|done].
      * split; done.
      * done.
      * done.
      * done.
  - cbn [fst snd app]. split_and!.
    + split; [by left|done].
    + split; done.
    + done.
    + done.
    + done.
Qed.

(** ** Listing the inventories *)

Lemma substring_0_cons n c s :
  String.substring 0 (S n) (String c s) = String c (String.substring 0 n s).
Proof. reflexivity. Qed.

Lemma HasPrefix_spec s prefix :
  strings.HasPrefix s prefix = true <-> exists rest, s = prefix +:+ rest.
Proof.
  unfold strings.HasPrefix. rewrite andb_true_iff, Nat.leb_le, bool_decide_eq_true. split.
  - intros [_ Hsub]. revert s Hsub. induction prefix as [|c prefix IH]; intros s Hsub.
    { by exists s. }
    destruct s as [|c' s]; [done|]. cbn [String.length] in Hsub.
    rewrite substring_0_cons in Hsub. injection Hsub as -> Hsub.
    destruct (IH s Hsub) as [rest ->]. by exists rest.
  - intros [rest ->]. induction prefix as [|c prefix [IH1 IH2]].
    { split; [cbn; lia|]. by destruct rest. }
    rewrite append_cons. cbn [String.length]. rewrite substring_0_cons.
    split; [lia|by f_equal].
Qed.

Lemma foldl_inventories dir prefix files acc :
  foldl (fun inventories file =>
           if strings.HasPrefix file prefix
           then inventories ++ [filepath.Join [dir; file]] else inventories)
        acc files
  = acc ++ ((fun file => filepath.Join [dir; file])
              <$> filter (fun file => strings.HasPrefix file prefix = true) files).
Proof.
  revert acc. induction files as [|file files IH]; intros acc; cbn [foldl].
  { by rewrite app_nil_r. }
  rewrite IH. destruct (strings.HasPrefix file prefix) eqn:Hp.
  - rewrite filter_cons_True by done. cbn [fmap list_fmap]. by rewrite <- app_assoc.
  - by rewrite filter_cons_False by congruence.
Qed.

Lemma GetAllInventories_eq sys prefix :
  GetAllInventories sys prefix
  = (((fun file => filepath.Join [os.TempDir sys; file])
        <$> filter (fun file => strings.HasPrefix file prefix = true)
                   (os.ReadDir sys (os.TempDir sys)).1,
      readDiag (os.TempDir sys) (os.ReadDir sys (os.TempDir sys)).2),
     [os.Logged ("[TEMP DIR]: " +:+ os.TempDir sys)]).
Proof.
  unfold GetAllInventories. destruct (os.ReadDir sys (os.TempDir sys)) as [files err].
  rewrite foldl_inventories. cbn [fst snd app]. by destruct err.
Qed.

(** X17: [GetAllInventories] returns one path for every entry of the
    temporary directory whose name starts with the prefix, in the order of
    the names, and for no other entry.  An error of the listing is
    reported and does not end the call: the entries that were read are
    still returned; when the directory cannot be opened there are none. *)
Theorem inventories_are_the_prefixed_entries sys inventoryPrefix :
  let dir := os.TempDir sys in
  let r := GetAllInventories sys inventoryPrefix in
  (forall names err,
     os.readdir sys dir = inl (names, err) ->
     r.1.1 = (fun name => filepath.Join [dir; name])
               <$> filter (fun name => strings.HasPrefix name inventoryPrefix = true)
                          (sort.Strings names) /\
     r.1.2 = readDiag dir err) /\
  (forall name, strings.HasPrefix name inventoryPrefix = true
                <-> exists rest, name = inventoryPrefix +:+ rest) /\
  (forall err, os.readdir sys dir = inr err -> r.1 = ([], readDiag dir (Some err))) /\
  r.2 = [os.Logged ("[TEMP DIR]: " +:+ dir)] /\
  (os.environ sys "TMPDIR" = EmptyString -> dir = "/tmp") /\
  (os.environ sys "TMPDIR" ≠ EmptyString -> dir = os.environ sys "TMPDIR").
Proof.
  cbn zeta. rewrite GetAllInventories_eq. cbn [fst snd]. unfold os.ReadDir. split_and!.
  - by intros names err ->.
  - intros name. apply HasPrefix_spec.
  - by intros err ->.
  - done.
  - intros H. unfold os.TempDir. by rewrite H.
  - intros H. unfold os.TempDir. by rewrite bool_decide_false.
Qed.

Lemma HasPrefix_trans s p1 p2 :
  strings.HasPrefix p2 p1 = true -> strings.HasPrefix s p2 = true ->
  strings.HasPrefix s p1 = true.
Proof.
  rewrite !HasPrefix_spec. intros [r1 ->] [r2 ->]. exists (r1 +:+ r2).
  by rewrite append_assoc.
Qed.

(** X18: a longer prefix selects less.  When [p1] is a prefix of [p2], the
    paths found for [p2] are among those found for [p1], in the same order;
    the empty prefix selects every entry of the directory.  The
    diagnostics do not depend on the prefix. *)
Theorem longer_prefix_selects_less sys p1 p2 :
  strings.HasPrefix p2 p1 = true ->
  (GetAllInventories sys p2).1.1 `sublist_of` (GetAllInventories sys p1).1.1 /\
  (GetAllInventories sys p2).1.2 = (GetAllInventories sys p1).1.2 /\
  (GetAllInventories sys EmptyString).1.1
  = (fun name => filepath.Join [os.TempDir sys; name])
      <$> (os.ReadDir sys (os.TempDir sys)).1.
Proof.
  intros Hp. rewrite !GetAllInventories_eq. cbn [fst snd]. split_and!.
  - apply fmap_sublist.
    rewrite <- (list_filter_filter_l
                  (fun file => strings.HasPrefix file p2 = true)
                  (fun file => strings.HasPrefix file p1 = true)).
    + apply sublist_filter.
    + intros file. by apply HasPrefix_trans.
  - done.
  - f_equal. induction (os.ReadDir sys (os.TempDir sys)).1 as [|name names IH]; [done|].
    rewrite filter_cons_True; [by rewrite IH|]. apply HasPrefix_spec. by exists name.
Qed.

(** ** The paths of the inventories *)

Lemma list_ascii_of_string_app a b :
  String.list_ascii_of_string (a +:+ b)
  = String.list_ascii_of_string a ++ String.list_ascii_of_string b.
Proof. induction a as [|x a IH]; [done|]. rewrite append_cons. cbn. by rewrite IH. Qed.

Lemma string_of_list_ascii_app a b :
  String.string_of_list_ascii (a ++ b)
  = String.string_of_list_ascii a +:+ String.string_of_list_ascii b.
Proof. induction a as [|x a IH]; [done|]. cbn. by rewrite IH. Qed.

Lemma element_plain c rest :
  Forall (fun x => x ≠ "/"%char) c -> filepath.ends rest = true ->
  filepath.element (c ++ rest) = (c, rest).
Proof.
  intros Hc Hrest. induction Hc as [|x c Hx _ IH]; cbn [app].
  - destruct rest as [|y rest]; [done|]. cbn [filepath.element filepath.ends] in *.
    by rewrite Hrest.
  - cbn [filepath.element]. unfold os.IsPathSeparator at 1.
    rewrite bool_decide_false by done. cbn [negb]. by rewrite IH.
Qed.

Lemma ends_plain c rest :
  c ≠ [] -> Forall (fun x => x ≠ "/"%char) c -> filepath.ends (c ++ rest) = false.
Proof.
  intros Hne Hc. destruct Hc as [|x c Hx _]; [done|].
  cbn [app filepath.ends]. unfold os.IsPathSeparator. by rewrite bool_decide_false.
Qed.

Lemma rootedOut_snoc done c :
  Forall plainElement done ->
  (if true && negb (length (rootedOut done) =? 1)%nat
      || negb true && negb (length (rootedOut done) =? 0)%nat
   then rootedOut done ++ [filepath.Separator] else rootedOut done) ++ c
  = rootedOut (done ++ [c]).
Proof.
  intros Hdone. destruct Hdone as [|d done Hd _].
  { unfold rootedOut. cbn. by rewrite app_nil_r. }
  assert ((length (rootedOut (d :: done)) =? 1)%nat = false) as ->.
  { apply Nat.eqb_neq. unfold rootedOut. destruct Hd as [Hne _]. destruct d; [done|].
    cbn [fmap list_fmap concat app length]. lia. }
  cbn [andb negb orb]. unfold rootedOut.
  change ((d :: done) ++ [c]) with (d :: (done ++ [c])).
  cbn [fmap list_fmap concat]. rewrite fmap_app, concat_app. cbn [fmap list_fmap concat].
  rewrite <- !app_assoc. cbn [app]. by rewrite app_nil_r.
Qed.

Lemma cleanLoop_spaced rest elems :
  spaced rest elems ->
  forall fuel done,
    (length rest <= fuel)%nat -> Forall plainElement done ->
    filepath.cleanLoop fuel true rest (rootedOut done) 1 = rootedOut (done ++ elems).
Proof.
  induction 1 as [|rest elems _ IH|c rest elems Hc Hends _ IH]; intros fuel done Hfuel Hdone.
  - rewrite app_nil_r. by destruct fuel.
  - destruct fuel as [|fuel]; [cbn in Hfuel; lia|]. cbn [filepath.cleanLoop].
    unfold os.IsPathSeparator at 1. rewrite bool_decide_true by done.
    apply IH; [cbn in Hfuel; lia|done].
  - destruct Hc as (Hne & Hsep & Hdot & Hdotdot).
    destruct c as [|x c]; [done|]. apply Forall_cons in Hsep as [Hx Hsep].
    destruct fuel as [|fuel]; [cbn in Hfuel; lia|].
    cbn [app filepath.cleanLoop]. unfold os.IsPathSeparator at 1.
    rewrite bool_decide_false by done.
    assert (bool_decide (x = "."%char) && filepath.ends (c ++ rest) = false) as ->.
    { case_bool_decide as Hxdot; [|done]. cbn [andb]. apply ends_plain; [|done].
      intros ->. by subst x. }
    assert (bool_decide (x = "."%char) && bool_decide (head (c ++ rest) = Some "."%char)
            && filepath.ends (tail (c ++ rest)) = false) as ->.
    { case_bool_decide as Hxdot; [|done]. cbn [andb].
      destruct c as [|y c]; [by subst x|]. cbn [app head tail].
      case_bool_decide as Hydot; [|done]. cbn [andb]. injection Hydot as ->.
      apply Forall_cons in Hsep as [_ Hsep]. apply ends_plain; [|done].
      intros ->. by subst x. }
    change (x :: c ++ rest) with ((x :: c) ++ rest).
    rewrite element_plain by (by constructor || done).
    rewrite rootedOut_snoc by done.
    rewrite (IH fuel (done ++ [x :: c])).
    + by rewrite <- app_assoc.
    + cbn [app length] in Hfuel. rewrite length_app in Hfuel. lia.
    + apply Forall_app. split; [done|]. apply Forall_singleton.
      split_and!; try done. by constructor.
Qed.

Lemma Clean_spaced rest elems :
  spaced rest elems ->
  filepath.Clean (String "/" (String.string_of_list_ascii rest))
  = String.string_of_list_ascii (rootedOut elems).
Proof.
  intros Hs. unfold filepath.Clean. rewrite bool_decide_false by done.
  cbn [String.list_ascii_of_string head default from_option id].
  assert (os.IsPathSeparator "/"%char = true) as Hsep by done.
  cbv zeta. rewrite !Hsep.
  rewrite String.list_ascii_of_string_of_list_ascii. cbn [drop length]. rewrite drop_0.
  change [filepath.Separator] with (rootedOut []).
  rewrite !(cleanLoop_spaced rest elems Hs (S (length rest)) []) by (done || lia).
  cbn [app].
  assert ((length (rootedOut elems) =? 0)%nat = false) as ->; [|done].
  apply Nat.eqb_neq. unfold rootedOut. destruct elems as [|e elems]; [done|].
  cbn [fmap list_fmap concat app length]. lia.
Qed.

Lemma spaced_tail (elems : list (list ascii)) name :
  Forall plainElement elems -> plainElement name ->
  filepath.ends (concat ((fun e => "/"%char :: e) <$> elems) ++ "/"%char :: name) = true /\
  spaced (concat ((fun e => "/"%char :: e) <$> elems) ++ "/"%char :: name) (elems ++ [name]).
Proof.
  intros Helems Hname. induction Helems as [|e elems He _ [IHe IH]];
    cbn [fmap list_fmap concat app].
  - split; [done|]. apply spaced_sep.
    pose proof (spaced_elem name [] [] Hname eq_refl spaced_nil) as Hsp.
    by rewrite app_nil_r in Hsp.
  - split; [done|]. apply spaced_sep. rewrite <- app_assoc. by apply spaced_elem.
Qed.

Lemma rooted_spaced (elems : list (list ascii)) name :
  Forall plainElement elems -> plainElement name ->
  exists rest, rootedOut elems ++ "/"%char :: name = "/"%char :: rest /\
               spaced rest (elems ++ [name]).
Proof.
  intros Helems Hname. destruct Helems as [|e elems He Helems].
  - exists ("/"%char :: name). split; [done|].
    apply (proj2 (spaced_tail [] name ltac:(constructor) Hname)).
  - destruct (spaced_tail elems name Helems Hname) as [Hends Hsp].
    exists (e ++ concat ((fun e => "/"%char :: e) <$> elems) ++ "/"%char :: name). split.
    + unfold rootedOut. cbn [fmap list_fmap concat app]. by rewrite <- app_assoc.
    + by apply spaced_elem.
Qed.

Lemma rootedPath_bytes elems :
  String.list_ascii_of_string (rootedPath elems)
  = rootedOut (String.list_ascii_of_string <$> elems).
Proof.
  destruct elems as [|e elems]; [done|].
  change (rootedPath (e :: elems))
    with (foldr (fun e p => "/" +:+ e +:+ p) EmptyString (e :: elems)).
  change (rootedOut (String.list_ascii_of_string <$> e :: elems))
    with (concat ((fun e => "/"%char :: e) <$> (String.list_ascii_of_string <$> e :: elems))).
  generalize (e :: elems). clear. intros elems.
  induction elems as [|e elems IH]; [done|]. cbn [foldr fmap list_fmap concat].
  rewrite !list_ascii_of_string_app, IH. done.
Qed.

Lemma Join_rooted elems name :
  Forall plainName elems -> plainName name ->
  filepath.Join [rootedPath elems; name] = rootedPath (elems ++ [name]).
Proof.
  intros Helems Hname. cbn [filepath.Join].
  rewrite bool_decide_true by (by destruct elems).
  cbn [strings.Join foldl].
  rewrite <- (String.string_of_list_ascii_of_string
                ((rootedPath elems +:+ String filepath.Separator "") +:+ name)).
  rewrite !list_ascii_of_string_app, rootedPath_bytes. cbn [String.list_ascii_of_string].
  rewrite <- app_assoc. cbn [app]. unfold filepath.Separator.
  destruct (rooted_spaced (String.list_ascii_of_string <$> elems)
              (String.list_ascii_of_string name)) as (rest & -> & Hsp);
    [by apply Forall_fmap|done|].
  cbn [String.string_of_list_ascii]. rewrite (Clean_spaced _ _ Hsp).
  rewrite <- (String.string_of_list_ascii_of_string (rootedPath (elems ++ [name]))).
  by rewrite rootedPath_bytes, fmap_app.
Qed.

Lemma rootedPath_snoc elems name :
  elems ≠ [] -> rootedPath (elems ++ [name]) = rootedPath elems +:+ "/" +:+ name.
Proof.
  intros Hne. destruct elems as [|e elems]; [done|].
  change (rootedPath ((e :: elems) ++ [name]))
    with (foldr (fun e p => "/" +:+ e +:+ p) EmptyString ((e :: elems) ++ [name])).
  change (rootedPath (e :: elems))
    with (foldr (fun e p => "/" +:+ e +:+ p) EmptyString (e :: elems)).
  generalize (e :: elems). clear. intros elems.
  induction elems as [|e elems IH]; cbn [app foldr].
  - by rewrite append_nil_r.
  - rewrite IH. by rewrite !append_assoc.
Qed.

Lemma compare_append p a b : String.compare (p +:+ a) (p +:+ b) = String.compare a b.
Proof.
  induction p as [|c p IH]; [done|]. rewrite !append_cons. cbn [String.compare].
  unfold Ascii.compare. by rewrite N.compare_refl.
Qed.

Lemma le_append p a b : String.le a b -> String.le (p +:+ a) (p +:+ b).
Proof. unfold String.le, String.leb. by rewrite compare_append. Qed.

Lemma Sorted_filter_le (P : string -> Prop) `{!forall x, Decision (P x)} l :
  Sorted String.le l -> Sorted String.le (filter P l).
Proof.
  intros Hl. apply Sorted_StronglySorted in Hl; [|apply _].
  apply StronglySorted_Sorted. induction Hl as [|x l _ IH Hx]; [constructor|].
  destruct (decide (P x)).
  - rewrite filter_cons_True by done. constructor; [done|].
    apply Forall_forall. intros y [_ Hy]%list_elem_of_filter.
    by apply (proj1 (Forall_forall _ _) Hx).
  - by rewrite filter_cons_False.
Qed.

Lemma ReadDir_Sorted sys dir : Sorted String.le (os.ReadDir sys dir).1.
Proof.
  unfold os.ReadDir. destruct (os.readdir sys dir) as [[dirs err]|err]; cbn [fst].
  - apply sort_Sorted.
  - constructor.
Qed.

(** X19: the paths of the inventories are the names under the temporary
    directory.  When that directory is an absolute path of plain elements,
    as the default [/tmp] is, every entry with a plain name, as the names
    of the entries of a directory are, is returned as the directory, a
    separator and the name: joining cleans nothing away.  The paths are
    then in ascending order. *)
Theorem inventories_under_the_temporary_directory sys inventoryPrefix elems :
  elems ≠ [] -> Forall plainName elems ->
  os.TempDir sys = rootedPath elems ->
  Forall plainName (os.ReadDir sys (os.TempDir sys)).1 ->
  (GetAllInventories sys inventoryPrefix).1.1
  = (fun name => os.TempDir sys +:+ "/" +:+ name)
      <$> filter (fun name => strings.HasPrefix name inventoryPrefix = true)
                 (os.ReadDir sys (os.TempDir sys)).1 /\
  Sorted String.le (GetAllInventories sys inventoryPrefix).1.1.
Proof.
  intros Hne Helems Hdir Hnames.
  assert ((GetAllInventories sys inventoryPrefix).1.1
          = (fun name => os.TempDir sys +:+ "/" +:+ name)
              <$> filter (fun name => strings.HasPrefix name inventoryPrefix = true)
                         (os.ReadDir sys (os.TempDir sys)).1) as Heq.
  { rewrite GetAllInventories_eq. cbn [fst snd].
    apply Forall_fmap_ext, Forall_forall. intros name Hin%list_elem_of_filter.
    rewrite Hdir, <- rootedPath_snoc by done. apply Join_rooted; [done|].
    destruct Hin as [_ Hin]. by apply (proj1 (Forall_forall _ _) Hnames). }
  split; [exact Heq|]. rewrite Heq.
  apply (Sorted_fmap _ String.le String.le).
  - intros a b Hab. by do 2 apply le_append.
  - apply Sorted_filter_le, ReadDir_Sorted.
Qed.

End Properties.

(** * The claims at concrete inputs *)

(** C1 at a pattern with a path separator, which [os.CreateTemp] refuses on
    every file system. *)
Lemma createTemp_failure_panics_witness :
  os.CreateTemp sampleFS EmptyString "inventory/x"
  = ((None, Some "createtemp inventory/x: pattern contains path separator"), []) /\
  BuildPlaybookInventory latin1Table sampleFS "inventory/x" "10.0.0.5" 22 [] [] []
  = (Panicked "runtime error: invalid memory address or nil pointer dereference", []).
Proof.
  split; [reflexivity|].
  apply (createTemp_failure_panics latin1Table sampleFS "inventory/x" "10.0.0.5" 22 [] [] []
           "createtemp inventory/x: pattern contains path separator").
  reflexivity.
Defined.

(** C4 at the host [node1], which names no group, and at the host [node2]
    of the group [web]. *)
Lemma default_group_fallback_witness :
  Name node1 ≠ EmptyString /\ Name node2 ≠ EmptyString /\
  (exists s, s ∈ document latin1Table [node1; node2] [] /\ heading s = "default" /\
             "node1" ∈ hostLines s) /\
  (exists s, s ∈ document latin1Table [node1; node2] [] /\ heading s = "web" /\
             "node2" ∈ hostLines s) /\
  (forall s, s ∈ document latin1Table [node1; node2] [] -> heading s ≠ "web" ->
             s ∈ document latin1Table [node1] []).
Proof.
  split; [discriminate|]. split; [discriminate|].
  destruct (default_group_fallback latin1Table [] [node2] node1 [] ltac:(discriminate))
    as (_ & Hdefault & _).
  destruct (default_group_fallback latin1Table [node1] [] node2 [] ltac:(discriminate))
    as (_ & _ & Hweb).
  destruct (Hweb eq_refl) as [Hunder Hother].
  split; [apply Hdefault; reflexivity|]. split; [exact Hunder|exact Hother].
Defined.

(** C5 at the group [web] that only the host [node2] refers to. *)
Lemma one_heading_per_group_witness :
  "web" ≠ EmptyString /\
  (exists h, h ∈ [node2] /\ Name h ≠ EmptyString /\ "web" ∈ Groups h) /\
  length (filter (fun s => heading s = "web") (document latin1Table [node2] [])) = 1%nat.
Proof.
  assert (exists h, h ∈ [node2] /\ Name h ≠ EmptyString /\ "web" ∈ Groups h) as Hsrc.
  { exists node2. split; [apply list_elem_of_here|].
    split; [discriminate|apply list_elem_of_here]. }
  split; [discriminate|]. split; [exact Hsrc|].
  destruct (one_heading_per_group latin1Table [node2] [] "web"
              ltac:(discriminate) (or_introl Hsrc)) as (_ & Hone & _).
  exact Hone.
Defined.

(** The claim C5 as it is written fails on a host without name and on an
    empty group name: [web] and the empty name occur in the [Groups] of a
    host, and the text has no heading at all. *)
Lemma heading_missing_for_skipped_names :
  "web" ∈ Groups nameless /\ EmptyString ∈ Groups ghost /\
  buildInventoryFileContent latin1Table [nameless; ghost] []
  = (EmptyString, [errorDiag "Inventory host is missing a name"]) /\
  document latin1Table [nameless; ghost] [] = [].
Proof.
  split; [apply list_elem_of_here|]. split; [apply list_elem_of_here|].
  split; vm_compute; reflexivity.
Qed.

(** C8 at the fallback host [10.0.0.5] with port [22] and no group. *)
Lemma default_host_synthesized_witness :
  os.CreateTemp sampleFS EmptyString ".inventory-"
  = ((Some {| os.fname := "/tmp/.inventory-0001" |}, None),
     [os.Created {| os.fname := "/tmp/.inventory-0001" |}]) /\
  BuildPlaybookInventory latin1Table sampleFS ".inventory-" "10.0.0.5" 22 [] [] []
  = (Returned ("/tmp/.inventory-0001", []),
     [os.Created {| os.fname := "/tmp/.inventory-0001" |};
      os.Logged "Inventory /tmp/.inventory-0001 was created";
      os.Wrote {| os.fname := "/tmp/.inventory-0001" |}
        ("[default]" +:+ LF +:+ "10.0.0.5 ansible_port=" +:+ DQ +:+ "22" +:+ DQ
         +:+ LF +:+ LF);
      os.Closed {| os.fname := "/tmp/.inventory-0001" |}]).
Proof.
  split; [reflexivity|].
  destruct (default_host_synthesized latin1Table sampleFS ".inventory-" "10.0.0.5" 22 [] []
              {| os.fname := "/tmp/.inventory-0001" |} eq_refl) as (Hrun & _).
  rewrite Hrun. vm_compute. reflexivity.
Defined.

(** C9 at the host [ghost], whose only group name is empty. *)
Lemma empty_group_names_drop_host_witness :
  Name ghost ≠ EmptyString /\ Groups ghost ≠ [] /\
  Forall (fun g => g = EmptyString) (Groups ghost) /\
  buildInventoryFileContent latin1Table [node2; ghost] []
  = buildInventoryFileContent latin1Table [node2] [].
Proof.
  assert (Forall (fun g => g = EmptyString) (Groups ghost)) as Hall.
  { apply Forall_cons. split; [reflexivity|apply Forall_nil_2]. }
  split; [discriminate|]. split; [discriminate|]. split; [exact Hall|].
  apply (empty_group_names_drop_host latin1Table [node2] [] ghost []);
    [discriminate|discriminate|exact Hall].
Defined.

(** C10 at a [groups] field and a [variables] field holding a string. *)
Lemma malformed_field_as_absent_witness :
  (forall l, VString "web" ≠ VList l) /\ (forall m, VString "web" ≠ VMap m) /\
  "node1" ≠ EmptyString /\
  ExpandInventoryHosts [VMap (<["groups" := VString "web"]> {["name" := VString "node1"]})]
  = ([node1], []) /\
  ExpandInventoryHosts
    [VMap (<["variables" := VString "web"]> {["name" := VString "node1"]})]
  = ([node1], []).
Proof.
  assert (forall l, VString "web" ≠ VList l) as Hl by discriminate.
  assert (forall m, VString "web" ≠ VMap m) as Hm by discriminate.
  assert ("node1" ≠ EmptyString) as Hn by discriminate.
  split; [exact Hl|]. split; [exact Hm|]. split; [exact Hn|].
  destruct (malformed_field_as_absent [] [] ∅ (VString "web") "node1") as [Hgroups Hvars].
  destruct (Hgroups Hl) as (_ & _ & Hrecord). destruct (Hvars Hm) as (_ & _ & Hrecord').
  split; [apply (Hrecord Hn)|apply (Hrecord' Hn)].
Defined.

(** * Further properties at concrete inputs *)

(** X7 at the hosts [node1] and [node2] and the group [web]. *)
Lemma well_typed_entries_read_back_witness :
  Forall (fun h => Name h ≠ EmptyString) [node1; node2] /\
  Forall (fun g => GroupName g ≠ EmptyString) [web] /\
  ExpandInventoryHosts [hostEntry node1; hostEntry node2] = ([node1; node2], []) /\
  ExpandInventoryGroups [groupEntry web] = ([web], []).
Proof.
  assert (Forall (fun h => Name h ≠ EmptyString) [node1; node2]) as Hhosts.
  { apply Forall_cons. split; [discriminate|].
    apply Forall_cons. split; [discriminate|apply Forall_nil_2]. }
  assert (Forall (fun g => GroupName g ≠ EmptyString) [web]) as Hgroups.
  { apply Forall_cons. split; [discriminate|apply Forall_nil_2]. }
  split; [exact Hhosts|]. split; [exact Hgroups|].
  exact (well_typed_entries_read_back [node1; node2] [web] Hhosts Hgroups).
Defined.

(** X11 at two hosts and two groups, each pair in both orders. *)
Lemma input_order_is_irrelevant_witness :
  [node1; node2] ≡ₚ [node2; node1] /\ [web; db] ≡ₚ [db; web] /\
  NoDup (declared [web; db]) /\
  buildInventoryFileContent latin1Table [node1; node2] [web; db]
  = buildInventoryFileContent latin1Table [node2; node1] [db; web].
Proof.
  assert (NoDup (declared [web; db])) as Hnd.
  { vm_compute. apply NoDup_cons. split; [|apply NoDup_singleton].
    apply not_elem_of_cons. split; [discriminate|apply not_elem_of_nil]. }
  split; [apply Permutation_swap|]. split; [apply Permutation_swap|].
  split; [exact Hnd|].
  apply (input_order_is_irrelevant latin1Table [node1; node2] [node2; node1]
           [web; db] [db; web]);
    [apply Permutation_swap|apply Permutation_swap|exact Hnd].
Defined.

(** X12 at the host [node2], next to a fallback host, a port and a host
    group that leave no trace. *)
Lemma explicit_hosts_take_precedence_witness :
  os.CreateTemp sampleFS EmptyString ".inventory-"
  = ((Some {| os.fname := "/tmp/.inventory-0001" |}, None),
     [os.Created {| os.fname := "/tmp/.inventory-0001" |}]) /\
  [node2] ≠ [] /\
  BuildPlaybookInventory latin1Table sampleFS ".inventory-" "10.0.0.5" 22 [VInt 7]
    [node2] []
  = (Returned ("/tmp/.inventory-0001", []),
     [os.Created {| os.fname := "/tmp/.inventory-0001" |};
      os.Logged "Inventory /tmp/.inventory-0001 was created";
      os.Wrote {| os.fname := "/tmp/.inventory-0001" |}
        ("[web]" +:+ LF +:+ "node2" +:+ LF +:+ LF);
      os.Closed {| os.fname := "/tmp/.inventory-0001" |}]).
Proof.
  split; [reflexivity|]. split; [discriminate|].
  rewrite (explicit_hosts_take_precedence latin1Table sampleFS ".inventory-" "10.0.0.5" 22
             [VInt 7] [node2] [] {| os.fname := "/tmp/.inventory-0001" |} eq_refl
             ltac:(discriminate)).
  vm_compute. reflexivity.
Defined.


(** X14 at a value of two lines: the line feed is written as an escape
    sequence, and the host line stays one line. *)
Lemma quoted_values_stay_on_their_line_witness :
  free 10 "node1" /\
  (forall k, is_Some (({["motd" := "a" +:+ LF +:+ "b"]} : gmap string string) !! k) ->
             free 10 k) /\
  formatInventoryHostLine latin1Table "node1" {["motd" := "a" +:+ LF +:+ "b"]}
  = "node1 motd=" +:+ DQ +:+ "a\nb" +:+ DQ /\
  free 10 (formatInventoryHostLine latin1Table "node1" {["motd" := "a" +:+ LF +:+ "b"]}).
Proof.
  assert (forall s : string, (10 ∈ bytes_of_string s -> False) -> free 10 s) as Hfree
    by (intros s Hs; exact Hs).
  assert (free 10 "node1") as Hname.
  { apply Hfree. vm_compute. intros Hin.
    repeat (apply elem_of_cons in Hin as [Hin|Hin]; [discriminate Hin|]).
    by apply elem_of_nil in Hin. }
  assert (forall k, is_Some (({["motd" := "a" +:+ LF +:+ "b"]} : gmap string string) !! k) ->
                    free 10 k) as Hkeys.
  { intros k [v Hk]. apply lookup_singleton_Some in Hk as [<- _].
    apply Hfree. vm_compute. intros Hin.
    repeat (apply elem_of_cons in Hin as [Hin|Hin]; [discriminate Hin|]).
    by apply elem_of_nil in Hin. }
  split; [exact Hname|]. split; [exact Hkeys|]. split; [vm_compute; reflexivity|].
  destruct (quoted_values_stay_on_their_line latin1Table "node1"
              {["motd" := "a" +:+ LF +:+ "b"]}) as [_ Hline].
  exact (Hline 10 (or_introl eq_refl) Hname Hkeys).
Defined.

(** X15 at the variables of the group [web]. *)
Lemma vars_block_determines_variables_witness :
  plainKeys (GroupVariables web) /\
  formatInventoryVariables latin1Table (GroupVariables web)
  = "ansible_user=" +:+ DQ +:+ "deploy" +:+ DQ +:+ LF /\
  forall m, plainKeys m ->
            formatInventoryVariables latin1Table m
            = "ansible_user=" +:+ DQ +:+ "deploy" +:+ DQ +:+ LF ->
            m = GroupVariables web.
Proof.
  assert (plainKeys (GroupVariables web)) as Hplain.
  { intros k [v Hk]. cbn [web GroupVariables] in Hk.
    apply lookup_singleton_Some in Hk as [<- _].
    unfold free. split; vm_compute; intros Hin;
      repeat (apply elem_of_cons in Hin as [Hin|Hin]; [discriminate Hin|]);
      by apply elem_of_nil in Hin. }
  assert (formatInventoryVariables latin1Table (GroupVariables web)
          = "ansible_user=" +:+ DQ +:+ "deploy" +:+ DQ +:+ LF) as Htext.
  { vm_compute. reflexivity. }
  split; [exact Hplain|]. split; [exact Htext|].
  intros m Hm Heq.
  apply (vars_block_determines_variables latin1Table m (GroupVariables web) Hm Hplain).
  rewrite Heq. symmetry. exact Htext.
Defined.

(** X18 at the prefix of all inventories and the longer prefix of the
    first. *)
Lemma longer_prefix_selects_less_witness :
  strings.HasPrefix ".inventory-1" ".inventory-" = true /\
  (GetAllInventories sampleSystem ".inventory-1").1.1 = ["/tmp/.inventory-1"] /\
  (GetAllInventories sampleSystem ".inventory-").1.1
  = ["/tmp/.inventory-1"; "/tmp/.inventory-2"] /\
  ["/tmp/.inventory-1"] `sublist_of` ["/tmp/.inventory-1"; "/tmp/.inventory-2"].
Proof.
  split; [reflexivity|]. split; [vm_compute; reflexivity|].
  split; [vm_compute; reflexivity|].
  destruct (longer_prefix_selects_less sampleSystem ".inventory-" ".inventory-1" eq_refl)
    as (Hsub & _).
  assert ((GetAllInventories sampleSystem ".inventory-1").1.1 = ["/tmp/.inventory-1"]) as H1
    by (vm_compute; reflexivity).
  assert ((GetAllInventories sampleSystem ".inventory-").1.1
          = ["/tmp/.inventory-1"; "/tmp/.inventory-2"]) as H2 by (vm_compute; reflexivity).
  rewrite H1, H2 in Hsub. exact Hsub.
Defined.

(** X19 at the default temporary directory [/tmp]. *)
Lemma inventories_under_the_temporary_directory_witness :
  ["tmp"] ≠ [] /\ Forall plainName ["tmp"] /\
  os.TempDir sampleSystem = rootedPath ["tmp"] /\
  Forall plainName (os.ReadDir sampleSystem (os.TempDir sampleSystem)).1 /\
  (GetAllInventories sampleSystem ".inventory-").1.1
  = ["/tmp/.inventory-1"; "/tmp/.inventory-2"].
Proof.
  assert (forall name,
            String.list_ascii_of_string name ≠ [] ->
            Forall (fun x => x ≠ "/"%char) (String.list_ascii_of_string name) ->
            String.list_ascii_of_string name ≠ ["."%char] ->
            String.list_ascii_of_string name ≠ ["."%char; "."%char] ->
            plainName name) as Hplain.
  { intros name H1 H2 H3 H4. split; [exact H1|]. split; [exact H2|].
    split; [exact H3|exact H4]. }
  assert (Forall plainName ["tmp"]) as Htmp.
  { apply Forall_cons. split; [|apply Forall_nil_2].
    apply Hplain; [discriminate| |discriminate|discriminate].
    cbn. repeat (apply Forall_cons; split; [discriminate|]). apply Forall_nil_2. }
  assert (Forall plainName (os.ReadDir sampleSystem (os.TempDir sampleSystem)).1) as Hnames.
  { vm_compute os.ReadDir.
    repeat (apply Forall_cons; split;
            [apply Hplain; [discriminate| |discriminate|discriminate];
             cbn; repeat (apply Forall_cons; split; [discriminate|]); apply Forall_nil_2|]).
    apply Forall_nil_2. }
  split; [discriminate|]. split; [exact Htmp|]. split; [reflexivity|].
  split; [exact Hnames|].
  destruct (inventories_under_the_temporary_directory sampleSystem ".inventory-" ["tmp"]
              ltac:(discriminate) Htmp eq_refl Hnames) as [Hpaths _].
  rewrite Hpaths. vm_compute. reflexivity.
Defined.

